(** * MBRT: query classification and coordinate extraction

    A shallow embedding of the decision logic of the MBRT map assistant:
    the coordinate parser, the isochrone value extractors, the rule-based
    query classifier, the circle generator, the six extraction agents and
    the command registry with its parser, followed by the properties
    established about them.

    Modelling conventions.
    - A JavaScript string is the sequence of its UTF-16 code units
      ([text = list N]).  String literals of the source are written with
      [txt "..."].
    - Regular expressions are written as in the source, read into syntax
      trees and run by a backtracking matcher with the priorities of the
      ECMAScript specification (leftmost match, greedy or lazy quantifiers
      tried in order, alternatives left to right).
    - Numbers read from text are kept as the decimal fractions they are
      written as, and [to_double] gives the binary64 value each one stands
      for.  Range checks and unit conversions are stated on the decimal
      fractions; the clustering of centers and the [zoom] and [center]
      commands compute on the doubles, as the code does.  The circle
      generator is written over an arithmetic it takes as a parameter: it
      is run on the real numbers, without rounding, and in binary64, where
      the sine and the cosine are known only at the two angles that the
      examples need.
    - External collaborators (text completion, routing, isochrone service,
      map rendering, feature selection) are parameters of the agents; each
      request is recorded in a trace, and a call may return or throw.
      Logging and timing calls of the source have no effect on what the
      agents do and are left out, as is the conversation history of the
      agents that never send it.
    - A command of the registry other than [zoom] and [center] is one
      request of the map, recorded by its name; [zoom] and [center] are
      modelled down to the [flyTo] they make. *)

From Stdlib Require Import ZArith NArith String Ascii Lia.
From Stdlib Require Import Sorting.Sorted.
From Stdlib Require Import Floats.
From Stdlib Require DecimalPos.
From Stdlib Require Reals.
From stdpp Require Import base option list gmap sets.

Local Open Scope Z_scope.
Local Open Scope nat_scope.
Local Open Scope list_scope.

(** ** Text *)

Abbreviation text := (list N) (only parsing).

(** The code units of a literal, written in this file in UTF-8. *)
Fixpoint utf8_decode (bs : list N) : text :=
  match bs with
  | [] => []
  | b :: r =>
      if (b <? 128)%N then b :: utf8_decode r
      else if (b <? 224)%N then
        match r with
        | b2 :: r' => ((b - 192) * 64 + (b2 - 128))%N :: utf8_decode r'
        | [] => [b]
        end
      else if (b <? 240)%N then
        match r with
        | b2 :: b3 :: r' =>
            ((b - 224) * 4096 + (b2 - 128) * 64 + (b3 - 128))%N :: utf8_decode r'
        | _ => [b]
        end
      else
        match r with
        | b2 :: b3 :: b4 :: r' =>
            let cp := ((b - 240) * 262144 + (b2 - 128) * 4096
                       + (b3 - 128) * 64 + (b4 - 128) - 65536)%N in
            (55296 + cp / 1024)%N :: (56320 + cp mod 1024)%N :: utf8_decode r'
        | _ => [b]
        end
  end.

Definition txt (s : string) : text :=
  utf8_decode ((fun a => N_of_ascii a) <$> list_ascii_of_string s).

Definition between (lo hi c : N) : bool := ((lo <=? c) && (c <=? hi))%N.

Definition is_digit (c : N) : bool := between 48 57 c.
Definition is_upper (c : N) : bool := between 65 90 c.
Definition is_lower (c : N) : bool := between 97 122 c.

(** [\w] of a regular expression without the unicode flag. *)
Definition is_word (c : N) : bool :=
  is_digit c || is_upper c || is_lower c || (c =? 95)%N.

(** Line terminators: LF, CR, LS, PS. *)
Definition is_line_terminator (c : N) : bool :=
  ((c =? 10) || (c =? 13) || (c =? 8232) || (c =? 8233))%N.

(** [\s]: WhiteSpace and LineTerminator of ECMAScript. *)
Definition is_space (c : N) : bool :=
  (between 9 13 c || (c =? 32) || (c =? 160) || (c =? 5760)
   || between 8192 8202 c || (c =? 8232) || (c =? 8233) || (c =? 8239)
   || (c =? 8287) || (c =? 12288) || (c =? 65279))%N.

(** Case folding on the ASCII letters. *)
Definition lower_ascii (c : N) : N := if is_upper c then (c + 32)%N else c.
Definition upper_ascii (c : N) : N := if is_lower c then (c - 32)%N else c.

(** [String.prototype.toLowerCase].  Only three kinds of code units lower to
    an ASCII letter: A-Z, the Kelvin sign (to k) and dotted capital I (to i
    followed by a combining dot).  Every other code unit is left as it is:
    its real lower-case form is not ASCII either, so no test made by the
    source on the lowered text can tell the difference. *)
Definition toLowerCase (s : text) : text :=
  s ≫= (fun c =>
    if is_upper c then [(c + 32)%N]
    else if (c =? 8490)%N then [107%N]
    else if (c =? 304)%N then [105%N; 775%N]
    else [c]).

Fixpoint starts_with (p s : text) : bool :=
  match p, s with
  | [], _ => true
  | _ :: _, [] => false
  | a :: p', b :: s' => (a =? b)%N && starts_with p' s'
  end.

(** [String.prototype.includes]. *)
Fixpoint includes (s p : text) : bool :=
  starts_with p s ||
  match s with
  | [] => false
  | _ :: s' => includes s' p
  end.

(** [String.prototype.split] with a non-empty separator.  [cur] holds the
    current piece in reverse. *)
Fixpoint split_go (sep : text) (cur : text) (skip : nat) (s : text) : list text :=
  match s with
  | [] => [rev cur]
  | c :: s' =>
      match skip with
      | S n => split_go sep cur n s'
      | O =>
          if starts_with sep s
          then rev cur :: split_go sep [] (length sep - 1) s'
          else split_go sep (c :: cur) 0 s'
      end
  end.

Definition split (s sep : text) : list text := split_go sep [] 0 s.

(** [Array.prototype.join]. *)
Fixpoint join (sep : text) (l : list text) : text :=
  match l with
  | [] => []
  | [x] => x
  | x :: l' => x ++ sep ++ join sep l'
  end.

Fixpoint drop_while (p : N -> bool) (s : text) : text :=
  match s with
  | [] => []
  | c :: s' => if p c then drop_while p s' else s
  end.

(** [String.prototype.trim]. *)
Definition trim_start (s : text) : text := drop_while is_space s.
Definition trim (s : text) : text := rev (drop_while is_space (rev (trim_start s))).

(** ** Regular expressions *)

(** A member of a character class. *)
Inductive citem : Type :=
| CChar (c : N)
| CRange (lo hi : N)
| CDigit
| CSpace
| CWord.

Inductive regex : Type :=
| REmpty
| RSet (icase : bool) (negated : bool) (items : list citem)
| RSeq (r1 r2 : regex)
| RAlt (r1 r2 : regex)
| RStar (greedy : bool) (r : regex)
| RGroup (n : nat) (r : regex)
| RNotAhead (r : regex)
| RBol
| REol
| RWordB.

(** Under the [i] flag two code units match when their canonical forms
    agree; for the ASCII members used by the source that is equality up to
    the case of ASCII letters. *)
Definition item_matches (icase : bool) (it : citem) (x : N) : bool :=
  match it with
  | CChar c => if icase then (upper_ascii x =? upper_ascii c)%N else (x =? c)%N
  | CRange lo hi =>
      between lo hi x
      || (icase && (between lo hi (upper_ascii x) || between lo hi (lower_ascii x)))
  | CDigit => is_digit x
  | CSpace => is_space x
  | CWord => is_word x
  end.

Definition set_matches (icase negated : bool) (items : list citem) (x : N) : bool :=
  xorb negated (existsb (fun it => item_matches icase it x) items).

(** A position in the subject: index, the code unit before it, the rest. *)
Record cursor := Cursor { c_pos : nat; c_prev : option N; c_rest : text }.

Definition captures := list (nat * text).

Fixpoint capture (caps : captures) (n : nat) : option text :=
  match caps with
  | [] => None
  | (i, s) :: caps' => if decide (i = n) then Some s else capture caps' n
  end.

Definition word_before (c : cursor) : bool :=
  match c_prev c with Some x => is_word x | None => false end.
Definition word_after (c : cursor) : bool :=
  match c_rest c with x :: _ => is_word x | [] => false end.

(** The loop of a quantifier [r*] or [r*?]: [iter] matches one [r].  An
    iteration that consumes nothing is rejected, as in ECMAScript, so
    [fuel], the number of code units left, bounds the iterations. *)
Fixpoint star_loop {R : Type} (greedy : bool)
    (iter : cursor -> captures -> (cursor -> captures -> option R) -> option R)
    (k : cursor -> captures -> option R)
    (fuel : nat) (c : cursor) (caps : captures) {struct fuel} : option R :=
  match fuel with
  | O => k c caps
  | S fuel' =>
      let again c' caps' :=
        if decide (c_pos c < c_pos c') then star_loop greedy iter k fuel' c' caps'
        else None in
      if greedy then
        match iter c caps again with
        | Some x => Some x
        | None => k c caps
        end
      else
        match k c caps with
        | Some x => Some x
        | None => iter c caps again
        end
  end.

(** The backtracking matcher, in continuation-passing style: [k] is what
    remains to be matched after [r]; the first success in priority order is
    the result. *)
Fixpoint rmatch (r : regex) (R : Type) (c : cursor) (caps : captures)
    (k : cursor -> captures -> option R) {struct r} : option R :=
  match r with
  | REmpty => k c caps
  | RSet icase negated items =>
      match c_rest c with
      | x :: rest =>
          if set_matches icase negated items x
          then k (Cursor (S (c_pos c)) (Some x) rest) caps
          else None
      | [] => None
      end
  | RSeq r1 r2 => rmatch r1 R c caps (fun c' caps' => rmatch r2 R c' caps' k)
  | RAlt r1 r2 =>
      match rmatch r1 R c caps k with
      | Some x => Some x
      | None => rmatch r2 R c caps k
      end
  | RStar greedy r1 =>
      star_loop greedy (rmatch r1 R) k (length (c_rest c)) c caps
  | RGroup n r1 =>
      rmatch r1 R c caps (fun c' caps' =>
        k c' ((n, take (c_pos c' - c_pos c) (c_rest c)) :: caps'))
  | RNotAhead r1 =>
      match rmatch r1 unit c caps (fun _ _ => Some tt) with
      | Some _ => None
      | None => k c caps
      end
  | RBol => match c_prev c with None => k c caps | Some _ => None end
  | REol => match c_rest c with [] => k c caps | _ :: _ => None end
  | RWordB => if xorb (word_before c) (word_after c) then k c caps else None
  end.

(** A successful match: where it starts, where it ends, its groups. *)
Record rmatch_result := RMatch {
  m_start : nat;
  m_end : cursor;
  m_caps : captures;
  m_text : text
}.

(** [match[n]]; [None] is [undefined]. *)
Definition group (m : rmatch_result) (n : nat) : option text :=
  match n with
  | O => Some (m_text m)
  | S _ => capture (m_caps m) n
  end.

Definition exec_here (r : regex) (c : cursor) : option rmatch_result :=
  rmatch r rmatch_result c [] (fun c' caps =>
    Some (RMatch (c_pos c) c' caps (take (c_pos c' - c_pos c) (c_rest c)))).

(** Leftmost match at or after a position. *)
Fixpoint search_from (r : regex) (pos : nat) (prev : option N) (rest : text)
    : option rmatch_result :=
  match exec_here r (Cursor pos prev rest) with
  | Some m => Some m
  | None =>
      match rest with
      | [] => None
      | x :: rest' => search_from r (S pos) (Some x) rest'
      end
  end.

Definition search (r : regex) (c : cursor) : option rmatch_result :=
  search_from r (c_pos c) (c_prev c) (c_rest c).

Definition start_of (s : text) : cursor := Cursor 0 None s.

(** [String.prototype.match] without the global flag, and [exec] on a
    pattern whose lastIndex is 0. *)
Definition match_first (r : regex) (s : text) : option rmatch_result :=
  search r (start_of s).

(** [RegExp.prototype.test] on a pattern whose lastIndex is 0. *)
Definition test (r : regex) (s : text) : bool :=
  match match_first r s with Some _ => true | None => false end.

(** [while ((match = pattern.exec(text)) !== null) body] for a pattern with
    the global flag: each search resumes where the previous match ended.
    A pattern that matches the empty string would never leave the loop; the
    model then runs out of fuel and answers [None]. *)
Fixpoint while_exec {S : Type} (fuel : nat) (r : regex) (c : cursor)
    (body : rmatch_result -> S -> S) (s : S) : option S :=
  match fuel with
  | O => None
  | Datatypes.S fuel' =>
      match search r c with
      | None => Some s
      | Some m => while_exec fuel' r (m_end m) body (body m s)
      end
  end.

(** The state after such a loop, for the patterns every match of which
    consumes something: they leave the loop within this fuel
    ([each_match_fold]). *)
Definition each_match {S : Type} (r : regex) (s : text)
    (body : rmatch_result -> S -> S) (a : S) : S :=
  default a (while_exec (Datatypes.S (length s)) r (start_of s) body a).

(** The list of matches such a loop visits. *)
Fixpoint exec_all (fuel : nat) (r : regex) (c : cursor) : option (list rmatch_result) :=
  match fuel with
  | O => None
  | Datatypes.S fuel' =>
      match search r c with
      | None => Some []
      | Some m => (fun l => m :: l) <$> exec_all fuel' r (m_end m)
      end
  end.

(** [String.prototype.match] with a global pattern: all matches, stepping
    over an empty match by one code unit. *)
Fixpoint match_all_from (fuel : nat) (r : regex) (c : cursor) : list rmatch_result :=
  match fuel with
  | O => []
  | Datatypes.S fuel' =>
      match search r c with
      | None => []
      | Some m =>
          let e := m_end m in
          if decide (m_start m < c_pos e) then m :: match_all_from fuel' r e
          else match c_rest e with
               | [] => [m]
               | x :: rest => m :: match_all_from fuel' r (Cursor (S (c_pos e)) (Some x) rest)
               end
      end
  end.

Definition match_all (r : regex) (s : text) : list rmatch_result :=
  match_all_from (S (length s)) r (start_of s).

(** *** Pattern syntax

    Patterns are written as in the source and read by a recursive-descent
    parser for the part of the ECMAScript pattern grammar the source uses:
    alternation, groups (capturing, [?:], [?!]), the quantifiers [*], [+],
    [?] and their lazy forms, classes, [.], [^], [$], and the escapes
    [\b \d \s \w] and escaped punctuation. *)

Definition opt (r : regex) : regex := RAlt r REmpty.
Definition plus (greedy : bool) (r : regex) : regex := RSeq r (RStar greedy r).
Definition chr (icase : bool) (c : N) : regex := RSet icase false [CChar c].
Definition dot : regex := RSet false true [CChar 10; CChar 13; CChar 8232; CChar 8233].

Definition escape_item (c : N) : citem :=
  if (c =? 100)%N then CDigit
  else if (c =? 115)%N then CSpace
  else if (c =? 119)%N then CWord
  else CChar c.

(** The members of a class, up to the closing bracket. *)
Fixpoint parse_class (s : text) (acc : list citem) : option (list citem * text) :=
  match s with
  | [] => None
  | 93%N :: r => Some (rev acc, r)
  | 92%N :: c :: r => parse_class r (escape_item c :: acc)
  | lo :: 45%N :: hi :: r =>
      if (hi =? 93)%N then Some (rev (CChar 45 :: CChar lo :: acc), r)
      else parse_class r (CRange lo hi :: acc)
  | c :: r => parse_class r (CChar c :: acc)
  end.

(** A quantifier after an atom, if any. *)
Definition parse_quant (r : regex) (s : text) : regex * text :=
  match s with
  | 42%N :: 63%N :: s' => (RStar false r, s')
  | 42%N :: s' => (RStar true r, s')
  | 43%N :: 63%N :: s' => (plus false r, s')
  | 43%N :: s' => (plus true r, s')
  | 63%N :: 63%N :: s' => (RAlt REmpty r, s')
  | 63%N :: s' => (opt r, s')
  | _ => (r, s)
  end.

(** [parse_disj] reads alternatives up to a closing parenthesis or the end;
    [parse_alt] reads the terms of one alternative; [n] counts the
    capturing groups opened so far. *)
Fixpoint parse_disj (fuel : nat) (icase : bool) (s : text) (n : nat)
    : option (regex * text * nat) :=
  match fuel with
  | O => None
  | S fuel' =>
      match parse_alt fuel' icase s n with
      | Some (r1, 124%N :: s1, n1) =>
          match parse_disj fuel' icase s1 n1 with
          | Some (r2, s2, n2) => Some (RAlt r1 r2, s2, n2)
          | None => None
          end
      | o => o
      end
  end
with parse_alt (fuel : nat) (icase : bool) (s : text) (n : nat)
    : option (regex * text * nat) :=
  match fuel with
  | O => None
  | S fuel' =>
      let continue (atom : regex) (s1 : text) (n1 : nat) (quantified : bool) :=
        let '(t, s2) := if quantified then parse_quant atom s1 else (atom, s1) in
        match parse_alt fuel' icase s2 n1 with
        | Some (REmpty, s3, n3) => Some (t, s3, n3)
        | Some (r, s3, n3) => Some (RSeq t r, s3, n3)
        | None => None
        end in
      match s with
      | [] => Some (REmpty, s, n)
      | 124%N :: _ => Some (REmpty, s, n)
      | 41%N :: _ => Some (REmpty, s, n)
      | 94%N :: s1 => continue RBol s1 n false
      | 36%N :: s1 => continue REol s1 n false
      | 46%N :: s1 => continue dot s1 n true
      | 92%N :: 98%N :: s1 => continue RWordB s1 n false
      | 92%N :: c :: s1 => continue (RSet icase false [escape_item c]) s1 n true
      | 91%N :: 94%N :: s1 =>
          match parse_class s1 [] with
          | Some (items, s2) => continue (RSet icase true items) s2 n true
          | None => None
          end
      | 91%N :: s1 =>
          match parse_class s1 [] with
          | Some (items, s2) => continue (RSet icase false items) s2 n true
          | None => None
          end
      | 40%N :: 63%N :: 58%N :: s1 =>
          match parse_disj fuel' icase s1 n with
          | Some (r, 41%N :: s2, n2) => continue r s2 n2 true
          | _ => None
          end
      | 40%N :: 63%N :: 33%N :: s1 =>
          match parse_disj fuel' icase s1 n with
          | Some (r, 41%N :: s2, n2) => continue (RNotAhead r) s2 n2 false
          | _ => None
          end
      | 40%N :: s1 =>
          match parse_disj fuel' icase s1 (S n) with
          | Some (r, 41%N :: s2, n2) => continue (RGroup (S n) r) s2 n2 true
          | _ => None
          end
      | c :: s1 => continue (chr icase c) s1 n true
      end
  end.

(** The pattern that matches nowhere stands for a source that does not
    parse.  The patterns of this file are within the syntax read above
    (see [patterns_parse] and [named_patterns_parse]). *)
Definition never : regex := RSet false false [].

Definition parse_regex (icase : bool) (source : string) : option regex :=
  let s := txt source in
  match parse_disj (2 * length s + 2) icase s 0 with
  | Some (r, [], _) => Some r
  | _ => None
  end.

(** [/source/] and [/source/i]; the [g] flag is in the choice of
    [while_exec], [match_all] or [test] at the place of use. *)
Definition re (source : string) : regex := default never (parse_regex false source).
Definition rei (source : string) : regex := default never (parse_regex true source).

(** ** Numbers *)

(** A JavaScript number read from text: [NaN], or the decimal fraction
    [m / 10^s] kept in lowest terms of ten ([s = 0] or [m] not a multiple of
    ten). *)
Inductive number : Type :=
| NaN
| Num (m : Z) (s : nat).

Definition pow10 (n : nat) : Z := (10 ^ Z.of_nat n)%Z.

Fixpoint normalize (m : Z) (s : nat) : number :=
  match s with
  | O => Num m 0
  | S s' => if (m mod 10 =? 0)%Z then normalize (m / 10) s' else Num m s
  end.

Definition of_Z (z : Z) : number := Num z 0.

(** Comparison of [m1/10^s1] with [m2/10^s2] on a common denominator. *)
Definition cmp (m1 : Z) (s1 : nat) (m2 : Z) (s2 : nat) : comparison :=
  (m1 * pow10 s2 ?= m2 * pow10 s1)%Z.

Definition num_eqb (a b : number) : bool :=
  match a, b with
  | Num m1 s1, Num m2 s2 => match cmp m1 s1 m2 s2 with Eq => true | _ => false end
  | _, _ => false
  end.
Definition num_ltb (a b : number) : bool :=
  match a, b with
  | Num m1 s1, Num m2 s2 => match cmp m1 s1 m2 s2 with Lt => true | _ => false end
  | _, _ => false
  end.
Definition num_leb (a b : number) : bool :=
  match a, b with
  | Num m1 s1, Num m2 s2 => match cmp m1 s1 m2 s2 with Gt => false | _ => true end
  | _, _ => false
  end.
Definition num_gtb (a b : number) : bool := num_ltb b a.
Definition num_geb (a b : number) : bool := num_leb b a.

Definition isNaN (a : number) : bool :=
  match a with NaN => true | Num _ _ => false end.

Definition num_abs (a : number) : number :=
  match a with NaN => NaN | Num m s => Num (Z.abs m) s end.

Definition num_sub (a b : number) : number :=
  match a, b with
  | Num m1 s1, Num m2 s2 =>
      normalize (m1 * pow10 s2 - m2 * pow10 s1) (s1 + s2)
  | _, _ => NaN
  end.

Definition num_mul (a b : number) : number :=
  match a, b with
  | Num m1 s1, Num m2 s2 => normalize (m1 * m2) (s1 + s2)
  | _, _ => NaN
  end.

(** Division by [10^k]. *)
Definition num_shift (k : nat) (a : number) : number :=
  match a with NaN => NaN | Num m s => normalize m (s + k) end.

(** [Math.round]: the nearest integer, halves rounded up. *)
Definition num_round (a : number) : number :=
  match a with
  | NaN => NaN
  | Num m s => Num ((2 * m + pow10 s) / (2 * pow10 s)) 0
  end.

(** *** Reading numbers *)

Fixpoint take_digits (s : text) : text * text :=
  match s with
  | c :: s' =>
      if is_digit c then let '(ds, r) := take_digits s' in (c :: ds, r)
      else ([], s)
  | [] => ([], [])
  end.

Definition digits_value (ds : text) : Z :=
  foldl (fun acc d => (acc * 10 + (Z.of_N d - 48))%Z) 0%Z ds.

(** The exponent part [e], [e+], [e-] followed by digits, when present. *)
Definition scan_exponent (s : text) : Z * text :=
  match s with
  | e :: r =>
      if ((e =? 101) || (e =? 69))%N then
        let '(neg, r') :=
          match r with
          | 45%N :: r' => (true, r')
          | 43%N :: r' => (false, r')
          | _ => (false, r)
          end in
        let '(ds, rest) := take_digits r' in
        match ds with
        | [] => (0%Z, s)
        | _ :: _ => ((if neg then - digits_value ds else digits_value ds)%Z, rest)
        end
      else (0%Z, s)
  | [] => (0%Z, s)
  end.

(** The longest prefix that is an unsigned decimal literal (digits, fraction,
    exponent), with what follows it.  The literal [Infinity] is not
    modelled and reads as [NaN]: the texts that the agents convert cannot
    hold it, and the commands refuse an infinite number as they refuse
    [NaN]. *)
Definition scan_unsigned (s : text) : option (number * text) :=
  let '(ip, r1) := take_digits s in
  let '(fp, r2) :=
    match r1 with
    | 46%N :: r =>
        let '(fp, r2) := take_digits r in
        match ip, fp with
        | [], [] => ([], r1)
        | _, _ => (fp, r2)
        end
    | _ => ([], r1)
    end in
  match ip ++ fp with
  | [] => None
  | ds =>
      let '(e, r3) := scan_exponent r2 in
      let m := digits_value ds in
      let e' := (e - Z.of_nat (length fp))%Z in
      Some (if (0 <=? e')%Z then Num (m * 10 ^ e')%Z 0 else normalize m (Z.to_nat (- e')), r3)
  end.

Definition scan_signed (s : text) : option (number * text) :=
  match s with
  | 45%N :: r =>
      match scan_unsigned r with
      | Some (Num m sc, rest) => Some (Num (- m) sc, rest)
      | o => o
      end
  | 43%N :: r => scan_unsigned r
  | _ => scan_unsigned s
  end.

(** [parseFloat]: leading white space is skipped, the longest numeric
    prefix is read, anything after it is ignored. *)
Definition parseFloat (s : text) : number :=
  match scan_signed (trim_start s) with
  | Some (n, _) => n
  | None => NaN
  end.

(** [Number(s)]: the whole trimmed text must be a decimal literal; the empty
    text is zero.  Hexadecimal, octal and binary literals and [Infinity],
    which the texts converted by the source never hold, read as [NaN]. *)
Definition Number (s : text) : number :=
  match trim s with
  | [] => Num 0 0
  | s' =>
      match scan_signed s' with
      | Some (n, []) => n
      | _ => NaN
      end
  end.

(** [parseInt] on an optional sign followed by decimal digits (radix
    prefixes are not modelled: the source only passes [\d+] groups). *)
Definition parseInt (s : text) : number :=
  let s' := trim_start s in
  let '(neg, r) :=
    match s' with
    | 45%N :: r => (true, r)
    | 43%N :: r => (false, r)
    | _ => (false, s')
    end in
  match fst (take_digits r) with
  | [] => NaN
  | ds => Num (if neg then - digits_value ds else digits_value ds)%Z 0
  end.

(** *** Writing numbers *)

Fixpoint uint_digits (u : Decimal.uint) : text :=
  match u with
  | Decimal.Nil => []
  | Decimal.D0 u => 48%N :: uint_digits u
  | Decimal.D1 u => 49%N :: uint_digits u
  | Decimal.D2 u => 50%N :: uint_digits u
  | Decimal.D3 u => 51%N :: uint_digits u
  | Decimal.D4 u => 52%N :: uint_digits u
  | Decimal.D5 u => 53%N :: uint_digits u
  | Decimal.D6 u => 54%N :: uint_digits u
  | Decimal.D7 u => 55%N :: uint_digits u
  | Decimal.D8 u => 56%N :: uint_digits u
  | Decimal.D9 u => 57%N :: uint_digits u
  end.

(** The decimal digits of a natural number; [0] has the single digit 0. *)
Definition digits_of (n : N) : text :=
  match n with
  | N0 => [48%N]
  | Npos p => uint_digits (Pos.to_uint p)
  end.

Definition strip_zeros (ds : text) : text :=
  rev (drop_while (fun c => (c =? 48)%N) (rev ds)).

(** [Number::toString] of ECMAScript for a decimal fraction: [ds] are the
    significant digits, [n] the position of the decimal point. *)
Definition render_positive (m : Z) (s : nat) : text :=
  let all := digits_of (Z.to_N m) in
  let ds := strip_zeros all in
  let k := Z.of_nat (length ds) in
  let n := (Z.of_nat (length all) - Z.of_nat s)%Z in
  if ((k <=? n) && (n <=? 21))%Z then
    ds ++ replicate (Z.to_nat (n - k)) 48%N
  else if ((0 <? n) && (n <=? 21))%Z then
    take (Z.to_nat n) ds ++ [46%N] ++ drop (Z.to_nat n) ds
  else if ((-6 <? n) && (n <=? 0))%Z then
    [48%N; 46%N] ++ replicate (Z.to_nat (- n)) 48%N ++ ds
  else
    let e := (n - 1)%Z in
    let sign := if (e <? 0)%Z then 45%N else 43%N in
    let mant :=
      match ds with
      | [d] => [d]
      | d :: ds' => d :: 46%N :: ds'
      | [] => []
      end in
    mant ++ [101%N; sign] ++ digits_of (Z.to_N (Z.abs e)).

Definition to_string (a : number) : text :=
  match a with
  | NaN => txt "NaN"
  | Num m s =>
      if (m =? 0)%Z then txt "0"
      else if (m <? 0)%Z then 45%N :: render_positive (- m) s
      else render_positive m s
  end.

(** *** Doubles *)

(** The double a decimal fraction stands for: the binary64 value nearest to
    [m / 10^s], ties to even, by one correctly rounded division of the two
    integers; a fraction too large is an infinity, one too small a zero. *)
Definition to_double (a : number) : float :=
  match a with
  | NaN => PrimFloat.nan
  | Num Z0 _ => 0%float
  | Num (Zpos p) s =>
      SF2Prim (SFdiv prec emax (S754_finite false p 0)
                     (S754_finite false (Z.to_pos (pow10 s)) 0))
  | Num (Zneg p) s =>
      SF2Prim (SFdiv prec emax (S754_finite true p 0)
                     (S754_finite false (Z.to_pos (pow10 s)) 0))
  end.

(** How many times a positive fraction below one is multiplied by ten
    before it reaches one. *)
Fixpoint tens_to_one (fuel : nat) (num den : Z) (j : Z) : Z :=
  match fuel with
  | O => j
  | S fuel' =>
      if (den <=? num)%Z then j else tens_to_one fuel' (num * 10)%Z den (j + 1)%Z
  end.

(** The decimal with [k] significant digits, or fewer, nearest to the
    positive fraction [num / den] among those the double [x] is the nearest
    double of, if there is one. *)
Definition decimal_of_digits (x : float) (num den : Z) (k : Z) : option number :=
  let n :=
    if (den <=? num)%Z then Z.of_nat (length (digits_of (Z.to_N (num / den))))
    else (1 - tens_to_one 400 num den 0)%Z in
  let p := (k - n)%Z in
  let '(N, D) := if (0 <=? p)%Z then (num * 10 ^ p, den)%Z else (num, den * 10 ^ (- p))%Z in
  let q := (N / D)%Z in
  let r := (N mod D)%Z in
  let decimal (c : Z) : number :=
    if (0 <=? p)%Z then normalize c (Z.to_nat p) else Num (c * 10 ^ (- p))%Z 0 in
  let below := decimal q in
  let above := decimal (q + 1)%Z in
  let fits (d : number) : bool := PrimFloat.eqb (to_double d) x in
  let lower_first :=
    match (2 * r ?= D)%Z with
    | Lt => true
    | Eq => Z.even q
    | Gt => false
    end in
  if (r =? 0)%Z then (if fits below then Some below else None)
  else if fits below && fits above then Some (if lower_first then below else above)
  else if fits below then Some below
  else if fits above then Some above
  else None.

Fixpoint shortest_from (todo : nat) (x : float) (num den : Z) (k : Z) : number :=
  match todo with
  | O => NaN
  | S todo' =>
      match decimal_of_digits x num den k with
      | Some d => d
      | None => shortest_from todo' x num den (k + 1)%Z
      end
  end.

(** The decimal that [Number::toString] writes for a positive finite
    double: the one with the fewest significant digits that the double is
    the nearest double of, and of these the nearest to it. *)
Definition shortest_decimal (x : float) : number :=
  match Prim2SF x with
  | S754_finite _ m e =>
      let '(num, den) :=
        if (0 <=? e)%Z then (Z.pos m * 2 ^ e, 1)%Z else (Z.pos m, 2 ^ (- e))%Z in
      shortest_from 17 (PrimFloat.abs x) num den 1
  | _ => NaN
  end.

(** [String(x)] of a double. *)
Definition double_to_string (x : float) : text :=
  match Prim2SF x with
  | S754_nan => txt "NaN"
  | S754_zero _ => txt "0"
  | S754_infinity false => txt "Infinity"
  | S754_infinity true => txt "-Infinity"
  | S754_finite false _ _ => to_string (shortest_decimal x)
  | S754_finite true _ _ => 45%N :: to_string (shortest_decimal x)
  end.

(** [parseFloat] as the double it returns; a zero written after a minus
    sign is the negative zero. *)
Definition parseFloat_double (s : text) : float :=
  match parseFloat s, trim_start s with
  | Num Z0 _, 45%N :: _ => (-0)%float
  | a, _ => to_double a
  end.

(** ** The coordinate parser (utils/coordinateParser.js) *)

Module CoordinateParser.

Definition pattern1 : regex :=
  rei "(-?\d+\.?\d+)\s*°\s*[NS]?\s*[,;|]\s*(-?\d+\.?\d+)\s*°\s*[EW]?".

Definition pattern2 : regex :=
  re "(-?\d+\.?\d+)\s*[,;|]\s*(-?\d+\.?\d+)(?![°EW])".

Definition pattern3 : regex :=
  rei "(-?\d+\.?\d+)\s*[NS]?\s*[,;|]\s*(-?\d+\.?\d+)\s*[EW]?".

(** The two variables the three loops share: [matches] in push order and
    the set [seen]. *)
Record acc := Acc { matches : list text; seen : gset (list N) }.

(** A group that did not take part reads as [undefined], which [parseFloat]
    turns into [NaN], as it does the empty text. *)
Definition group_text (m : rmatch_result) (n : nat) : text :=
  default [] (group m n).

Definition lat_of (m : rmatch_result) : number := parseFloat (group_text m 1).
Definition lon_of (m : rmatch_result) : number := parseFloat (group_text m 2).

Definition key_of (m : rmatch_result) : text :=
  to_string (lat_of m) ++ txt "," ++ to_string (lon_of m).

Definition in_range (lat lon : number) : bool :=
  num_geb lat (of_Z (-90)) && num_leb lat (of_Z 90)
  && num_geb lon (of_Z (-180)) && num_leb lon (of_Z 180).

(** The body shared by the three [while] loops. *)
Definition visit (m : rmatch_result) (a : acc) : acc :=
  let key := key_of m in
  if in_range (lat_of m) (lon_of m) && negb (bool_decide (key ∈ seen a))
  then Acc (matches a ++ [key]) ({[ key ]} ∪ seen a)
  else a.

Definition none : text := txt "none".

(** [parseCoordinates] *)
Definition parseCoordinates (s : text) : text :=
  match s with
  | [] => none
  | _ :: _ =>
      if includes (toLowerCase s) none then none
      else
        let a1 := each_match pattern1 s visit (Acc [] ∅) in
        let a2 := each_match pattern2 s visit a1 in
        let a3 := each_match pattern3 s visit a2 in
        match matches a3 with
        | [] => none
        | _ :: _ => join (txt " | ") (matches a3)
        end
  end.

End CoordinateParser.

(** ** The isochrone service helpers (services/isochrone.js) *)

Module IsochroneService.

Inductive profile := Cycling | Walking | DrivingTraffic.

Definition has (query : text) (word : string) : bool := includes query (txt word).

(** [detectTravelMode] *)
Definition detectTravelMode (userMessage : text) : profile :=
  let query := toLowerCase userMessage in
  if has query "cycling" || has query "bike" || has query "bicycle" || has query "cycle"
  then Cycling
  else if has query "walking" || has query "walk" || has query "pedestrian"
          || has query "hiking"
  then Walking
  else if has query "traffic" then DrivingTraffic
  else if has query "driving" || has query "drive" || has query "car"
          || has query "vehicle"
  then DrivingTraffic
  else DrivingTraffic.

Definition is_any (s : text) (words : list string) : bool :=
  existsb (fun w => bool_decide (s = txt w)) words.

(** [convertToMeters] *)
Definition convertToMeters (value : number) (unit : text) : number :=
  let unitLower := toLowerCase unit in
  if is_any unitLower ["km"; "kilometer"; "kilometers"]%string
  then num_round (num_mul value (of_Z 1000))
  else if is_any unitLower ["mile"; "miles"]%string
  then num_round (num_mul value (Num 160934 2))
  else if is_any unitLower ["m"; "meter"; "meters"]%string
  then num_round value
  else num_round value.

(** [[...new Set(values)]]: the first occurrence of each value, in order. *)
Fixpoint set_of (seen : list number) (l : list number) : list number :=
  match l with
  | [] => []
  | x :: l' =>
      if existsb (num_eqb x) seen then set_of seen l'
      else x :: set_of (x :: seen) l'
  end.

(** [sort((a, b) => a - b)] *)
Fixpoint insert_sorted (x : number) (l : list number) : list number :=
  match l with
  | [] => [x]
  | y :: l' => if num_leb x y then x :: l else y :: insert_sorted x l'
  end.

Definition sort (l : list number) : list number := foldr insert_sorted [] l.

Definition time_patterns : list regex :=
  [ rei "\b(\d+)\s*(min|minute|minutes)\b";
    rei "\b(\d+)\s*hour\b";
    rei "\b(\d+)\s*hours\b" ].

(** [a || b] on two texts, [undefined] and the empty text being falsy. *)
Definition or_else (a : option text) (b : text) : text :=
  match a with
  | Some (c :: s) => c :: s
  | _ => b
  end.

(** The body of the [while] loop of [extractTimeValues]. *)
Definition visit_time (m : rmatch_result) (times : list number) : list number :=
  let value := parseInt (default [] (group m 1)) in
  let unit := or_else (group m 2) (m_text m) in
  let value := if includes unit (txt "hour") then num_mul value (of_Z 60) else value in
  if num_gtb value (of_Z 0) && num_leb value (of_Z 60)
  then times ++ [value]
  else times.

(** [extractTimeValues] *)
Definition extractTimeValues (query : text) : list number :=
  let times :=
    foldl (fun times pattern => each_match pattern query visit_time times)
          [] time_patterns in
  take 4 (sort (set_of [] times)).

Definition distance_pattern : regex :=
  rei "\b(\d+\.?\d*)\s*(km|mile|miles|meter|meters|m)\b".

Definition visit_distance (m : rmatch_result) (distances : list number) : list number :=
  let value := parseFloat (default [] (group m 1)) in
  let unit := default [] (group m 2) in
  let meters := convertToMeters value unit in
  if num_gtb meters (of_Z 0) && num_leb meters (of_Z 100000)
  then distances ++ [meters]
  else distances.

(** [extractDistanceValues] *)
Definition extractDistanceValues (query : text) : list number :=
  take 4 (sort (set_of [] (each_match distance_pattern query visit_distance []))).

End IsochroneService.


(** ** The query classifier (utils/queryDetector.js) *)

Module QueryDetector.

Inductive intent := Point | Line | Buffer | Polygon | Isochrone | Elevation.

Inductive subtype :=
| Single | Multiple
| RouteSingle | RouteMulti | DirectSingle | DirectMulti.

Record queryType := QueryType { type : intent; subtype_of : subtype }.

(** [patterns.some(pattern => pattern.test(s))] *)
Definition some_test (patterns : list regex) (s : text) : bool :=
  existsb (fun pattern => test pattern s) patterns.

(** [(s.match(/,/g) || []).length] *)
Definition count_commas (s : text) : nat := length (match_all (re ",") s).

Definition and_other : regex := rei "\band\s+(\d+|ten|X)\s+other".

Definition explicitPolygonPatterns : list regex :=
  [ rei "\b(create|make|build|draw)\s+(a\s+)?polygon\s+(from|using|with|connecting|joining)";
    rei "\bpolygon\s+(from|using|with|connecting|joining)\s+.*?(locations?|points?|coordinates?|cities?)";
    rei "\b(polygon|triangle|shape|boundary|outline|area|region)\s+(connecting|joining|linking)\s+";
    rei "\b(polygon|triangle)\s+(from|connecting|joining)\s+.*?(locations?|points?|cities?)";
    rei "\bcreate\s+(a\s+)?(polygon|triangle|shape|boundary)\s+(from|using|with)" ].

Definition polygonIndicators : list regex :=
  [ rei "\bdraw\s+polygon\b";
    rei "\bcreate\s+polygon\b";
    rei "\bpolygon\s+(around|for|of|covering)\b";
    rei "\b(boundary|boundaries|outline|city\s+limits|district\s+boundary)\s+(of|for)\b";
    rei "\bshow\s+(region|area|district|boundary|city\s+limits)\b";
    rei "\b(polygon|region|boundary)\s+(from|using|with|connecting|joining)\s+.*?(locations?|points?|coordinates?|cities?)";
    rei "\b(polygon|region|boundary)\s+covering\s+(area|region)\s+between\b";
    rei "\bdraw\s+(region|area|boundary|outline)\b";
    rei "\bcreate\s+(region|area|boundary|outline)\b";
    rei "\b(area|region)\s+(between|from|around)\b";
    rei "\b(polygon|triangle|shape)\s+(with|from)\s+.*?(locations?|points?|cities?)";
    rei "\b(make|build|draw)\s+(a\s+)?(polygon|triangle|shape)\s+(from|using|with)" ].

Definition elevationIndicators : list regex :=
  [ rei "\belevation\s+profile\b";
    rei "\belevation\s+chart\b";
    rei "\belevation\s+graph\b";
    rei "\bshow\s+elevation\b";
    rei "\bdisplay\s+elevation\b";
    rei "\belevation\s+along\s+(route|line|path)";
    rei "\bheight\s+profile\b";
    rei "\baltitude\s+profile\b";
    rei "\bterrain\s+profile\b" ].

Definition isochroneIndicators : list regex :=
  [ rei "\bisochrone\b";
    rei "\breachable\s+(area|zone|region)";
    rei "\btravel\s+time\s+(area|zone|region)";
    rei "\b\d+\s*(min|minute|minutes|hour|hours)\s+(drive|driving|walk|walking|bike|cycling|cycle|radius|zone|area)";
    rei "\b\d+\s*(km|mile|miles|meter|meters|m)\s+(drive|driving|walk|walking|bike|cycling|cycle|radius|zone|area|travel\s+time)";
    rei "\b(area|zone|region)\s+reachable\s+(in|within)\s+\d+";
    rei "\b\d+\s*(min|minute|minutes|hour|hours)\s+(zone|area|region|radius)";
    rei "\b(driving|walking|cycling|bike)\s+zone";
    rei "\bservice\s+area";
    rei "\bdelivery\s+zone";
    rei "\bshow\s+\d+\s*(min|minute|minutes|hour|hours)\s+(drive|walk|bike)" ].

Definition bufferIndicators : list regex :=
  [ rei "\bbuffer\b";
    rei "\bgeofence\b";
    rei "\bgeofencing\b";
    rei "\bperimeter\b";
    rei "\bradius\b";
    rei "\barea\s+within";
    rei "\bwithin\s+\d+\s*(km|mile|m)\s+(of|around|from)";
    rei "\b\d+\s*(km|mile|m)\s+(buffer|radius|area|geofence|perimeter)";
    rei "\badd\s+\d+\s*(km|mile|m)\s+buffer";
    rei "\bcreate\s+(a\s+)?\d+\s*(km|mile|m)\s+(geofence|buffer|radius)";
    rei "\bshow\s+(a\s+)?\d+\s*(km|mile|m)\s+(perimeter|radius|area)" ].

Definition strongLineIndicators : list regex :=
  [ rei "\broute\s+from\s+\w+.*\s+to\s+\w+";
    rei "\broute\s+to\s+\w+.*\s+from\s+\w+";
    rei "\bdirections?\s+(from|to|between)";
    rei "\b(from|between)\s+\w+.*\s+(to|and)\s+\w+";
    rei "\bconnect\s+\w+.*\s+with\s+(a\s+)?line";
    rei "\bpath\s+(through|via|from)";
    rei "\bchain\s+of";
    rei "\bsequence\s+of";
    rei "\bwaypoints?\s*:";
    rei "\bthrough\s+\w+.*,\s*\w+";
    rei "\bvia\s+\w+.*,\s*\w+" ].

Definition locationOnlyPatterns : list regex :=
  [ rei "^where is";
    rei "^show me\s+(?!route|directions|path|way)";
    rei "^find\s+(?!route|directions|path)";
    rei "^locate";
    rei "what is the location of";
    rei "coordinates? of";
    rei "location of";
    rei "position of" ].

Definition moderateLineIndicators : list regex :=
  [ rei "\bdistance\s+(between|from)";
    rei "\bconnect\s+\w+";
    rei "\bthrough\s+\w+";
    rei "\bvia\s+\w+" ].

Definition pointIndicators : list regex :=
  [ rei "\bwhere\s+is\b";
    rei "\bshow\s+me\b";
    rei "\bfind\b";
    rei "\blocate\b";
    rei "\bcoordinates?\s+of\b";
    rei "\blocation\s+of\b";
    rei "\bposition\s+of\b";
    rei "\bwhat\s+is\s+the\s+location";
    rei "\btop\s+\d+\s+places";
    rei "\bmultiple\s+locations";
    rei "\blist\s+of\s+locations" ].

(** [x && x.length > 1] for the result of a global [match]. *)
Definition more_than_one (l : list rmatch_result) : bool := bool_decide (1 < length l).

Definition line_subtype (isRoute isMultiple : bool) : subtype :=
  if isRoute then (if isMultiple then RouteMulti else RouteSingle)
  else (if isMultiple then DirectMulti else DirectSingle).

Definition single_or_multiple (multiple : bool) : subtype :=
  if multiple then Multiple else Single.

(** [detectQueryType]: the rules are tried in the order of the source and
    the first that applies returns. *)
Definition detectQueryType (userMessage aiMessage : text) : queryType :=
  let query := toLowerCase userMessage in
  let ai := toLowerCase aiMessage in
  let commaCount := count_commas query in
  let locationCount := commaCount + 1 in
  let hasAndOther := test and_other query in
  let hasExplicitPolygon := some_test explicitPolygonPatterns query in
  let aiHasPolygon :=
    test (rei "\b(polygon|triangle|shape|boundary|outline|area|region)\s+(from|using|connecting|joining)") ai in
  let aiHasCoordinatesForPolygon :=
    test (rei "\b(polygon|triangle|shape|boundary)\b") ai
    && test (rei "coordinates?|points?|locations?") ai in
  if hasExplicitPolygon
     || (aiHasPolygon && bool_decide (3 <= locationCount))
     || (aiHasCoordinatesForPolygon && bool_decide (3 <= locationCount))
  then
    let hasMultiple :=
      bool_decide (2 <= commaCount) || hasAndOther || test (rei "\band\b") query in
    QueryType Polygon (single_or_multiple hasMultiple)
  else if some_test polygonIndicators query then
    let hasMultiple :=
      bool_decide (1 <= commaCount) || hasAndOther || test (rei "\band\b") query in
    QueryType Polygon (single_or_multiple hasMultiple)
  else if some_test elevationIndicators query then
    QueryType Elevation Single
  else if some_test isochroneIndicators query then
    let timeMatches := match_all (rei "\b(\d+)\s*(min|minute|minutes|hour|hours)\b") query in
    let distanceMatches := match_all (rei "\b(\d+)\s*(km|mile|miles|meter|meters|m)\b") query in
    let hasMultipleContours :=
      more_than_one timeMatches || more_than_one distanceMatches
      || test (rei "\b(and|,)\s+\d+\s*(min|km|mile)") query in
    QueryType Isochrone (single_or_multiple hasMultipleContours)
  else if some_test bufferIndicators query then
    let commaCount := count_commas query in
    let locationCount := commaCount + 1 in
    let hasAndOther := test and_other query in
    let hasAnd :=
      test (rei "\band\b") query && negb (test (rei "\band\s+(the|a|an|this|that)") query) in
    let hasMultipleLocations :=
      bool_decide (2 <= locationCount) || hasAndOther || hasAnd in
    QueryType Buffer (single_or_multiple hasMultipleLocations)
  else
  let hasRouteWord := test (rei "\broute\b") query in
  let hasStrongLine := some_test strongLineIndicators query in
  if hasRouteWord || hasStrongLine then
    let isRoute :=
      hasRouteWord
      || test (rei "\b(directions?|driving|walking|cycling|how\s+to\s+get)\b") query in
    let isMultiple :=
      bool_decide (3 <= locationCount) || hasAndOther
      || test (rei "\b(through|via|connecting|chain|sequence)\b") query in
    QueryType Line (line_subtype isRoute isMultiple)
  else
  let isLocationQuery := some_test locationOnlyPatterns userMessage in
  if isLocationQuery then
    let isMultiple :=
      some_test pointIndicators query
      && (bool_decide (2 <= locationCount) || hasAndOther
          || includes query (txt "top") || includes query (txt "list")) in
    QueryType Point (single_or_multiple isMultiple)
  else
  let hasModerateLine := some_test moderateLineIndicators query in
  let aiShape := test (rei "\b(polygon|triangle|shape|boundary)\b") ai in
  if hasModerateLine && bool_decide (2 <= locationCount) then
    let hasPolygonHint :=
      test (rei "\b(polygon|triangle|shape|boundary|area|region)\b") query || aiShape in
    if hasPolygonHint && bool_decide (3 <= locationCount) then
      QueryType Polygon Single
    else
      let isRoute := test (rei "\b(distance\s+between|route|directions?)\b") query in
      QueryType Line (line_subtype isRoute (bool_decide (2 < locationCount)))
  else if some_test pointIndicators query then
    let isMultiple :=
      bool_decide (2 <= locationCount) || hasAndOther
      || includes query (txt "top") || includes query (txt "list") in
    QueryType Point (single_or_multiple isMultiple)
  else if bool_decide (3 <= locationCount) then
    let hasPolygonHint :=
      test (rei "\b(polygon|triangle|shape|boundary|area|region|connecting|joining)\b") query
      || aiShape in
    let hasLineHint :=
      test (rei "\b(route|connect|path|chain|sequence|directions?|from.*to)\b") query in
    if hasPolygonHint && negb hasLineHint then QueryType Polygon Single
    else if hasLineHint then
      let isRoute := test (rei "\b(route|directions?|driving|walking|cycling)\b") query in
      QueryType Line (if isRoute then RouteMulti else DirectMulti)
    else QueryType Line DirectMulti
  else if bool_decide (2 <= locationCount) then
    let hasPolygonHint :=
      test (rei "\b(polygon|triangle|shape|boundary|connecting|joining)\b") query || aiShape in
    let hasLineHint :=
      test (rei "\b(route|connect|path|between|from.*to|directions?)\b") query in
    if hasPolygonHint && negb hasLineHint then QueryType Polygon Single
    else
      let isRoute := test (rei "\b(route|directions?|driving|walking|cycling)\b") query in
      QueryType Line (if isRoute then RouteSingle else DirectSingle)
  else QueryType Point Single.

End QueryDetector.


(** ** Effects of the agents *)

Module Effects.

Import QueryDetector.

(** A thrown value: an [Error] object with its message. *)
Record error := Error { message : text }.

Inductive result (A : Type) : Type :=
| Ok (a : A)
| Thrown (e : error).
Arguments Ok {A} a.
Arguments Thrown {A} e.

(** The prompt templates of the agents, each with the values it
    interpolates (the fixed wording is left out). *)
Inductive prompt : Type :=
| PointPlan (userMessage : text)
| PointExtract (userMessage aiMessage : text)
| PointReflect (extractResponse : text) (isSingleLocation : bool) (userMessage : text)
| PointRefine (isSingleLocation : bool) (extractResponse userMessage : text)
| LinePlan (userMessage : text) (hasChainKeywords hasAndOther : bool) (locationCount : nat)
| LineExtract (isTwoPoints : bool) (userMessage aiMessage : text)
| LineReflect (extractResponse : text) (coordCount : nat) (isTwoPoints : bool)
              (userMessage : text)
| LineRefine (actualQueryType : bool) (extractResponse : text)
| PolygonPlan (userMessage : text)
| PolygonExtract (isMultiplePolygons : bool) (userMessage aiMessage : text)
| PolygonReflect (extractResponse : text) (coordCount : nat) (userMessage : text)
| PolygonRefine (isMultiplePolygons : bool) (extractResponse : text)
| BufferCenter (isMultiple : bool) (userMessage aiMessage : text)
| BufferRadius (userMessage : text)
| IsochronePlan (userMessage : text)
| IsochroneLocation (userMessage aiMessage : text).

Inductive role := User | Assistant.

Inductive content : Type :=
| Prompt (p : prompt)
| Reply (s : text).

(** One turn [{role, content}] of a conversation. *)
Record turn := Turn { role_of : role; content_of : content }.

Definition user (p : prompt) : turn := Turn User (Prompt p).
Definition assistant (s : text) : turn := Turn Assistant (Reply s).

(** A refinement request is a conversation that ends with a refine
    template. *)
Definition is_refine (p : prompt) : bool :=
  match p with
  | PointRefine _ _ _ | LineRefine _ _ | PolygonRefine _ _ => true
  | _ => false
  end.

Definition is_refinement_request (messages : list turn) : bool :=
  match last messages with
  | Some (Turn User (Prompt p)) => is_refine p
  | _ => false
  end.

(** Values held by a selected feature. *)
#[local] Unset Elimination Schemes.
Inductive jsval : Type :=
| JUndefined
| JNumber (n : number)
| JArray (l : list jsval)
| JObject (lng lon lat : jsval).
#[local] Set Elimination Schemes.

Inductive featureType := FMarker | FLine | FBuffer | FPolygon | FIsochrone.

Record feature := Feature { f_type : featureType; f_coordinates : jsval }.

(** Template interpolation of a value. *)
Fixpoint js_to_string (v : jsval) : text :=
  match v with
  | JUndefined => txt "undefined"
  | JNumber n => to_string n
  | JArray l =>
      join (txt ",")
        ((fix each (l : list jsval) : list text :=
            match l with
            | [] => []
            | JUndefined :: l' => [] :: each l'
            | v :: l' => js_to_string v :: each l'
            end) l)
  | JObject _ _ _ => txt "[object Object]"
  end.

Definition truthy (v : jsval) : bool :=
  match v with
  | JUndefined => false
  | JNumber NaN => false
  | JNumber (Num m _) => negb (m =? 0)%Z
  | JArray _ | JObject _ _ _ => true
  end.

(** [a || b] *)
Definition js_or (a b : jsval) : jsval := if truthy a then a else b.

(** [v[i]]; a feature object has no indexed properties. *)
Definition js_index (v : jsval) (i : nat) : jsval :=
  match v with
  | JArray l => default JUndefined (l !! i)
  | _ => JUndefined
  end.

(** [v.length], [None] for [undefined]. *)
Definition js_length (v : jsval) : option nat :=
  match v with
  | JArray l => Some (length l)
  | _ => None
  end.

Definition is_array (v : jsval) : bool :=
  match v with JArray _ => true | _ => false end.

Definition is_undefined (v : jsval) : bool :=
  match v with JUndefined => true | _ => false end.

End Effects.

(** ** The circle generator (utils/bufferGenerator.js) and the agents *)

Module Agents.

Import CoordinateParser IsochroneService QueryDetector Effects.

(** The arithmetic of the circle generator: [T] stands for the numbers it
    computes with, [inj] embeds the numbers read from text. *)
Record arithmetic (T : Type) := Arithmetic {
  inj : number -> T;
  of_nat : nat -> T;
  add : T -> T -> T;
  mul : T -> T -> T;
  div : T -> T -> T;
  Math_sin : T -> T;
  Math_cos : T -> T;
  Math_PI : T
}.
Arguments inj {T}.
Arguments of_nat {T}.
Arguments add {T}.
Arguments mul {T}.
Arguments div {T}.
Arguments Math_sin {T}.
Arguments Math_cos {T}.
Arguments Math_PI {T}.

Section WithCollaborators.

Context {T : Type} (J : arithmetic T).

Definition point : Type := T * T.

(** The point sampled at step [i] of [numPoints], in [lon, lat] order. *)
Definition circle_point (lat lon latOffset lonOffset : T) (numPoints i : nat) : point :=
  let angle :=
    mul J (mul J (div J (of_nat J i) (of_nat J numPoints)) (of_nat J 2)) (Math_PI J) in
  let pointLat := add J lat (mul J latOffset (Math_sin J angle)) in
  let pointLon := add J lon (mul J lonOffset (Math_cos J angle)) in
  (pointLon, pointLat).

(** The loop [for (let i = 0; i <= numPoints; i++)], with [todo] iterations
    left before [i] exceeds [numPoints]. *)
Fixpoint circle_loop (lat lon latOffset lonOffset : T) (numPoints : nat)
    (todo i : nat) (points : list point) : list point :=
  match todo with
  | O => points
  | S todo' =>
      circle_loop lat lon latOffset lonOffset numPoints todo' (S i)
                  (points ++ [circle_point lat lon latOffset lonOffset numPoints i])
  end.

Definition latOffset_of (radiusKm : number) : T :=
  div J (inj J radiusKm) (of_nat J 111).

Definition lonOffset_of (lat radiusKm : number) : T :=
  div J (inj J radiusKm)
      (mul J (of_nat J 111)
           (Math_cos J (div J (mul J (inj J lat) (Math_PI J)) (of_nat J 180)))).

(** [generateCircle(center, radiusKm, numPoints = 64)] *)
Definition generateCircle (center : number * number) (radiusKm : number)
    (numPoints : nat) : list point :=
  let '(lat, lon) := center in
  circle_loop (inj J lat) (inj J lon) (latOffset_of radiusKm) (lonOffset_of lat radiusKm)
              numPoints (S numPoints) 0 [].

Definition default_numPoints : nat := 64.

(** A generated buffer: [center] in [lon, lat] order. *)
Record buffer := BufferData {
  b_center : number * number;
  b_radius : number;
  b_polygon : list point
}.

(** What the agents ask of the map. *)
Inductive map_request : Type :=
| ClearOverlays
| AddBufferSource (index : option nat) (ring : list point) (radius : number)
| DecorateBuffer (index : option nat)
| FitBufferBounds
| ShowPoints (coordinates : text)
| ShowLine (coordinates : text)
| ShowRoute (coordinates : list (number * number))
| ShowPolygons (polygons : list (list (number * number)))
| ShowElevation (coordinates : jsval).

Inductive transport := TCycling | TWalking | TDriving.

(** The collaborators, over a world [W] they read and change.  A call that
    can fail by throwing returns a [result]; the routing and isochrone
    clients catch their own failures and return nothing instead. *)
Context {W RouteData IsochroneData : Type}.

Record collaborators := Collaborators {
  completion : list turn -> W -> result text * W;
  map_call : map_request -> W -> result unit * W;
  selected_feature : W -> option feature;
  directions : list (number * number) -> transport -> W -> option RouteData * W;
  isochrone_api : number * number -> profile -> option (list number) ->
                  option (list number) -> W -> option IsochroneData * W;
  user_location : W -> option (number * number);
  map_center : W -> number * number;
  load_parser : W -> result unit * W
}.

Context (env : collaborators).

(** What an agent run leaves behind: the requests it made, in order. *)
Inductive event : Type :=
| Completion (messages : list turn) (answer : result text)
| MapCall (request : map_request)
| DirectionsCall (coordinates : list (number * number))
| IsochroneCall (contoursMinutes contoursMeters : option (list number)).

Definition state : Type := W * list event.

(** Computations that read and change the world, log their requests, and
    return or throw. *)
Definition M (A : Type) : Type := state -> result A * state.

Definition ret {A} (a : A) : M A := fun s => (Ok a, s).

Definition bind {A B} (m : M A) (f : A -> M B) : M B :=
  fun s =>
    match m s with
    | (Ok a, s') => f a s'
    | (Thrown e, s') => (Thrown e, s')
    end.

Definition throw {A} (msg : text) : M A := fun s => (Thrown (Error msg), s).

(** [try { body } catch (error) { handler }] *)
Definition try_catch {A} (body : M A) (handler : error -> M A) : M A :=
  fun s =>
    match body s with
    | (Ok a, s') => (Ok a, s')
    | (Thrown e, s') => handler e s'
    end.

Definition log (e : event) : M unit := fun '(w, t) => (Ok tt, (w, t ++ [e])).

(** [callPerplexity(promptOrMessages)]: a single prompt is sent as a
    one-message conversation. *)
Definition callPerplexity (promptOrMessages : prompt + list turn) : M text :=
  let messages :=
    match promptOrMessages with
    | inl p => [user p]
    | inr messages => messages
    end in
  fun '(w, t) =>
    let '(answer, w') := completion env messages w in
    (answer, (w', t ++ [Completion messages answer])).

Definition on_map (request : map_request) : M unit :=
  fun '(w, t) =>
    let '(r, w') := map_call env request w in
    (r, (w', t ++ [MapCall request])).

Definition getSelectedFeature : M (option feature) :=
  fun '(w, t) => (Ok (selected_feature env w), (w, t)).

Definition callMapboxDirections (coordinates : list (number * number))
    (mode : transport) : M (option RouteData) :=
  fun '(w, t) =>
    let '(r, w') := directions env coordinates mode w in
    (Ok r, (w', t ++ [DirectionsCall coordinates])).

(** [callMapboxIsochrone] catches what it throws and then returns [null]:
    with no contour list at all, and with both (it then assigns to a
    constant). *)
Definition callMapboxIsochrone (center : number * number) (mode : profile)
    (contoursMinutes contoursMeters : option (list number)) : M (option IsochroneData) :=
  fun '(w, t) =>
    match contoursMinutes, contoursMeters with
    | None, None => (Ok None, (w, t))
    | Some _, Some _ => (Ok None, (w, t))
    | _, _ =>
        let '(r, w') := isochrone_api env center mode contoursMinutes contoursMeters w in
        (Ok r, (w', t ++ [IsochroneCall contoursMinutes contoursMeters]))
    end.

Definition here : M (number * number) :=
  fun '(w, t) =>
    (Ok (match user_location env w with
         | Some lngLat => lngLat
         | None => map_center env w
         end), (w, t)).

Notation "'do' x <- m ; k" := (bind m (fun x => k))
  (at level 10, x pattern, m at level 100, k at level 200,
   format "'[v' 'do'  x  <-  m ; '/' k ']'").

(** What an agent returns to its caller. *)
Inductive agent_value : Type :=
| Undefined
| PolygonSuccess (polygons : list (list (number * number) * text))
| IsochroneSuccess (coordinates : number * number) (isochroneData : IsochroneData)
                   (travelMode : profile) (useTime : bool) (values : list number)
| ElevationSuccess
| FailureError (error : text)
| FailureMessage (message : text).

(** The pattern of one [lat,lon] pair that the REFLECT steps count. *)
Definition coord_pair : regex := re "(-?\d+\.?\d*),\s*(-?\d+\.?\d*)".

Definition count_pairs (s : text) : nat := length (match_all coord_pair s).

(** [s.split(' | ').length] *)
Definition count_split (s : text) : nat := length (split s (txt " | ")).

Definition is_none (s : text) : bool := bool_decide (s = none).

(** [const [lat, lon] = pair.split(',').map(Number)]; a missing component
    reads as [undefined], which every later test treats like [NaN]. *)
Definition lat_lon (pair : text) : number * number :=
  let parts := Number <$> split pair (txt ",") in
  (default NaN (parts !! 0), default NaN (parts !! 1)).

(** *** The point agent (agents/pointAgent.js) *)

(** PLAN, EXTRACT, REFLECT and REFINE: the text handed to VALIDATE. *)
Definition point_steps (userMessage aiMessage : text) (queryType : option queryType)
    : M text :=
  do (isSingleLocation, conversationHistory) <-
    match queryType with
    | Some qt =>
        ret (match subtype_of qt with Single => true | _ => false end, [])
    | None =>
        let planPrompt := PointPlan userMessage in
        do planResponse <- callPerplexity (inl planPrompt);
        ret (includes (toLowerCase planResponse) (txt "single"),
             [user planPrompt; assistant planResponse])
    end;
  let extractPrompt := PointExtract userMessage aiMessage in
  do extractResponse <- callPerplexity (inl extractPrompt);
  let conversationHistory :=
    conversationHistory ++ [user extractPrompt; assistant extractResponse] in
  let coordCount := count_pairs extractResponse in
  let needsRefinement :=
    if isSingleLocation && bool_decide (1 < coordCount) then true
    else if bool_decide (coordCount = 0) then true
    else if negb isSingleLocation && bool_decide (coordCount = 1)
            && includes (toLowerCase userMessage) (txt "multiple") then true
    else false in
  do needsRefinement <-
    (if negb needsRefinement then
       let reflectPrompt := PointReflect extractResponse isSingleLocation userMessage in
       do reflectResponse <-
         callPerplexity (inr (conversationHistory ++ [user reflectPrompt]));
       ret (includes (toLowerCase reflectResponse) (txt "refine"))
     else ret needsRefinement);
  if needsRefinement then
    let refinePrompt := PointRefine isSingleLocation extractResponse userMessage in
    callPerplexity (inr (conversationHistory ++ [user refinePrompt]))
  else ret extractResponse.

(** VALIDATE *)
Definition point_validate (finalCoordinates : text) : M agent_value :=
  let parsedCoordinates := parseCoordinates finalCoordinates in
  do _ <- (if negb (is_none parsedCoordinates)
           then on_map (ShowPoints parsedCoordinates) else ret tt);
  ret Undefined.

Definition extractCoordinates_body (userMessage aiMessage : text)
    (queryType : option queryType) : M agent_value :=
  do finalCoordinates <- point_steps userMessage aiMessage queryType;
  point_validate finalCoordinates.

(** [extractCoordinates]: the [catch] logs the error and returns nothing. *)
Definition extractCoordinates (userMessage aiMessage : text)
    (queryType : option queryType) : M agent_value :=
  try_catch (extractCoordinates_body userMessage aiMessage queryType)
            (fun error => ret Undefined).

(** *** The routing helpers (services/directions.js) *)

(** [convertCoordinatesForDirections]: pairs in [lng, lat] order. *)
Definition convertCoordinatesForDirections (coordinatesString : text)
    : list (number * number) :=
  let coordPairs := trim <$> split coordinatesString (txt " | ") in
  foldl (fun coordinates coordPair =>
           let '(lat, lon) := lat_lon coordPair in
           if negb (isNaN lat) && negb (isNaN lon)
           then coordinates ++ [(lon, lat)] else coordinates)
        [] coordPairs.

(** [detectTransportMode] *)
Definition detectTransportMode (userMessage : text) : transport :=
  let query := toLowerCase userMessage in
  if has query "cycling" || has query "bike" || has query "bicycle" || has query "cycle"
  then TCycling
  else if has query "walking" || has query "walk" || has query "pedestrian"
          || has query "hiking"
  then TWalking
  else if has query "driving" || has query "drive" || has query "car"
          || has query "vehicle" || has query "traffic"
  then TDriving
  else TDriving.

(** [needsRouting] *)
Definition needsRouting (userMessage : text) : bool :=
  let query := toLowerCase userMessage in
  existsb (has query)
    ["route"; "directions"; "driving"; "walking"; "cycling"; "bike"; "car"; "walk";
     "how to get"; "how do i get"; "distance between"; "from to"]%string.

(** *** The line agent (agents/lineAgent.js) *)

Definition chainKeywords : list string :=
  ["through"; "via"; "path"; "chain"; "sequence"; "waypoints"; "waypoint"]%string.

Definition line_steps (userMessage aiMessage : text) (queryType : option queryType)
    : M text :=
  let commaCount := count_commas userMessage in
  let locationCount := commaCount + 1 in
  let hasChainKeywords := existsb (has (toLowerCase userMessage)) chainKeywords in
  let hasAndOther := test and_other userMessage in
  do (isTwoPoints, conversationHistory) <-
    match queryType with
    | Some qt =>
        ret (match subtype_of qt with RouteSingle | DirectSingle => true | _ => false end,
             [])
    | None =>
        let planPrompt := LinePlan userMessage hasChainKeywords hasAndOther locationCount in
        do planResponse <- callPerplexity (inl planPrompt);
        ret (includes (toLowerCase planResponse) (txt "two"),
             [user planPrompt; assistant planResponse])
    end;
  let forced := hasChainKeywords || hasAndOther || bool_decide (3 <= locationCount) in
  let isTwoPoints := if forced then false else isTwoPoints in
  let initialCoords := parseCoordinates aiMessage in
  let extractPrompt := LineExtract isTwoPoints userMessage aiMessage in
  let ask :=
    do extractResponse <- callPerplexity (inl extractPrompt);
    ret (extractResponse,
         conversationHistory ++ [user extractPrompt; assistant extractResponse]) in
  do (extractResponse, conversationHistory) <-
    (if negb (is_none initialCoords) then
       let coordCount := count_split initialCoords in
       let matchesExpected :=
         (isTwoPoints && bool_decide (coordCount = 2))
         || (negb isTwoPoints && bool_decide (2 <= coordCount)) in
       if matchesExpected then ret (initialCoords, conversationHistory) else ask
     else ask);
  let coordCount := count_pairs extractResponse in
  let '(needsRefinement, shouldBeMultiple, isTwoPoints) :=
    if isTwoPoints && bool_decide (2 < coordCount) then
      if forced then (true, true, false) else (true, false, isTwoPoints)
    else if bool_decide (coordCount < 2) then (true, false, isTwoPoints)
    else if bool_decide (2 <= coordCount) && negb (includes extractResponse (txt "|"))
            && bool_decide (1 < coordCount)
    then (true, false, isTwoPoints)
    else (false, false, isTwoPoints) in
  let extractionMatchesExpected :=
    (isTwoPoints && bool_decide (coordCount = 2))
    || (negb isTwoPoints && bool_decide (2 <= coordCount)) in
  do needsRefinement <-
    (if negb needsRefinement && negb shouldBeMultiple && extractionMatchesExpected
     then ret needsRefinement
     else if negb needsRefinement && negb shouldBeMultiple then
       let reflectPrompt := LineReflect extractResponse coordCount isTwoPoints userMessage in
       do reflectResponse <-
         callPerplexity (inr (conversationHistory ++ [user reflectPrompt]));
       ret (includes (toLowerCase reflectResponse) (txt "refine"))
     else ret needsRefinement);
  if needsRefinement then
    let actualQueryType := if shouldBeMultiple then false else isTwoPoints in
    let refinePrompt := LineRefine actualQueryType extractResponse in
    callPerplexity (inr (conversationHistory ++ [user refinePrompt]))
  else ret extractResponse.

Definition line_validate (userMessage : text) (queryType : option queryType)
    (finalCoordinates : text) : M agent_value :=
  let parsedCoordinates := parseCoordinates finalCoordinates in
  let needsRoute :=
    match queryType with
    | Some qt => match subtype_of qt with RouteSingle | RouteMulti => true | _ => false end
    | None => needsRouting userMessage
    end in
  let transportMode := detectTransportMode userMessage in
  if negb (is_none parsedCoordinates) then
    if bool_decide (count_split parsedCoordinates = 1) then
      do _ <- on_map (ShowPoints parsedCoordinates);
      ret Undefined
    else if needsRoute then
      let coordinates := convertCoordinatesForDirections parsedCoordinates in
      if bool_decide (2 <= length coordinates) then
        do routeData <- callMapboxDirections coordinates transportMode;
        match routeData with
        | Some _ => do _ <- on_map (ShowRoute coordinates); ret Undefined
        | None => do _ <- on_map (ShowLine parsedCoordinates); ret Undefined
        end
      else do _ <- on_map (ShowLine parsedCoordinates); ret Undefined
    else do _ <- on_map (ShowLine parsedCoordinates); ret Undefined
  else ret Undefined.

Definition extractLineCoordinates_body (userMessage aiMessage : text)
    (queryType : option queryType) : M agent_value :=
  do finalCoordinates <- line_steps userMessage aiMessage queryType;
  line_validate userMessage queryType finalCoordinates.

(** [extractLineCoordinates]: the [catch] logs the error and returns
    nothing. *)
Definition extractLineCoordinates (userMessage aiMessage : text)
    (queryType : option queryType) : M agent_value :=
  try_catch (extractLineCoordinates_body userMessage aiMessage queryType)
            (fun error => ret Undefined).

(** *** The polygon agent (agents/polygonAgent.js) *)

Definition polygon_steps (userMessage aiMessage : text) (queryType : option queryType)
    : M (bool * text) :=
  let commaCount := count_commas userMessage in
  let locationCount := commaCount + 1 in
  let hasMultiple := bool_decide (2 <= locationCount) || test (rei "\band\b") userMessage in
  do (isMultiplePolygons, conversationHistory) <-
    match queryType with
    | Some qt =>
        ret (match subtype_of qt with Multiple => true | _ => false end, [])
    | None =>
        let planPrompt := PolygonPlan userMessage in
        do planResponse <- callPerplexity (inl planPrompt);
        ret (includes (toLowerCase planResponse) (txt "multiple") || hasMultiple,
             [user planPrompt; assistant planResponse])
    end;
  let initialCoords := parseCoordinates aiMessage in
  let extractPrompt := PolygonExtract isMultiplePolygons userMessage aiMessage in
  let ask :=
    do extractResponse <- callPerplexity (inl extractPrompt);
    ret (extractResponse,
         conversationHistory ++ [user extractPrompt; assistant extractResponse]) in
  do (extractResponse, conversationHistory) <-
    (if negb (is_none initialCoords) then
       if bool_decide (3 <= count_split initialCoords)
       then ret (initialCoords, conversationHistory) else ask
     else ask);
  let coordCount := count_pairs extractResponse in
  let needsRefinement :=
    if bool_decide (coordCount < 3) then true
    else if negb (includes extractResponse (txt "|")) && bool_decide (1 < coordCount)
    then true
    else false in
  do needsRefinement <-
    (if negb needsRefinement && bool_decide (3 <= coordCount) then ret needsRefinement
     else if needsRefinement then
       let reflectPrompt := PolygonReflect extractResponse coordCount userMessage in
       do reflectResponse <-
         callPerplexity (inr (conversationHistory ++ [user reflectPrompt]));
       ret (includes (toLowerCase reflectResponse) (txt "refine"))
     else ret needsRefinement);
  do finalCoordinates <-
    (if needsRefinement then
       let refinePrompt := PolygonRefine isMultiplePolygons extractResponse in
       callPerplexity (inr (conversationHistory ++ [user refinePrompt]))
     else ret extractResponse);
  ret (isMultiplePolygons, finalCoordinates).

(** The ring of one parsed polygon text, in [lng, lat] order, closed by
    repeating its first vertex when the last one differs; [None] when the
    text holds no coordinates or fewer than three. *)
Definition ring_of (polyStr : text) : option (list (number * number)) :=
  let parsedCoords := parseCoordinates polyStr in
  if is_none parsedCoords then None
  else
    let coords :=
      (fun coord => let '(lat, lon) := lat_lon (trim coord) in (lon, lat))
        <$> split parsedCoords (txt " | ") in
    if bool_decide (3 <= length coords) then
      match head coords, last coords with
      | Some first, Some final =>
          if negb (num_eqb (fst first) (fst final))
             || negb (num_eqb (snd first) (snd final))
          then Some (coords ++ [first])
          else Some coords
      | _, _ => Some coords
      end
    else None.

Definition polygon_name (index : nat) : text :=
  txt "Polygon " ++ digits_of (N.of_nat (index + 1)).

Definition polygon_validate (isMultiplePolygons : bool) (finalCoordinates : text)
    : M agent_value :=
  let polygons :=
    if isMultiplePolygons && includes finalCoordinates (txt "||") then
      let polygonStrings := trim <$> split finalCoordinates (txt "||") in
      omap (fun p => p)
        (imap (fun index polyStr =>
                 (fun ring => (ring, polygon_name index)) <$> ring_of polyStr)
              polygonStrings)
    else
      match ring_of finalCoordinates with
      | Some ring => [(ring, txt "Polygon")]
      | None => []
      end in
  match polygons with
  | [] => throw (txt "No valid polygons extracted")
  | _ :: _ =>
      do _ <- on_map (ShowPolygons (fst <$> polygons));
      ret (PolygonSuccess polygons)
  end.

Definition extractPolygon_body (userMessage aiMessage : text)
    (queryType : option queryType) : M agent_value :=
  do (isMultiplePolygons, finalCoordinates) <-
    polygon_steps userMessage aiMessage queryType;
  polygon_validate isMultiplePolygons finalCoordinates.

(** [extractPolygon]: the [catch] returns [{success: false, error}]. *)
Definition extractPolygon (userMessage aiMessage : text)
    (queryType : option queryType) : M agent_value :=
  try_catch (extractPolygon_body userMessage aiMessage queryType)
            (fun error => ret (FailureError (message error))).

(** *** The buffer displays (utils/mapDisplay.js) *)

(** [displayBufferOnMap]: the ring handed to the map is the polygon with its
    first point added at the end. *)
Definition displayBufferOnMap (bufferData : buffer) : M unit :=
  do _ <- on_map ClearOverlays;
  match b_polygon bufferData with
  | [] => ret tt
  | first :: _ =>
      let polygonCoords := b_polygon bufferData ++ [first] in
      do _ <- on_map (AddBufferSource None polygonCoords (b_radius bufferData));
      do _ <- on_map (DecorateBuffer None);
      on_map FitBufferBounds
  end.

(** The [forEach] of [displayMultipleBuffersOnMap]. *)
Fixpoint add_buffers (index : nat) (buffersArray : list buffer) : M unit :=
  match buffersArray with
  | [] => ret tt
  | bufferData :: rest =>
      do _ <-
        match b_polygon bufferData with
        | [] => ret tt
        | first :: _ =>
            let polygonCoords := b_polygon bufferData ++ [first] in
            do _ <- on_map (AddBufferSource (Some index) polygonCoords
                                            (b_radius bufferData));
            on_map (DecorateBuffer (Some index))
        end;
      add_buffers (S index) rest
  end.

(** [displayMultipleBuffersOnMap] *)
Definition displayMultipleBuffersOnMap (buffersArray : list buffer) : M unit :=
  do _ <- on_map ClearOverlays;
  match buffersArray with
  | [] => ret tt
  | _ :: _ =>
      do _ <- add_buffers 0 buffersArray;
      on_map FitBufferBounds
  end.

(** *** The buffer agent (agents/bufferAgent.js) *)

(** [`${lat},${lon}`] for the pair [[lon, lat] = v]. *)
Definition lat_comma_lon (v : jsval) : text :=
  js_to_string (js_index v 1) ++ txt "," ++ js_to_string (js_index v 0).

Definition from_pair (v : jsval) : option text :=
  if is_array v && bool_decide (2 <= default 0 (js_length v))
  then Some (lat_comma_lon v) else None.

(** The center of a buffer or isochrone feature: an array [[lon, lat]] or an
    object with [lng] or [lon], and [lat]. *)
Definition from_center (coordinates : jsval) : option text :=
  if truthy coordinates then
    let '(lon, lat) :=
      match coordinates with
      | JArray _ => (js_index coordinates 0, js_index coordinates 1)
      | JObject lng lon lat =>
          (js_or (js_or lng lon) (js_index coordinates 0),
           js_or lat (js_index coordinates 1))
      | _ => (JUndefined, JUndefined)
      end in
    if negb (is_undefined lon) && negb (is_undefined lat)
    then Some (js_to_string lat ++ txt "," ++ js_to_string lon)
    else None
  else None.

Definition has_elements (v : jsval) : bool :=
  truthy v && bool_decide (0 < default 0 (js_length v)).

(** The center text taken from the selected feature, by feature type. *)
Definition center_of_feature (selectedFeature : feature) : option text :=
  let coordinates := f_coordinates selectedFeature in
  match f_type selectedFeature with
  | FMarker =>
      if has_elements coordinates then from_pair (js_index coordinates 0) else None
  | FBuffer => from_center coordinates
  | FIsochrone => from_center coordinates
  | FLine =>
      if has_elements coordinates then
        let midIndex := default 0 (js_length coordinates) / 2 in
        from_pair (js_index coordinates midIndex)
      else None
  | FPolygon =>
      if has_elements coordinates then from_pair (js_index coordinates 0) else None
  end.

(** The artifact filter of the center validation. *)
Definition isInvalid (centerLat centerLon : number) : bool :=
  (num_eqb centerLat (of_Z 0) && num_eqb centerLon (of_Z 0))
  || (num_eqb centerLat (of_Z 1) && num_eqb centerLon (of_Z 0))
  || (num_ltb (num_abs centerLat) (Num 1 1) && num_ltb (num_abs centerLon) (Num 1 1))
  || num_gtb (num_abs centerLat) (of_Z 85).

(** The [forEach] over the center pairs: the centers kept, as [[lat, lon]]. *)
Definition valid_centers (centerPairs : list text) : list (number * number) :=
  foldl (fun centers centerPair =>
           let '(centerLat, centerLon) := lat_lon centerPair in
           if negb (isNaN centerLat) && negb (isNaN centerLon) then
             if negb (isInvalid centerLat centerLon)
             then centers ++ [(centerLat, centerLon)]
             else centers
           else centers)
        [] centerPairs.

(** The test of the clustering, [latDiff < 0.5 && lonDiff < 0.5], as the
    code computes it: the centers are doubles, and each difference is one
    binary64 subtraction. *)
Definition nearby (a b : number * number) : bool :=
  let latDiff := PrimFloat.abs (PrimFloat.sub (to_double (fst a)) (to_double (fst b))) in
  let lonDiff := PrimFloat.abs (PrimFloat.sub (to_double (snd a)) (to_double (snd b))) in
  PrimFloat.ltb latDiff 0x1p-1%float && PrimFloat.ltb lonDiff 0x1p-1%float.

(** The inner [forEach]: the unused centers near [c] join its cluster. *)
Fixpoint absorb (c : number * number) (otherIndex : nat)
    (others : list (number * number))
    (cluster : list (number * number)) (used : gset nat)
    : list (number * number) * gset nat :=
  match others with
  | [] => (cluster, used)
  | other :: rest =>
      if bool_decide (otherIndex ∈ used) then absorb c (S otherIndex) rest cluster used
      else if nearby c other
      then absorb c (S otherIndex) rest (cluster ++ [other]) ({[ otherIndex ]} ∪ used)
      else absorb c (S otherIndex) rest cluster used
  end.

(** The outer [forEach]: every center not yet used starts a cluster, and
    the first point of the cluster stands for it. *)
Fixpoint cluster_loop (centers : list (number * number)) (index : nat)
    (todo : list (number * number))
    (clusters : list (number * number)) (used : gset nat)
    : list (number * number) :=
  match todo with
  | [] => clusters
  | c :: rest =>
      if bool_decide (index ∈ used) then cluster_loop centers (S index) rest clusters used
      else
        let '(cluster, used) := absorb c 0 centers [c] ({[ index ]} ∪ used) in
        cluster_loop centers (S index) rest (clusters ++ [default c (head cluster)]) used
  end.

Definition clusterNearbyCenters (centers : list (number * number))
    : list (number * number) :=
  cluster_loop centers 0 centers [] ∅.

Definition location_pattern : regex :=
  rei "\b(?:on|over|around|for)\s+([^,]+?)(?:,|and|\s*$)".

Definition radiusPattern : regex :=
  rei "(\d+(?:\.\d+)?)\s*(km|kilometer|kilometers|mile|miles|m|meter|meters|mi)\s*(?:on|over|around|for)\s*([^,]+?)(?:,|and|\s*$)".

Definition simpleRadiusPattern : regex :=
  rei "(\d+(?:\.\d+)?)\s*(km|kilometer|kilometers|mile|miles|m|meter|meters|mi)".

(** The radius in kilometers of a value with its unit (5 for a unit that
    is none of the known ones). *)
Definition to_km (value : number) (unit : text) : number :=
  if is_any unit ["km"; "kilometer"; "kilometers"]%string then value
  else if is_any unit ["mile"; "miles"; "mi"]%string then num_mul value (Num 160934 5)
  else if is_any unit ["m"; "meter"; "meters"]%string then num_shift 3 value
  else of_Z 5.

Definition visit_radius (m : rmatch_result) (radiusMatches : list (text * number))
    : list (text * number) :=
  let value := parseFloat (default [] (group m 1)) in
  let unit := toLowerCase (default [] (group m 2)) in
  let location := toLowerCase (trim (default [] (group m 3))) in
  radiusMatches ++ [(location, to_km value unit)].

(** [getRadiusForCenter] *)
Definition getRadiusForCenter (radiusMatches : list (text * number)) (centerIndex : nat)
    : number :=
  match radiusMatches with
  | (_ :: _, _) :: _ =>
      match radiusMatches !! centerIndex with
      | Some (_, radiusKm) => radiusKm
      | None => default (of_Z 5) (snd <$> last radiusMatches)
      end
  | (_, radiusKm) :: _ => radiusKm
  | [] => of_Z 5
  end.

(** STEP 1 up to the parsed center text. *)
Definition buffer_center_text (userMessage aiMessage : text) (isMultiple : bool)
    : M text :=
  do selectedFeature <- getSelectedFeature;
  match selectedFeature ≫= center_of_feature with
  | Some centerCoord => ret centerCoord
  | None =>
      let initialCoords := parseCoordinates aiMessage in
      let ask := callPerplexity (inl (BufferCenter isMultiple userMessage aiMessage)) in
      if negb (is_none initialCoords) then
        let coordCount := count_split initialCoords in
        let matchesExpected :=
          (isMultiple && bool_decide (2 <= coordCount))
          || (negb isMultiple && bool_decide (coordCount = 1)) in
        if matchesExpected then ret initialCoords else ask
      else ask
  end.

(** The centers after validation and, when more were found than the query
    names, clustering. *)
Definition buffer_centers (userMessage : text) (isMultiple : bool)
    (centerCoordinates : text) : list (number * number) :=
  let centerPairs := trim <$> split centerCoordinates (txt " | ") in
  let centers := valid_centers centerPairs in
  let locationCount := length (match_all location_pattern userMessage) in
  let expectedLocations := max 1 locationCount in
  if isMultiple && bool_decide (expectedLocations < length centers)
  then clusterNearbyCenters centers
  else centers.

(** STEP 2: one radius per named location, or one radius for all. *)
Definition buffer_radii (userMessage : text) (centers : list (number * number))
    : M (list (text * number)) :=
  let radiusMatches := each_match radiusPattern userMessage visit_radius [] in
  match radiusMatches with
  | _ :: _ => ret radiusMatches
  | [] =>
      match match_first simpleRadiusPattern userMessage with
      | Some m =>
          let value := parseFloat (default [] (group m 1)) in
          let unit := toLowerCase (default [] (group m 2)) in
          ret ((fun _ => ([], to_km value unit)) <$> centers)
      | None =>
          do extractRadiusResponse <- callPerplexity (inl (BufferRadius userMessage));
          let found :=
            match match_first (re "\d+(?:\.\d+)?") extractRadiusResponse with
            | Some m => or_else (Some (m_text m)) (txt "5")
            | None => txt "5"
            end in
          let radiusKm := parseFloat found in
          ret ((fun _ => ([], radiusKm)) <$> centers)
      end
  end.

Definition extractBuffer_body (userMessage aiMessage : text)
    (queryType : option queryType) : M agent_value :=
  let isMultiple :=
    match queryType with
    | Some qt => match subtype_of qt with Multiple => true | _ => false end
    | None => false
    end in
  do extractCenterResponse <- buffer_center_text userMessage aiMessage isMultiple;
  let centerCoordinates := parseCoordinates extractCenterResponse in
  if is_none centerCoordinates then ret Undefined
  else
    let centers := buffer_centers userMessage isMultiple centerCoordinates in
    match centers with
    | [] => ret Undefined
    | _ :: _ =>
        do radiusMatches <- buffer_radii userMessage centers;
        let buffers :=
          imap (fun index '(centerLat, centerLon) =>
                  let radiusKm := getRadiusForCenter radiusMatches index in
                  let circlePoints :=
                    generateCircle (centerLat, centerLon) radiusKm default_numPoints in
                  BufferData (centerLon, centerLat) radiusKm circlePoints)
               centers in
        do _ <-
          (if isMultiple && bool_decide (1 < length buffers)
           then displayMultipleBuffersOnMap buffers
           else match buffers with
                | first :: _ => displayBufferOnMap first
                | [] => ret tt
                end);
        ret Undefined
    end.

(** [extractBuffer]: the [catch] logs the error and returns nothing. *)
Definition extractBuffer (userMessage aiMessage : text)
    (queryType : option queryType) : M agent_value :=
  try_catch (extractBuffer_body userMessage aiMessage queryType)
            (fun error => ret Undefined).

(** *** The isochrone agent (agents/isochroneAgent.js) *)

(** The first pair of a parsed text, as [[lon, lat]], unless a component is
    not a number. *)
Definition first_coordinate (s : text) : option (number * number) :=
  let parsedCoords := parseCoordinates s in
  if negb (is_none parsedCoords) then
    let firstCoord := trim (default [] (head (split parsedCoords (txt " | ")))) in
    let '(lat, lon) := lat_lon firstCoord in
    if negb (isNaN lat) && negb (isNaN lon) then Some (lon, lat) else None
  else None.

(** STEP 2: the center, from the answer of the collaborator, from the user
    message or from the first answer, in that order. *)
Definition isochrone_center (userMessage aiMessage locationResponse : text)
    : M (number * number) :=
  let locationLower := trim (toLowerCase locationResponse) in
  if bool_decide (locationLower = txt "here")
     || includes locationLower (txt "current location")
  then here
  else
    match first_coordinate locationResponse with
    | Some coordinates => ret coordinates
    | None =>
        match first_coordinate userMessage with
        | Some coordinates => ret coordinates
        | None =>
            match first_coordinate aiMessage with
            | Some coordinates => ret coordinates
            | None => throw (txt "Could not extract location coordinates")
            end
        end
    end.

Definition extractIsochrone_body (userMessage aiMessage : text)
    (queryType : option queryType) : M agent_value :=
  do _ <-
    match queryType with
    | Some _ => ret tt
    | None =>
        do planResponse <- callPerplexity (inl (IsochronePlan userMessage));
        ret tt
    end;
  do locationResponse <- callPerplexity (inl (IsochroneLocation userMessage aiMessage));
  do coordinates <- isochrone_center userMessage aiMessage locationResponse;
  if isNaN (fst coordinates) || isNaN (snd coordinates) then
    throw (txt "Invalid coordinates: " ++ to_string (fst coordinates) ++ txt ","
           ++ to_string (snd coordinates))
  else
    let combinedQuery := toLowerCase (userMessage ++ txt " " ++ aiMessage) in
    let timeValues := extractTimeValues combinedQuery in
    let distanceValues := extractDistanceValues combinedQuery in
    let useTime := bool_decide (0 < length timeValues) in
    let useDistance :=
      bool_decide (0 < length distanceValues) && bool_decide (length timeValues = 0) in
    if negb useTime && negb useDistance then
      throw (txt "Could not extract time or distance values")
    else
      let travelMode := detectTravelMode userMessage in
      do isochroneData <-
        callMapboxIsochrone coordinates travelMode
          (if useTime then Some timeValues else None)
          (if useDistance then Some distanceValues else None);
      match isochroneData with
      | None => throw (txt "Failed to get isochrone data from API")
      | Some data =>
          ret (IsochroneSuccess coordinates data travelMode useTime
                 (if useTime then timeValues else distanceValues))
      end.

(** [extractIsochrone]: the [catch] returns [{success: false, error}]. *)
Definition extractIsochrone (userMessage aiMessage : text)
    (queryType : option queryType) : M agent_value :=
  try_catch (extractIsochrone_body userMessage aiMessage queryType)
            (fun error => ret (FailureError (message error))).

(** *** The elevation agent (agents/elevationAgent.js) *)

(** [extractLineCoordinatesForElevation]: its own [catch] turns a failure to
    load the parser into [null]. *)
Definition extractLineCoordinatesForElevation (aiMessage : text) : M (option jsval) :=
  try_catch
    (do _ <- (fun '(w, t) => let '(r, w') := load_parser env w in (r, (w', t)));
     let coordinates := parseCoordinates aiMessage in
     if negb (is_none coordinates) then
       let coordPairs := trim <$> split coordinates (txt " | ") in
       let routeCoords :=
         foldl (fun routeCoords coordPair =>
                  let '(lat, lon) := lat_lon coordPair in
                  if negb (isNaN lat) && negb (isNaN lon)
                  then routeCoords ++ [JArray [JNumber lon; JNumber lat]]
                  else routeCoords)
               [] coordPairs in
       if bool_decide (2 <= length routeCoords)
       then ret (Some (JArray routeCoords)) else ret None
     else ret None)
    (fun error => ret None).

Definition extractElevationProfile_body (userMessage aiMessage : text)
    (queryType : option queryType) : M agent_value :=
  do selectedFeature <- getSelectedFeature;
  do found <-
    match selectedFeature with
    | Some (Feature FLine coordinates) => ret (Some coordinates)
    | _ => extractLineCoordinatesForElevation aiMessage
    end;
  match found with
  | None => ret (FailureMessage (txt "Could not extract line coordinates"))
  | Some routeCoordinates =>
      if negb (truthy routeCoordinates)
         || match js_length routeCoordinates with
            | Some n => bool_decide (n < 2)
            | None => false
            end
      then ret (FailureMessage (txt "Invalid route coordinates"))
      else
        do _ <- on_map (ShowElevation routeCoordinates);
        ret ElevationSuccess
  end.

(** [extractElevationProfile]: the [catch] returns
    [{success: false, message}]. *)
Definition extractElevationProfile (userMessage aiMessage : text)
    (queryType : option queryType) : M agent_value :=
  try_catch (extractElevationProfile_body userMessage aiMessage queryType)
            (fun error => ret (FailureMessage (message error))).

(** The six agents, by intent. *)
Definition agent (i : intent) : text -> text -> option queryType -> M agent_value :=
  match i with
  | Point => extractCoordinates
  | Line => extractLineCoordinates
  | Buffer => extractBuffer
  | Polygon => extractPolygon
  | Isochrone => extractIsochrone
  | Elevation => extractElevationProfile
  end.

Definition agent_body (i : intent) : text -> text -> option queryType -> M agent_value :=
  match i with
  | Point => extractCoordinates_body
  | Line => extractLineCoordinates_body
  | Buffer => extractBuffer_body
  | Polygon => extractPolygon_body
  | Isochrone => extractIsochrone_body
  | Elevation => extractElevationProfile_body
  end.

End WithCollaborators.

End Agents.


(** * Vocabulary of the properties *)

Module Vocabulary.

Import CoordinateParser.

(** [c'] is reached from [c] by consuming a prefix of what was left. *)
Definition reach (c c' : cursor) : Prop :=
  exists w, c_rest c = w ++ c_rest c' /\ c_pos c' = c_pos c + length w.

(** Patterns every match of which consumes at least one code unit. *)
Fixpoint consumes (r : regex) : bool :=
  match r with
  | RSet _ _ _ => true
  | RSeq r1 r2 => consumes r1 || consumes r2
  | RAlt r1 r2 => consumes r1 && consumes r2
  | RGroup _ r1 => consumes r1
  | _ => false
  end.

(** The matches a loop visits, for a text scanned from its start. *)
Definition all_matches (r : regex) (s : text) : list rmatch_result :=
  default [] (exec_all (S (length s)) r (start_of s)).

(** The first occurrence of every key, the keys of [old] left out. *)
Fixpoint dedup (l : list text) (old : list text) : list text :=
  match l with
  | [] => []
  | k :: l' =>
      if bool_decide (k ∈ old) then dedup l' old else k :: dedup l' (k :: old)
  end.

Definition valid (m : rmatch_result) : bool := in_range (lat_of m) (lon_of m).

(** The keys one pass offers: those of its matches that are in range, in
    the order of the matches. *)
Definition pass_keys (r : regex) (s : text) : list text :=
  key_of <$> filter (fun m => valid m = true) (all_matches r s).

(** The array [matches] when the three loops are over. *)
Definition returned_pairs (s : text) : list text :=
  matches (each_match pattern3 s visit
             (each_match pattern2 s visit
                (each_match pattern1 s visit (Acc [] ∅)))).

(** Where in the text a key is first matched, by any of the passes. *)
Definition first_position (s : text) (key : text) : option nat :=
  let starts :=
    m_start <$> filter (fun m => valid m = true /\ key_of m = key)
                       (all_matches pattern1 s ++ all_matches pattern2 s
                        ++ all_matches pattern3 s) in
  match starts with
  | [] => None
  | p :: ps => Some (foldr Nat.min p ps)
  end.

(** The order the specification asks for: by first match position. *)
Definition in_text_order (s : text) : Prop :=
  StronglySorted
    (fun k1 k2 =>
       match first_position s k1, first_position s k2 with
       | Some p1, Some p2 => p1 < p2
       | _, _ => False
       end)
    (returned_pairs s).

Definition two_notations : text := txt "10.5,20.5 and 30.5° N, 40.5° E".

(** *** Runs of the agents *)

Section Runs.

Import Effects Agents QueryDetector.

Context {T W RouteData IsochroneData : Type}.

Definition trace_of {A} (x : result A * (W * list (@event T))) : list (@event T) :=
  snd (snd x).

(** Every event a computation adds to the trace satisfies [P]. *)
Definition appends (P : @event T -> Prop) {A} (m : @M T W A) : Prop :=
  forall w t, exists new, trace_of (m (w, t)) = t ++ new /\ Forall P new.

Definition is_refinement (e : @event T) : bool :=
  match e with
  | Completion messages _ => is_refinement_request messages
  | _ => false
  end.

Definition refinements (new : list (@event T)) : nat :=
  length (filter (fun e => is_refinement e = true) new).

(** What the [catch] of each agent returns. *)
Definition failure_value (i : intent) (e : error) : @agent_value IsochroneData :=
  match i with
  | Polygon | Isochrone => FailureError (message e)
  | Elevation => FailureMessage (message e)
  | Point | Line | Buffer => Undefined
  end.

End Runs.

(** *** Outcomes of a run *)

Section Outcomes.

Import Effects Agents QueryDetector CoordinateParser.

Context {T W RouteData IsochroneData : Type}.

(** From any state, [m] adds events [new] to the trace and ends with a
    result [r] such that [R r new]. *)
Definition yields {A} (m : @M T W A) (R : result A -> list (@event T) -> Prop) : Prop :=
  forall w t, exists new, trace_of (m (w, t)) = t ++ new /\ R (fst (m (w, t))) new.

(** [P pre e post] holds of every event [e] of a list, with the events
    before it and the events after it. *)
Definition each_event (P : list (@event T) -> @event T -> list (@event T) -> Prop)
    (new : list (@event T)) : Prop :=
  forall pre e post, new = pre ++ e :: post -> P pre e post.

(** The same, event by event. *)
Fixpoint checks (P : list (@event T) -> @event T -> list (@event T) -> Prop)
    (pre new : list (@event T)) : Prop :=
  match new with
  | [] => True
  | e :: rest => P pre e rest /\ checks P (pre ++ [e]) rest
  end.

(** What VALIDATE of the point agent leaves in the trace for a text. *)
Definition point_shows (final : text) : list (@event T) :=
  let parsed := parseCoordinates final in
  if is_none parsed then [] else [MapCall (ShowPoints parsed)].

(** Whether the line agent asks for a route: by the subtype of the query
    when it is given, and else by the words of the message. *)
Definition wants_route (userMessage : text) (queryType : option queryType) : bool :=
  match queryType with
  | Some qt => match subtype_of qt with RouteSingle | RouteMulti => true | _ => false end
  | None => needsRouting userMessage
  end.

(** What VALIDATE of the line agent leaves in the trace for a text: nothing
    when it holds no coordinates, a marker when it holds one pair, and else
    a line; but when a route is wanted and the text holds two places or
    more, a request for a route through them, followed by the route or,
    failing that, by the line. *)
Definition line_shows (needsRoute : bool) (final : text) (shown : list (@event T)) : Prop :=
  let parsed := parseCoordinates final in
  let coordinates := convertCoordinatesForDirections parsed in
  if is_none parsed then shown = []
  else if bool_decide (count_split parsed = 1) then shown = [MapCall (ShowPoints parsed)]
  else if needsRoute then
    if bool_decide (2 <= length coordinates)
    then shown = [DirectionsCall coordinates; MapCall (ShowRoute coordinates)]
         \/ shown = [DirectionsCall coordinates; MapCall (ShowLine parsed)]
    else shown = [MapCall (ShowLine parsed)]
  else shown = [MapCall (ShowLine parsed)].

(** The rings VALIDATE of the polygon agent reads from a text. *)
Definition polygon_rings (isMultiplePolygons : bool) (final : text)
    : list (list (number * number)) :=
  if isMultiplePolygons && includes final (txt "||")
  then omap ring_of (trim <$> split final (txt "||"))
  else match ring_of final with
       | Some ring => [ring]
       | None => []
       end.

(** What VALIDATE of the polygon agent leaves in the trace for the text
    that the refinement request [messages] returned: its rings, read as one
    polygon or as several as the request says, and nothing when there is
    none. *)
Definition polygon_shows (messages : list turn) (final : text)
    (shown : list (@event T)) : Prop :=
  exists isMultiplePolygons previous,
    last messages = Some (user (PolygonRefine isMultiplePolygons previous))
    /\ shown = match polygon_rings isMultiplePolygons final with
               | [] => []
               | rings => [MapCall (ShowPolygons rings)]
               end.

(** A run that makes one refinement request at most and, once the request
    has returned a text, does what VALIDATE does with this text and nothing
    else; when the request throws, nothing follows. *)
Definition refines_then (shows : list turn -> text -> list (@event T) -> Prop)
    (new : list (@event T)) : Prop :=
  refinements new <= 1
  /\ each_event (fun pre e post =>
       forall messages answer,
         e = Completion messages answer ->
         is_refinement_request messages = true ->
         match answer with
         | Ok refined => shows messages refined post
         | Thrown _ => post = []
         end) new.

(** An extraction request is a single extract template. *)
Definition is_extraction_request (messages : list turn) : bool :=
  match messages with
  | [Turn User (Prompt (PointExtract _ _ | LineExtract _ _ _ | PolygonExtract _ _ _))] =>
      true
  | _ => false
  end.

Fixpoint latest_text (current : option text) (pre : list (@event T)) : option text :=
  match pre with
  | [] => current
  | Completion messages answer :: rest =>
      if is_refinement_request messages || is_extraction_request messages
      then latest_text (match answer with Ok s => Some s | Thrown _ => None end) rest
      else latest_text current rest
  | _ :: rest => latest_text current rest
  end.

(** The text an agent has in hand after the events [pre]: the answer of
    its latest extraction or refinement request, and before any such
    request the coordinates parsed from the first answer. *)
Definition in_hand (aiMessage : text) (pre : list (@event T)) : option text :=
  latest_text (Some (parseCoordinates aiMessage)) pre.

End Outcomes.


(** *** Centers *)

(** The box of the specification, on the coordinates as they are written:
    both differences below half a degree, in exact arithmetic. *)
Definition within_box (a b : number * number) : bool :=
  num_ltb (num_abs (num_sub (fst a) (fst b))) (Num 5 1)
  && num_ltb (num_abs (num_sub (snd a) (snd b))) (Num 5 1).

(** The tolerance box of the clustering, on the doubles that the
    coordinates stand for: the differences of the latitudes and of the
    longitudes, each one binary64 subtraction, are both below the tolerance
    in absolute value. *)
Definition within_tolerance (toleranceDeg : float) (a b : number * number) : bool :=
  let dLat := PrimFloat.sub (to_double (fst a)) (to_double (fst b)) in
  let dLon := PrimFloat.sub (to_double (snd a)) (to_double (snd b)) in
  PrimFloat.ltb (PrimFloat.abs dLat) toleranceDeg
  && PrimFloat.ltb (PrimFloat.abs dLon) toleranceDeg.

(** No center has a later one in its tolerance box of half a degree. *)
Definition apart (centers : list (number * number)) : Prop :=
  forall i j ci cj,
    i < j -> centers !! i = Some ci -> centers !! j = Some cj ->
    within_tolerance 0.5 ci cj = false.

(** *** Rings *)

Section Rings.

Import Agents.

Context {T : Type} (J : arithmetic T).

(** A polygon closed the way the buffer displays close it: its first point
    is added at the end. *)
Definition closed_by_first (polygon : list (T * T)) : list (T * T) :=
  polygon ++ take 1 polygon.

(** The shape of the ring rendered for a circle of [n] segments: [n + 2]
    vertices, the last equal to the first, and before it the circle, with
    its own closing vertex at position [n]. *)
Definition rendered_shape (n : nat) (circle ring : list (T * T)) : Prop :=
  length ring = n + 2
  /\ last ring = head ring
  /\ take (n + 1) ring = circle
  /\ ring !! n = last circle.

(** A request that, if it hands a ring to the map with a radius, hands the
    circle of [n] segments generated with this radius around some center,
    closed by its first point. *)
Definition ring_ok (n : nat) (e : @event T) : Prop :=
  forall index ring radius,
    e = MapCall (AddBufferSource index ring radius) ->
    exists center, ring = closed_by_first (generateCircle J center radius n).

(** The buffers whose polygon is the circle of [n] segments generated with
    their radius. *)
Definition generated (n : nat) (b : @buffer T) : Prop :=
  exists center, b_polygon b = generateCircle J center (b_radius b) n.

End Rings.

(** *** The buffer displays *)

Section Displays.

Import Effects Agents.

Context {T : Type} {W RouteData IsochroneData : Type}.

(** The requests of [displayBufferOnMap] for a buffer. *)
Definition single_display (b : @buffer T) : list (@map_request T) :=
  [ ClearOverlays;
    AddBufferSource None (closed_by_first (b_polygon b)) (b_radius b);
    DecorateBuffer None;
    FitBufferBounds ].

(** The requests of [displayMultipleBuffersOnMap] for the buffers from
    position [index] on, and for all of them. *)
Fixpoint buffer_sources (index : nat) (buffersArray : list (@buffer T))
    : list (@map_request T) :=
  match buffersArray with
  | [] => []
  | b :: rest =>
      AddBufferSource (Some index) (closed_by_first (b_polygon b)) (b_radius b)
      :: DecorateBuffer (Some index)
      :: buffer_sources (S index) rest
  end.

Definition multiple_display (buffersArray : list (@buffer T)) : list (@map_request T) :=
  ClearOverlays :: buffer_sources 0 buffersArray ++ [FitBufferBounds].

(** The requests are made of the map one after the other, up to the first
    that throws; what it throws is thrown on. *)
Fixpoint ask_all (env : @collaborators T W RouteData IsochroneData)
    (requests : list (@map_request T)) : @M T W unit :=
  match requests with
  | [] => ret tt
  | request :: rest => bind (on_map env request) (fun _ => ask_all env rest)
  end.

End Displays.

(** *** Double arithmetic for the examples of the circle generator *)

Section Doubles.

Import Agents.

(** [Math.PI] and the double nearest to twice pi. *)
Definition pi_double : float := 0x1.921fb54442d18p+1%float.
Definition two_pi_double : float := 0x1.921fb54442d18p+2%float.

(** [Math.sin] and [Math.cos] are implementation-approximated.  They are
    known here at two arguments only, zero and [two_pi_double], where they
    take the correctly rounded values: the sine of the double nearest to
    twice pi is not zero, because that double is not twice pi.  At any other
    argument the value is not known ([None]). *)
Definition sin_double (x : float) : option float :=
  if PrimFloat.eqb x 0%float then Some x
  else if PrimFloat.eqb x two_pi_double then Some (-0x1.1a62633145c07p-52)%float
  else None.

Definition cos_double (x : float) : option float :=
  if PrimFloat.eqb x 0%float then Some 1%float
  else if PrimFloat.eqb x two_pi_double then Some 1%float
  else None.

(** An operation on numbers that are known. *)
Definition known {A} (f : A -> A -> A) (x y : option A) : option A :=
  match x, y with
  | Some a, Some b => Some (f a b)
  | _, _ => None
  end.

(** Binary64 arithmetic, as far as it is known: a number computed from an
    unknown sine or cosine is unknown. *)
Definition doubles : arithmetic (option float) :=
  Arithmetic (option float)
             (fun a => Some (to_double a))
             (fun n => Some (to_double (of_Z (Z.of_nat n))))
             (known PrimFloat.add) (known PrimFloat.mul) (known PrimFloat.div)
             (fun x => x ≫= sin_double) (fun x => x ≫= cos_double) (Some pi_double).


End Doubles.

(** *** Exact arithmetic for the circle generator *)

Section ExactArithmetic.

Import Agents.
Import Rdefinitions Raxioms RIneq Rtrigo_def Rtrigo1.




End ExactArithmetic.

(** *** Collaborators for the examples *)

Section Examples.

Import Effects Agents.

(** Arithmetic that computes nothing: every number is [tt]. *)
Definition no_arithmetic : arithmetic unit :=
  Arithmetic unit (fun _ => tt) (fun _ => tt) (fun _ _ => tt) (fun _ _ => tt)
             (fun _ _ => tt) (fun _ => tt) (fun _ => tt) tt.

(** A world that holds the answers the text-completion collaborator will
    give, in order, and the selected feature; the other collaborators
    succeed. *)
Definition scripted
    : @collaborators unit (list (result text) * option feature) unit unit :=
  {| completion := fun _ w =>
       match fst w with
       | answer :: rest => (answer, (rest, snd w))
       | [] => (Ok [], w)
       end;
     map_call := fun _ w => (Ok tt, w);
     selected_feature := fun w => snd w;
     directions := fun _ _ w => (Some tt, w);
     isochrone_api := fun _ _ _ _ w => (Some tt, w);
     user_location := fun _ => None;
     map_center := fun _ => (of_Z 0, of_Z 0);
     load_parser := fun w => (Ok tt, w) |}.

Definition failed_to_fetch : error := Error (txt "Failed to fetch").

(** The texts and the selection of the scenarios. *)
Definition route_query : text := txt "route from New York to Boston".

Definition marker_at_40_minus_74 : feature :=
  Feature FMarker (JArray [JArray [JNumber (of_Z (-74)); JNumber (of_Z 40)]]).

End Examples.

End Vocabulary.

Import Vocabulary.

(** * The commands and further vocabulary *)

(** ** The commands (utils/commands.js) *)

Module Commands.

Import Effects.

(** The functions the registry runs. *)
Inductive action : Type :=
| CleanAll | CleanMarkers | CleanLines | CleanBuffers | CleanPolygons
| CleanElevationProfileWithLine
| ResetMap
| Fresh
| ShowHelp | ShowMapInfo
| SetMapStyle (styleUrl : string)
| ToggleTerrain
| ZoomMap (direction : string)
| FitToFeatures
| SetZoomLevel
| CenterMap
| CopyCoordinates | CenterOnUserLocation | ToggleFullscreen | AnimateBuffers.

(** One entry of the registry, with the key it is stored under. *)
Record command := Command {
  name : text;
  aliases : list text;
  description : text;
  execute : action
}.

Definition entry (name : string) (aliases : list string) (description : string)
    (execute : action) : command :=
  Command (txt name) (txt <$> aliases) (txt description) execute.
Section Registry.

Local Open Scope string_scope.

(** The registry [commands], in the order of its keys. *)
Definition commands : list command :=
  [ entry "clean" ["cl"; "clear"]
          "REMOVE ALL FEATURES FROM MAP" CleanAll;
    entry "clean markers" ["cl markers"; "clear markers"]
          "REMOVE ALL MARKERS" CleanMarkers;
    entry "clean lines" ["cl lines"; "clear lines"]
          "REMOVE ALL LINES AND ROUTES" CleanLines;
    entry "clean buffers" ["cl buffers"; "clear buffers"]
          "REMOVE ALL BUFFERS AND GEOFENCES" CleanBuffers;
    entry "clean polygons" ["cl polygons"; "clear polygons"]
          "REMOVE ALL POLYGONS" CleanPolygons;
    entry "clean elevation profile" ["cl elevation"; "clear elevation"; "cl elevation profile"; "clear elevation profile"]
          "REMOVE ELEVATION PROFILE CHART AND LINE" CleanElevationProfileWithLine;
    entry "reset" ["rs"; "home"]
          "RESET MAP TO DEFAULT VIEW" ResetMap;
    entry "fresh" ["f"]
          "CLEAR ALL FEATURES AND RESET MAP" Fresh;
    entry "help" ["h"; "commands"; "cmds"]
          "SHOW ALL AVAILABLE COMMANDS" ShowHelp;
    entry "info" ["i"]
          "SHOW MAP STATUS AND FEATURE COUNTS" ShowMapInfo;
    entry "dark" ["d"]
          "SWITCH TO DARK MAP STYLE" (SetMapStyle "mapbox://styles/mapbox/dark-v11");
    entry "light" ["l"]
          "SWITCH TO LIGHT MAP STYLE" (SetMapStyle "mapbox://styles/mapbox/light-v11");
    entry "satellite" ["sat"]
          "SWITCH TO SATELLITE MAP STYLE" (SetMapStyle "mapbox://styles/mapbox/satellite-v9");
    entry "streets" ["street"; "s"]
          "SWITCH TO STREETS MAP STYLE" (SetMapStyle "mapbox://styles/mapbox/streets-v12");
    entry "outdoors" ["outdoor"; "o"]
          "SWITCH TO OUTDOORS MAP STYLE" (SetMapStyle "mapbox://styles/mapbox/outdoors-v12");
    entry "navigation day" ["nav day"; "navd"; "nd"]
          "SWITCH TO NAVIGATION DAY STYLE" (SetMapStyle "mapbox://styles/mapbox/navigation-day-v1");
    entry "navigation night" ["nav night"; "navn"; "nn"]
          "SWITCH TO NAVIGATION NIGHT STYLE" (SetMapStyle "mapbox://styles/mapbox/navigation-night-v1");
    entry "terrain" ["t"; "3d"]
          "TOGGLE 3D TERRAIN ELEVATION" ToggleTerrain;
    entry "zoom in" ["zi"; "zoom+"]
          "ZOOM IN BY 2 LEVELS" (ZoomMap "in");
    entry "zoom out" ["zo"; "zoom-"]
          "ZOOM OUT BY 2 LEVELS" (ZoomMap "out");
    entry "fit" ["fit bounds"; "fb"]
          "FIT MAP TO SHOW ALL FEATURES" FitToFeatures;
    entry "zoom" ["z"]
          "SET ZOOM LEVEL (EXAMPLE: @ZOOM 10)" SetZoomLevel;
    entry "center" ["c"]
          "CENTER MAP ON COORDINATES" CenterMap;
    entry "copy coordinates" ["copy coords"; "cc"]
          "COPY MAP CENTER COORDINATES" CopyCoordinates;
    entry "my location" ["here"; "location"; "loc"]
          "CENTER MAP ON YOUR LOCATION" CenterOnUserLocation;
    entry "fullscreen" ["fs"; "full"]
          "TOGGLE FULLSCREEN MODE" ToggleFullscreen;
    entry "animate buffers" ["ab"; "animate buffer"; "abuffers"]
          "TOGGLE ANIMATED BUFFER STROKES" AnimateBuffers ].

End Registry.

(** [===] on two texts. *)
Fixpoint text_eqb (a b : text) : bool :=
  match a, b with
  | [], [] => true
  | x :: a', y :: b' => (x =? y)%N && text_eqb a' b'
  | _, _ => false
  end.

(** The properties every object inherits from [Object.prototype]; each
    holds a function or an object.  Only [constructor] and [__proto__] can
    be equal to a text in lower case. *)
Definition inherited_properties : list text :=
  txt <$> ["constructor"; "__defineGetter__"; "__defineSetter__"; "hasOwnProperty";
           "__lookupGetter__"; "__lookupSetter__"; "isPrototypeOf";
           "propertyIsEnumerable"; "toString"; "valueOf"; "__proto__";
           "toLocaleString"]%string.

(** What [commands[key]] evaluates to. *)
Inductive property : Type :=
| Own (cmdData : command)
| Inherited
| Missing.

Definition get (key : text) : property :=
  match find (fun c => text_eqb (name c) key) commands with
  | Some cmdData => Own cmdData
  | None => if existsb (text_eqb key) inherited_properties then Inherited else Missing
  end.

(** [String.prototype.split] with the separator [/\s+/]. *)
Fixpoint split_spaces_go (cur : text) (gap : bool) (s : text) : list text :=
  match s with
  | [] => [rev cur]
  | c :: s' =>
      if is_space c then
        if gap then split_spaces_go [] true s'
        else rev cur :: split_spaces_go [] true s'
      else split_spaces_go (c :: cur) false s'
  end.

Definition split_spaces (s : text) : list text := split_spaces_go [] false s.

(** [message.replace(/^@/, '').trim().toLowerCase()] *)
Definition command_text (message : text) : text :=
  toLowerCase (trim (match message with
                     | 64%N :: rest => rest
                     | _ => message
                     end)).

(** [cmd.substring(prefix.length).trim().split(/\s+/)] *)
Definition args_after (prefix cmd : text) : list text :=
  split_spaces (trim (drop (length prefix) cmd)).

(** The loop of [parseCommand] over the entries of the registry. *)
Fixpoint match_entries (cmd : text) (entries : list command)
    : option (text * list text) :=
  match entries with
  | [] => None
  | cmdData :: rest =>
      if existsb (text_eqb cmd) (aliases cmdData) then Some (name cmdData, [])
      else if starts_with (name cmdData) cmd
      then Some (name cmdData, args_after (name cmdData) cmd)
      else
        match find (fun alias => starts_with alias cmd) (aliases cmdData) with
        | Some alias => Some (name cmdData, args_after alias cmd)
        | None => match_entries cmd rest
        end
  end.

(** [parseCommand]: the command and its arguments, [None] for [null]. *)
Definition parseCommand (message : text) : option (text * list text) :=
  let cmd := command_text message in
  match get cmd with
  | Own _ | Inherited => Some (cmd, [])
  | Missing => match_entries cmd commands
  end.

(** [isCommand] *)
Definition isCommand (message : text) : bool := starts_with (txt "@") (trim message).

(** The object [{success, message}] a command returns. *)
Record outcome := Outcome { success : bool; message : text }.

(** What the commands ask of the map: a [flyTo] with the options it is
    given, numbers being doubles, or one of the functions of the registry
    that this development leaves to the map. *)
Inductive request : Type :=
| FlyTo (center : option (float * float)) (zoom : option float) (duration : Z)
| Run (a : action).

Section WithMap.

Context {W : Type}.

(** The map: [fly_to] and [run] may throw; [run] returns the object the
    function returns, if any.  [not_a_function] is the message of the
    [TypeError] raised by calling a property that is not a function. *)
Record map_api := MapApi {
  fly_to : option (float * float) -> option float -> Z -> W -> result unit * W;
  run : action -> W -> result (option outcome) * W;
  not_a_function : text
}.

Context (map : map_api).

Definition state : Type := W * list request.

Definition flyTo (center : option (float * float)) (zoom : option float)
    (duration : Z) (s : state) : result unit * state :=
  let '(w, t) := s in
  let '(r, w') := fly_to map center zoom duration w in
  (r, (w', t ++ [FlyTo center zoom duration])).

Definition run_action (a : action) (s : state) : result (option outcome) * state :=
  let '(w, t) := s in
  let '(r, w') := run map a w in
  (r, (w', t ++ [Run a])).

(** [setZoomLevel] *)
Definition setZoomLevel (args : list text) (s : state)
    : result (option outcome) * state :=
  match args with
  | [] => (Ok (Some (Outcome false (txt "Please provide a zoom level"))), s)
  | arg :: _ =>
      let zoom := parseFloat_double arg in
      if PrimFloat.is_nan zoom || PrimFloat.ltb zoom 0%float || PrimFloat.ltb 22%float zoom
      then (Ok (Some (Outcome false (txt "Invalid zoom level (0-22)"))), s)
      else
        match flyTo None (Some zoom) 1000 s with
        | (Ok _, s') =>
            (Ok (Some (Outcome true (txt "Zoom set to " ++ double_to_string zoom))), s')
        | (Thrown e, s') => (Thrown e, s')
        end
  end.

(** [centerMap] *)
Definition centerMap (args : list text) (s : state)
    : result (option outcome) * state :=
  match args with
  | [] => (Ok (Some (Outcome false (txt "Please provide coordinates"))), s)
  | arg :: _ =>
      match split arg (txt ",") with
      | [first; second] =>
          let lat := parseFloat_double (trim first) in
          let lon := parseFloat_double (trim second) in
          if PrimFloat.is_nan lat || PrimFloat.is_nan lon
             || PrimFloat.ltb lat (-90)%float || PrimFloat.ltb 90%float lat
             || PrimFloat.ltb lon (-180)%float || PrimFloat.ltb 180%float lon
          then (Ok (Some (Outcome false (txt "Invalid coordinates"))), s)
          else
            match flyTo (Some (lon, lat)) None 1500 s with
            | (Ok _, s') =>
                (Ok (Some (Outcome true (txt "Map centered on " ++ double_to_string lat
                                         ++ txt ", " ++ double_to_string lon))), s')
            | (Thrown e, s') => (Thrown e, s')
            end
      | _ =>
          (Ok (Some (Outcome false (txt "Invalid coordinates format (use: lat,lon)"))), s)
      end
  end.

(** [cmdData.execute(map, args)] *)
Definition execute_command (cmdData : command) (args : list text) (s : state)
    : result (option outcome) * state :=
  match execute cmdData with
  | SetZoomLevel => setZoomLevel args s
  | CenterMap => centerMap args s
  | a => run_action a s
  end.

(** [handleCommand] *)
Definition handleCommand (userMessage : text) (s : state) : outcome * state :=
  match parseCommand userMessage with
  | None => (Outcome false (txt "Unknown command: " ++ userMessage), s)
  | Some (command, args) =>
      match get command with
      | Missing => (Outcome false (txt "Command not found: " ++ command), s)
      | Inherited => (Outcome false (txt "Error: " ++ not_a_function map), s)
      | Own cmdData =>
          match execute_command cmdData args s with
          | (Ok (Some result), s') => (result, s')
          | (Ok None, s') =>
              (Outcome true (txt "Command executed: " ++ command), s')
          | (Thrown error, s') =>
              (Outcome false (txt "Error: " ++ Effects.message error), s')
          end
      end
  end.

End WithMap.

End Commands.

(** * Further vocabulary *)

Module Contracts.

Import Effects Agents QueryDetector CoordinateParser IsochroneService.

(** A list of contour values as the isochrone service accepts it: at most
    four values, each above zero and at most [limit], in strictly increasing
    order. *)
Definition contours (limit : Z) (l : list number) : Prop :=
  length l <= 4
  /\ Forall (fun v => num_gtb v (of_Z 0) = true /\ num_leb v (of_Z limit) = true) l
  /\ StronglySorted (fun a b => num_ltb a b = true) l.

(** The contours of one request to the isochrone service: minutes or
    meters, never both, and at least one value. *)
Definition one_contour_list (minutes meters : option (list number)) : Prop :=
  match minutes, meters with
  | Some l, None => l <> [] /\ contours 60 l
  | None, Some l => l <> [] /\ contours 100000 l
  | _, _ => False
  end.

(** Two vertices at the same place: the same pair, or equal as numbers. *)
Definition same_place (a b : number * number) : Prop :=
  a = b \/ (num_eqb (fst a) (fst b) = true /\ num_eqb (snd a) (snd b) = true).

(** A ring whose last vertex is at the place of its first. *)
Definition closed_ring (ring : list (number * number)) : Prop :=
  match head ring, last ring with
  | Some a, Some b => same_place a b
  | _, _ => False
  end.

(** The text of a pair of numbers in range, as the parser writes it. *)
Definition pair_in_range (k : text) : Prop :=
  exists lat lon,
    k = to_string lat ++ txt "," ++ to_string lon /\ in_range lat lon = true.

(** A text that lists pairs: one pair or more joined by [ | ], no pair
    twice, each in range. *)
Definition parsed_pairs (s : text) : Prop :=
  exists pairs,
    s = join (txt " | ") pairs
    /\ pairs <> [] /\ NoDup pairs /\ Forall pair_in_range pairs.

(** The requests to the text-completion collaborator among the events of a
    run. *)
Definition is_completion {T : Type} (e : @event T) : bool :=
  match e with
  | Completion _ _ => true
  | _ => false
  end.

Definition requests {T : Type} (new : list (@event T)) : nat :=
  length (filter (fun e => is_completion e = true) new).

(** A computation that makes at most [n] requests to the text-completion
    collaborator, in whatever state it starts. *)
Definition costs {T W A : Type} (n : nat) (m : @M T W A) : Prop :=
  forall w t, exists new, trace_of (m (w, t)) = t ++ new /\ requests new <= n.

(** The most requests an agent makes: [planned] tells whether the caller
    passed the classification of the query, as the application does. *)
Definition budget (i : intent) (planned : bool) : nat :=
  match i with
  | Point | Line | Polygon => if planned then 3 else 4
  | Buffer => 2
  | Isochrone => if planned then 1 else 2
  | Elevation => 0
  end.

Definition planned (queryType : option queryType) : bool :=
  match queryType with Some _ => true | None => false end.

(** The text of coordinates an event hands to the map, as markers or as a
    line. *)
Definition shown_text {T : Type} (e : @event T) : option text :=
  match e with
  | MapCall (ShowPoints coordinates) => Some coordinates
  | MapCall (ShowLine coordinates) => Some coordinates
  | _ => None
  end.

(** The subtypes each intent goes with: the four line subtypes for lines,
    [single] alone for elevation, [single] or [multiple] for the others. *)
Definition subtype_fits (q : queryType) : bool :=
  match type q, subtype_of q with
  | Line, (RouteSingle | RouteMulti | DirectSingle | DirectMulti) => true
  | Elevation, Single => true
  | (Point | Buffer | Polygon | Isochrone), (Single | Multiple) => true
  | _, _ => false
  end.

(** The profile strings the two services return. *)
Definition profile_text (p : profile) : text :=
  match p with
  | Cycling => txt "mapbox/cycling"
  | Walking => txt "mapbox/walking"
  | DrivingTraffic => txt "mapbox/driving-traffic"
  end.

Definition transport_text (p : transport) : text :=
  match p with
  | TCycling => txt "mapbox/cycling"
  | TWalking => txt "mapbox/walking"
  | TDriving => txt "mapbox/driving-traffic"
  end.

(** A number as [parseFloat] and [Number] return it: [NaN], or a fraction
    in lowest terms of ten. *)
Definition canonical (a : number) : Prop :=
  match a with
  | NaN => True
  | Num m s => s = 0 \/ (m mod 10 <> 0)%Z
  end.

(** The text of a pair as the coordinate parser writes it. *)
Definition pair_text (p : number * number) : text :=
  to_string (fst p) ++ txt "," ++ to_string (snd p).

(** A character of the text of a number. *)
Definition number_char (c : N) : bool :=
  is_digit c || (c =? 46)%N || (c =? 45)%N || (c =? 43)%N || (c =? 101)%N
  || (c =? 78)%N || (c =? 97)%N.

(** A vertex, longitude first, at a place in the range of the parser. *)
Definition in_place (v : number * number) : Prop := in_range (snd v) (fst v) = true.

(** The aliases that do not reach their own command, each with the command
    that is run in its place. *)
Definition shadowed_aliases : list (string * string) :=
  [ ("cl markers", "clean"); ("clear markers", "clean");
    ("cl lines", "clean"); ("clear lines", "clean");
    ("cl buffers", "clean"); ("clear buffers", "clean");
    ("cl polygons", "clean"); ("clear polygons", "clean");
    ("cl elevation", "clean"); ("clear elevation", "clean");
    ("cl elevation profile", "clean"); ("clear elevation profile", "clean");
    ("fit bounds", "fresh"); ("fb", "fresh");
    ("copy coords", "center"); ("cc", "center");
    ("here", "help"); ("location", "light"); ("loc", "light");
    ("fs", "fresh"); ("full", "fresh") ]%string.

(** The command an alias of [cmdData] runs. *)
Definition runs (cmdData : Commands.command) (alias : text) : text :=
  match find (fun p => Commands.text_eqb (txt (fst p)) alias) shadowed_aliases with
  | Some p => txt (snd p)
  | None => Commands.name cmdData
  end.

(** The letters that are an alias on their own. *)
Definition one_letter_aliases : text := txt "cdfhilostz".






(** What [parseCommand] does with the command text of a message. *)
Definition parse_text (cmd : text) : option (text * list text) :=
  match Commands.get cmd with
  | Commands.Own _ | Commands.Inherited => Some (cmd, [])
  | Commands.Missing => Commands.match_entries cmd Commands.commands
  end.

(** An entry that the loop of [parseCommand] passes by: neither its name
    nor an alias is a prefix of the command text. *)
Definition passed_by (cmd : text) (cmdData : Commands.command) : Prop :=
  starts_with (Commands.name cmdData) cmd = false
  /\ Forall (fun alias => starts_with alias cmd = false) (Commands.aliases cmdData).

End Contracts.

Import Contracts.


(** * Properties *)

Import Effects Agents QueryDetector CoordinateParser IsochroneService.

(** ** The matcher *)

Section Matcher.

Lemma reach_refl c : reach c c.
Proof. exists []. simpl. split; [reflexivity | lia]. Qed.

Lemma reach_trans c1 c2 c3 : reach c1 c2 -> reach c2 c3 -> reach c1 c3.
Proof.
  intros [w1 [H1 P1]] [w2 [H2 P2]]. exists (w1 ++ w2). split.
  - rewrite H1, H2. now rewrite app_assoc.
  - rewrite length_app. lia.
Qed.

Lemma reach_pos c c' : reach c c' -> c_pos c <= c_pos c'.
Proof. intros [w [_ P]]. lia. Qed.

Lemma reach_length c c' :
  reach c c' -> length (c_rest c') + (c_pos c' - c_pos c) = length (c_rest c).
Proof. intros [w [H P]]. rewrite H, length_app. lia. Qed.

Local Ltac stay c caps :=
  exists c, caps; split; [assumption | split; [apply reach_refl | discriminate]].

(** What the matcher returns was returned by its continuation, called at a
    cursor reached from the starting one. *)
Lemma rmatch_reach r :
  forall R c caps k x,
    rmatch r R c caps k = Some x ->
    exists c' caps', k c' caps' = Some x /\ reach c c' /\
                     (consumes r = true -> c_pos c < c_pos c').
Proof.
  induction r as [ | ic ng items | r1 IH1 r2 IH2 | r1 IH1 r2 IH2 | g r1 IH1 | n r1 IH1
                 | r1 IH1 | | | ]; intros R c caps k x H; simpl in H.
  - stay c caps.
  - destruct (c_rest c) as [ | y rest] eqn:E; [discriminate | ].
    destruct (set_matches ic ng items y); [ | discriminate].
    eexists _, _. split; [exact H | ]. simpl. split; [ | lia].
    exists [y]. simpl. split; [assumption | lia].
  - apply IH1 in H as (c1 & caps1 & H & R1 & P1).
    apply IH2 in H as (c2 & caps2 & H & R2 & P2).
    exists c2, caps2. split; [assumption | ]. split; [eapply reach_trans; eassumption | ].
    simpl. intros C. apply reach_pos in R1 as ?. apply reach_pos in R2 as ?.
    destruct (consumes r1); [specialize (P1 eq_refl); lia | ].
    simpl in C. specialize (P2 C). lia.
  - simpl. destruct (rmatch r1 R c caps k) as [y | ] eqn:E.
    + injection H as ->. apply IH1 in E as (c1 & caps1 & E & R1 & P1).
      exists c1, caps1. repeat split; try assumption.
      intros C. apply andb_true_iff in C as [C _]. auto.
    + apply IH2 in H as (c1 & caps1 & E' & R1 & P1).
      exists c1, caps1. repeat split; try assumption.
      intros C. apply andb_true_iff in C as [_ C]. auto.
  - revert x H. generalize (length (c_rest c)) as fuel. intros fuel. revert c caps.
    induction fuel as [ | fuel IHf]; intros c caps x H; simpl in H.
    + stay c caps.
    + assert (Hiter : forall y,
                rmatch r1 R c caps (fun c' caps' =>
                  if decide (c_pos c < c_pos c')
                  then star_loop g (rmatch r1 R) k fuel c' caps' else None) = Some y ->
                exists c' caps', k c' caps' = Some y /\ reach c c' /\
                                 (consumes (RStar g r1) = true -> c_pos c < c_pos c')).
      { intros y E. apply IH1 in E as (c1 & caps1 & E & R1 & _).
        destruct (decide (c_pos c < c_pos c1)); [ | discriminate].
        apply IHf in E as (c2 & caps2 & E & R2 & _).
        exists c2, caps2. split; [assumption | ].
        split; [eapply reach_trans; eassumption | discriminate]. }
      destruct g.
      * match type of H with
        | match ?e with _ => _ end = _ => destruct e as [y | ] eqn:E
        end.
        -- injection H as ->. auto.
        -- stay c caps.
      * destruct (k c caps) as [y | ] eqn:E.
        -- injection H as ->. stay c caps.
        -- auto.
  - apply IH1 in H as (c1 & caps1 & H & R1 & P1).
    eexists _, _. split; [exact H | ]. split; assumption.
  - destruct (rmatch r1 unit c caps _); [discriminate | ]. stay c caps.
  - destruct (c_prev c); [discriminate | ]. stay c caps.
  - destruct (c_rest c) eqn:E; [ | discriminate]. stay c caps.
  - destruct (xorb _ _); [ | discriminate]. stay c caps.
Qed.

(** A match found at a cursor starts there, ends at a cursor reached from
    it, and holds the code units in between. *)
Lemma exec_here_spec r c m :
  exec_here r c = Some m ->
  m_start m = c_pos c /\ reach c (m_end m) /\
  (consumes r = true -> c_pos c < c_pos (m_end m)).
Proof.
  unfold exec_here. intros H. apply rmatch_reach in H as (c' & caps' & H & R & P).
  injection H as <-. simpl. auto.
Qed.

Lemma search_from_spec r rest :
  forall pos prev m,
    search_from r pos prev rest = Some m ->
    pos <= m_start m /\ reach (Cursor pos prev rest) (m_end m) /\
    (consumes r = true -> m_start m < c_pos (m_end m)).
Proof.
  induction rest as [ | x rest IH]; intros pos prev m H; simpl in H.
  - destruct (exec_here r (Cursor pos prev [])) as [m' | ] eqn:E; [ | discriminate].
    injection H as ->. apply exec_here_spec in E as (S & R & P). simpl in *.
    rewrite S. auto.
  - destruct (exec_here r (Cursor pos prev (x :: rest))) as [m' | ] eqn:E.
    + injection H as ->. apply exec_here_spec in E as (S & R & P). simpl in *.
      rewrite S. auto.
    + apply IH in H as (L & R & P). split; [lia | ]. split; [ | assumption].
      eapply reach_trans; [ | exact R]. exists [x]. simpl. split; [reflexivity | lia].
Qed.

Lemma search_spec r c m :
  search r c = Some m ->
  c_pos c <= m_start m /\ reach c (m_end m) /\
  (consumes r = true -> m_start m < c_pos (m_end m)).
Proof.
  unfold search. intros H. apply search_from_spec in H as (L & R & P).
  destruct c. simpl in *. auto.
Qed.

(** The loop over the matches of a consuming pattern ends, and is the fold
    of its body over the matches it visits. *)
Lemma while_exec_all {S : Type} (body : rmatch_result -> S -> S) r :
  forall fuel c s,
    while_exec fuel r c body s = foldl (fun a m => body m a) s <$> exec_all fuel r c.
Proof.
  induction fuel as [ | fuel IH]; intros c s; simpl; [reflexivity | ].
  destruct (search r c) as [m | ]; [ | reflexivity].
  rewrite IH. destruct (exec_all fuel r (m_end m)); reflexivity.
Qed.

Lemma exec_all_total r :
  consumes r = true ->
  forall fuel c, length (c_rest c) < fuel -> is_Some (exec_all fuel r c).
Proof.
  intros C. induction fuel as [ | fuel IH]; intros c L; [lia | ]. simpl.
  destruct (search r c) as [m | ] eqn:E; [ | eauto].
  apply search_spec in E as (P & R & Q). specialize (Q C).
  apply reach_length in R.
  destruct (IH (m_end m)) as [l ->]; [lia | ]. simpl. eauto.
Qed.

Lemma each_match_fold {S : Type} (body : rmatch_result -> S -> S) r s a :
  consumes r = true ->
  while_exec (Datatypes.S (length s)) r (start_of s) body a
    = Some (each_match r s body a)
  /\ each_match r s body a = foldl (fun a m => body m a) a (all_matches r s).
Proof.
  intros C. unfold each_match, all_matches. rewrite while_exec_all.
  destruct (exec_all_total r C (Datatypes.S (length s)) (start_of s)) as [l ->];
    [simpl; lia | ].
  simpl. auto.
Qed.

(** The matches are visited from left to right: each starts where the
    previous one ended, or later. *)
Lemma exec_all_sorted r :
  consumes r = true ->
  forall fuel c l,
    exec_all fuel r c = Some l ->
    Forall (fun m => c_pos c <= m_start m) l /\
    StronglySorted (fun m1 m2 => m_start m1 < m_start m2) l.
Proof.
  intros C. induction fuel as [ | fuel IH]; intros c l H; [discriminate | ].
  simpl in H. destruct (search r c) as [m | ] eqn:E.
  - destruct (exec_all fuel r (m_end m)) as [l' | ] eqn:E'; [ | discriminate].
    injection H as <-. apply search_spec in E as (P & R & Q). specialize (Q C).
    apply IH in E' as (F & Srt). split.
    + constructor; [assumption | ].
      eapply Forall_impl; [exact F | ]. simpl. intros; lia.
    + constructor; [assumption | ].
      eapply Forall_impl; [exact F | ]. simpl. intros; lia.
  - injection H as <-. split; constructor.
Qed.

Lemma all_matches_sorted r s :
  consumes r = true ->
  StronglySorted (fun m1 m2 => m_start m1 < m_start m2) (all_matches r s).
Proof.
  intros C. unfold all_matches.
  destruct (exec_all (S (length s)) r (start_of s)) as [l | ] eqn:E.
  - apply (exec_all_sorted r C) in E as [_ Srt]. exact Srt.
  - constructor.
Qed.

End Matcher.


Example to_string_ex1 : to_string (Num 407128 4) = txt "40.7128".
Proof. vm_compute. reflexivity. Qed.
Example to_string_ex2 : to_string (Num (-74006) 3) = txt "-74.006".
Proof. vm_compute. reflexivity. Qed.
Example to_string_ex3 : to_string (Num 15 8) = txt "1.5e-7".
Proof. vm_compute. reflexivity. Qed.
Example to_string_ex4 : to_string (Num 1 6) = txt "0.000001".
Proof. vm_compute. reflexivity. Qed.
Example to_string_ex5 : to_string (Num 1200 0) = txt "1200".
Proof. vm_compute. reflexivity. Qed.
Example parseFloat_ex1 : parseFloat (txt "-74.0060") = Num (-74006) 3.
Proof. vm_compute. reflexivity. Qed.
Example parseFloat_ex2 : parseFloat (txt "00") = Num 0 0.
Proof. vm_compute. reflexivity. Qed.
Example Number_ex1 : Number (txt " 1.5e-7 ") = Num 15 8.
Proof. vm_compute. reflexivity. Qed.
Example Number_ex2 : Number (txt "12abc") = NaN.
Proof. vm_compute. reflexivity. Qed.
Example Number_ex3 : Number (txt "1e3") = Num 1000 0.
Proof. vm_compute. reflexivity. Qed.


(** ** The coordinate parser *)

Section ParserOrder.

Import CoordinateParser.

Lemma patterns_consume :
  consumes pattern1 = true /\ consumes pattern2 = true /\ consumes pattern3 = true.
Proof. repeat split; vm_compute; reflexivity. Qed.

Lemma dedup_same_members l :
  forall old old', (forall k, k ∈ old <-> k ∈ old') -> dedup l old = dedup l old'.
Proof.
  induction l as [ | k l IH]; intros old old' E; simpl; [reflexivity | ].
  destruct (bool_decide_reflect (k ∈ old)) as [I | I];
    destruct (bool_decide_reflect (k ∈ old')) as [I' | I'].
  - apply IH, E.
  - exfalso. apply I', E, I.
  - exfalso. apply I, E, I'.
  - f_equal. apply IH. intros k'. rewrite !elem_of_cons, E. reflexivity.
Qed.

(** One loop adds to [matches] the new keys of its pass. *)
Lemma visit_fold ms :
  forall a old,
    (forall k, k ∈ seen a <-> k ∈ old) ->
    let keys := key_of <$> filter (fun m => valid m = true) ms in
    let a' := foldl (fun a m => visit m a) a ms in
    matches a' = matches a ++ dedup keys old /\
    exists old', (forall k, k ∈ seen a' <-> k ∈ old') /\
                 forall more, dedup (keys ++ more) old = dedup keys old ++ dedup more old'.
Proof.
  induction ms as [ | m ms IH]; intros a old E; simpl.
  - split; [now rewrite app_nil_r | ]. exists old. split; [exact E | reflexivity].
  - unfold visit at 2 4. rewrite filter_cons. fold (valid m).
    destruct (valid m) eqn:V; simpl.
    + destruct (bool_decide_reflect (key_of m ∈ seen a)) as [I | I]; simpl.
      * destruct (decide (true = true)) as [_ | N]; [ | congruence]. simpl.
        rewrite bool_decide_eq_true_2 by (apply E, I).
        apply IH, E.
      * destruct (decide (true = true)) as [_ | N]; [ | congruence]. simpl.
        rewrite bool_decide_eq_false_2 by (intros J; apply I, E, J).
        edestruct (IH (Acc (matches a ++ [key_of m]) ({[key_of m]} ∪ seen a))
                      (key_of m :: old)) as (Hm & old' & Hs & Hd).
        { intros k. simpl. rewrite elem_of_union, elem_of_singleton, elem_of_cons, E.
          reflexivity. }
        simpl in Hm. split.
        -- rewrite Hm, <- app_assoc. reflexivity.
        -- exists old'. split; [exact Hs | ]. intros more. simpl. f_equal. apply Hd.
    + destruct (decide (false = true)) as [N | _]; [congruence | ]. simpl.
      apply IH, E.
Qed.

Lemma returned_pairs_spec s :
  returned_pairs s
  = dedup (pass_keys pattern1 s ++ pass_keys pattern2 s ++ pass_keys pattern3 s) [].
Proof.
  destruct patterns_consume as (C1 & C2 & C3). unfold returned_pairs.
  rewrite (proj2 (each_match_fold visit pattern3 s _ C3)).
  rewrite (proj2 (each_match_fold visit pattern2 s _ C2)).
  rewrite (proj2 (each_match_fold visit pattern1 s _ C1)).
  destruct (visit_fold (all_matches pattern1 s) (Acc [] ∅) [])
    as (M1 & old1 & S1 & D1).
  { intros k. simpl. rewrite elem_of_empty. split; [tauto | apply not_elem_of_nil]. }
  destruct (visit_fold (all_matches pattern2 s) _ old1 S1) as (M2 & old2 & S2 & D2).
  destruct (visit_fold (all_matches pattern3 s) _ old2 S2) as (M3 & old3 & S3 & D3).
  rewrite M3, M2, M1. simpl. unfold pass_keys.
  rewrite D1, D2, <- app_assoc. reflexivity.
Qed.

(** The parser returns the pairs joined, unless there are none. *)
Lemma parseCoordinates_pairs s :
  parseCoordinates s =
    match s with
    | [] => none
    | _ :: _ =>
        if includes (toLowerCase s) none then none
        else match returned_pairs s with
             | [] => none
             | _ :: _ => join (txt " | ") (returned_pairs s)
             end
    end.
Proof. reflexivity. Qed.

(** The three loops of the parser end. *)
Lemma parseCoordinates_terminates s a :
  is_Some (while_exec (S (length s)) pattern1 (start_of s) visit a) /\
  is_Some (while_exec (S (length s)) pattern2 (start_of s) visit a) /\
  is_Some (while_exec (S (length s)) pattern3 (start_of s) visit a).
Proof.
  destruct patterns_consume as (C1 & C2 & C3).
  repeat split; eexists; apply each_match_fold; assumption.
Qed.

(** C7, counterexample: the pair in degree notation is matched by the first
    pass and returned first, although the plain pair stands before it in the
    text. *)
Lemma parseCoordinates_not_in_text_order :
  parseCoordinates two_notations = txt "30.5,40.5 | 10.5,20.5"
  /\ first_position two_notations (txt "30.5,40.5") = Some 14
  /\ first_position two_notations (txt "10.5,20.5") = Some 0
  /\ ~ in_text_order two_notations.
Proof.
  assert (R : returned_pairs two_notations = [txt "30.5,40.5"; txt "10.5,20.5"])
    by (vm_compute; reflexivity).
  assert (P1 : first_position two_notations (txt "30.5,40.5") = Some 14)
    by (vm_compute; reflexivity).
  assert (P2 : first_position two_notations (txt "10.5,20.5") = Some 0)
    by (vm_compute; reflexivity).
  split; [vm_compute; reflexivity | ]. split; [exact P1 | ]. split; [exact P2 | ].
  unfold in_text_order. rewrite R. intros H.
  apply StronglySorted_inv in H as [_ H]. apply Forall_inv in H.
  rewrite P1, P2 in H. lia.
Qed.

(** C7, amended: the returned pairs are the new keys of the first pass, then
    those of the second, then those of the third, each key once; within a
    pass the matches, and so the keys, follow the text from left to right. *)
Theorem parseCoordinates_pass_order (s : text) :
  let keys :=
    dedup (pass_keys pattern1 s ++ pass_keys pattern2 s ++ pass_keys pattern3 s) [] in
  parseCoordinates s
  = match s with
    | [] => none
    | _ :: _ =>
        if includes (toLowerCase s) none then none
        else match keys with
             | [] => none
             | _ :: _ => join (txt " | ") keys
             end
    end
  /\ Forall (fun r => StronglySorted (fun m1 m2 => m_start m1 < m_start m2)
                                     (all_matches r s))
            [pattern1; pattern2; pattern3].
Proof.
  destruct patterns_consume as (C1 & C2 & C3). intros keys.
  split.
  - rewrite parseCoordinates_pairs. unfold keys. now rewrite returned_pairs_spec.
  - repeat constructor; apply all_matches_sorted; assumption.
Qed.

End ParserOrder.


Section ParserInputs.

Import CoordinateParser Agents.

(** C2: the text of the pair (5, 7) is [5,7]; no pattern of the parser
    matches in it, because each number of a pair must have two digits or
    more, and the parser answers [none]. *)
Theorem parseCoordinates_single_digits :
  to_string (of_Z 5) ++ txt "," ++ to_string (of_Z 7) = txt "5,7"
  /\ parseCoordinates (txt "5,7") = txt "none".
Proof. split; vm_compute; reflexivity. Qed.

(** The pattern the agents count pairs with does find that pair. *)
Lemma count_pairs_single_digits : count_pairs (txt "5,7") = 1.
Proof. vm_compute. reflexivity. Qed.

(** A pair written with two digits or more on each side is returned. *)
Example parseCoordinates_decimal :
  parseCoordinates (txt "40.7128,-74.0060") = txt "40.7128,-74.006".
Proof. vm_compute. reflexivity. Qed.

Example parseCoordinates_small :
  parseCoordinates (txt "0.0000001,10") = txt "1e-7,10".
Proof. vm_compute. reflexivity. Qed.

Example parseCoordinates_none_token :
  parseCoordinates (txt "None found near 40.7128,-74.0060") = txt "none".
Proof. vm_compute. reflexivity. Qed.

Example parseCoordinates_out_of_range :
  parseCoordinates (txt "95.5,10.5 and 45.5,10.5") = txt "45.5,10.5".
Proof. vm_compute. reflexivity. Qed.

End ParserInputs.

(** ** The isochrone values *)

Section IsochroneValues.

Import IsochroneService.

(** C3: in [15, 30, 45 min drive zone] only [45] is followed by a unit, so
    only 45 is extracted. *)
Theorem extractTimeValues_comma_list :
  extractTimeValues (txt "15, 30, 45 min drive zone") = [of_Z 45].
Proof. vm_compute. reflexivity. Qed.

(** With a unit after each value the three values are extracted. *)
Example extractTimeValues_units :
  extractTimeValues (txt "15 min, 30 min, 45 min drive zone")
  = [of_Z 15; of_Z 30; of_Z 45].
Proof. vm_compute. reflexivity. Qed.

Example extractTimeValues_sorted_capped :
  extractTimeValues (txt "50 min 40 min 1 hour 20 min 10 min 2 hours 20 minutes")
  = [of_Z 10; of_Z 20; of_Z 40; of_Z 50].
Proof. vm_compute. reflexivity. Qed.

(** At most four values are returned. *)
Lemma extractTimeValues_at_most_four query : length (extractTimeValues query) <= 4.
Proof. unfold extractTimeValues. rewrite length_take. lia. Qed.

Lemma extractDistanceValues_at_most_four query :
  length (extractDistanceValues query) <= 4.
Proof. unfold extractDistanceValues. rewrite length_take. lia. Qed.

(** The loops over the time and distance patterns end. *)
Lemma time_patterns_consume :
  forallb consumes time_patterns = true /\ consumes distance_pattern = true.
Proof. split; vm_compute; reflexivity. Qed.

End IsochroneValues.

(** ** The query classifier *)

Section Classifier.

Import QueryDetector.

(** Every pattern of the classifier is read by the pattern parser. *)
Lemma patterns_parse :
  Forall (fun r => r <> never)
    (explicitPolygonPatterns ++ polygonIndicators ++ elevationIndicators
     ++ isochroneIndicators ++ bufferIndicators ++ strongLineIndicators
     ++ locationOnlyPatterns ++ moderateLineIndicators ++ pointIndicators).
Proof. vm_compute. repeat constructor; discriminate. Qed.

(** So are the patterns of the parser, of the isochrone service and of the
    agents. *)
Lemma named_patterns_parse :
  Forall (fun r => r <> never)
    ([pattern1; pattern2; pattern3] ++ time_patterns
     ++ [distance_pattern; and_other; coord_pair; location_pattern;
         radiusPattern; simpleRadiusPattern]).
Proof. vm_compute. repeat constructor; discriminate. Qed.

Example classify_route :
  detectQueryType (txt "show me route from San Francisco to Los Angeles")
                  (txt "37.7749,-122.4194 and 34.0522,-118.2437")
  = QueryType Line RouteSingle.
Proof. vm_compute. reflexivity. Qed.

Example classify_buffer :
  detectQueryType (txt "add 50km buffer around this point") [] = QueryType Buffer Single.
Proof. vm_compute. reflexivity. Qed.

Example classify_polygon :
  detectQueryType (txt "draw polygon connecting Delhi, Mumbai, Bangalore") []
  = QueryType Polygon Multiple.
Proof. vm_compute. reflexivity. Qed.

Example classify_isochrone :
  detectQueryType (txt "15, 30, 45 min drive zone") [] = QueryType Isochrone Multiple.
Proof. vm_compute. reflexivity. Qed.

End Classifier.


(** ** The agents *)

Section AgentRuns.

Import Effects Agents QueryDetector CoordinateParser.

Context {T W RouteData IsochroneData : Type}.
Context (J : arithmetic T) (env : @collaborators T W RouteData IsochroneData).

Local Abbreviation M := (@M T W).
Local Abbreviation event := (@event T).

(** *** Rules for the events a computation appends *)

Lemma appends_ret (P : event -> Prop) {A} (a : A) : appends P (ret a : M A).
Proof. intros w t. exists []. split; [symmetry; apply app_nil_r | constructor]. Qed.

Lemma appends_throw (P : event -> Prop) {A} msg : appends P (throw msg : M A).
Proof. intros w t. exists []. split; [symmetry; apply app_nil_r | constructor]. Qed.

Lemma appends_bind (P : event -> Prop) {A B} (m : M A) (f : A -> M B) :
  appends P m -> (forall a, appends P (f a)) -> appends P (bind m f).
Proof.
  intros Hm Hf w t. destruct (Hm w t) as (n1 & E1 & F1). unfold bind.
  destruct (m (w, t)) as [[a | e] [w1 t1]]; unfold trace_of in *; simpl in *; subst t1.
  - destruct (Hf a w1 (t ++ n1)) as (n2 & E2 & F2). exists (n1 ++ n2).
    unfold trace_of in E2. rewrite E2, app_assoc. split; [reflexivity | ].
    apply Forall_app; auto.
  - exists n1. auto.
Qed.

Lemma appends_try_catch (P : event -> Prop) {A} (m : M A) (h : error -> M A) :
  appends P m -> (forall e, appends P (h e)) -> appends P (try_catch m h).
Proof.
  intros Hm Hh w t. destruct (Hm w t) as (n1 & E1 & F1). unfold try_catch.
  destruct (m (w, t)) as [[a | e] [w1 t1]]; unfold trace_of in *; simpl in *; subst t1.
  - exists n1. auto.
  - destruct (Hh e w1 (t ++ n1)) as (n2 & E2 & F2). exists (n1 ++ n2).
    unfold trace_of in E2. rewrite E2, app_assoc. split; [reflexivity | ].
    apply Forall_app; auto.
Qed.

Lemma appends_callPerplexity (P : event -> Prop) arg :
  (forall answer,
     P (Completion (match arg with inl p => [user p] | inr l => l end) answer)) ->
  appends P (callPerplexity env arg).
Proof.
  intros H w t. unfold callPerplexity, trace_of.
  destruct (completion env _ w) as [answer w'] eqn:E. simpl.
  eexists. split; [reflexivity | ]. repeat constructor. apply H.
Qed.

Lemma appends_on_map (P : event -> Prop) request :
  P (MapCall request) -> appends P (on_map env request).
Proof.
  intros H w t. unfold on_map, trace_of. destruct (map_call env request w). simpl.
  eexists. split; [reflexivity | ]. repeat constructor. apply H.
Qed.

Lemma appends_getSelectedFeature (P : event -> Prop) :
  appends P (getSelectedFeature env).
Proof. intros w t. exists []. split; [symmetry; apply app_nil_r | constructor]. Qed.

Lemma appends_here (P : event -> Prop) : appends P (here env).
Proof. intros w t. exists []. split; [symmetry; apply app_nil_r | constructor]. Qed.

Lemma appends_callMapboxDirections (P : event -> Prop) coordinates mode :
  P (DirectionsCall coordinates) ->
  appends P (callMapboxDirections env coordinates mode).
Proof.
  intros H w t. unfold callMapboxDirections, trace_of.
  destruct (directions env coordinates mode w). simpl.
  eexists. split; [reflexivity | ]. repeat constructor. apply H.
Qed.

Lemma appends_callMapboxIsochrone (P : event -> Prop) center mode minutes meters :
  P (IsochroneCall minutes meters) ->
  appends P (callMapboxIsochrone env center mode minutes meters).
Proof.
  intros H w t. unfold callMapboxIsochrone, trace_of.
  destruct minutes, meters; simpl;
    try (exists []; split; [symmetry; apply app_nil_r | constructor]);
    destruct (isochrone_api env _ _ _ _ w); simpl;
    (eexists; split; [reflexivity | ]; repeat constructor; apply H).
Qed.

(** *** C1: the agent boundary *)

(** No agent lets an exception through. *)
Lemma agent_never_throws i userMessage aiMessage queryType s :
  exists v s', agent J env i userMessage aiMessage queryType s = (Ok v, s').
Proof.
  destruct i; unfold agent, extractCoordinates, extractLineCoordinates, extractBuffer,
    extractPolygon, extractIsochrone, extractElevationProfile, try_catch;
    match goal with
    | |- context [match ?body s with _ => _ end] => destruct (body s) as [[v | e] s']
    end; simpl; eauto.
Qed.

(** C1, amended: when a step of an agent throws, the exception is caught at
    the agent boundary and the agent returns: [{success: false, error}] for
    the polygon and isochrone agents, [{success: false, message}] for the
    elevation agent, and nothing ([undefined]) for the point, line and
    buffer agents. *)
Theorem agent_catches (i : intent) (userMessage aiMessage : text)
    (queryType : option queryType) (s s' : W * list event) (e : error) :
  agent_body J env i userMessage aiMessage queryType s = (Thrown e, s') ->
  agent J env i userMessage aiMessage queryType s = (Ok (failure_value i e), s').
Proof.
  intros H.
  destruct i; simpl in H |- *;
    unfold extractCoordinates, extractLineCoordinates, extractBuffer,
      extractPolygon, extractIsochrone, extractElevationProfile, try_catch;
    rewrite H; reflexivity.
Qed.

End AgentRuns.

(** C1, witness: offline, the polygon agent returns a structured failure. *)
Lemma agent_catches_witness :
  let s := ([Thrown failed_to_fetch], None, []) in
  let s' := ([], None,
             [Completion [user (PolygonPlan (txt "draw polygon around Manhattan"))]
                         (Thrown failed_to_fetch)]) in
  agent_body no_arithmetic scripted Polygon (txt "draw polygon around Manhattan") [] None s
    = (Thrown failed_to_fetch, s')
  /\ agent no_arithmetic scripted Polygon (txt "draw polygon around Manhattan") [] None s
    = (Ok (FailureError (txt "Failed to fetch")), s').
Proof.
  intros s s'.
  assert (H : agent_body no_arithmetic scripted Polygon
                (txt "draw polygon around Manhattan") [] None s
              = (Thrown failed_to_fetch, s')) by (vm_compute; reflexivity).
  split; [exact H | ].
  exact (agent_catches no_arithmetic scripted Polygon
           (txt "draw polygon around Manhattan") [] None s s' failed_to_fetch H).
Defined.

(** C1, counterexample: offline, the first step of the point agent throws;
    the agent catches the exception but returns nothing, not a structured
    failure. *)
Lemma point_agent_returns_nothing :
  let s := ([Thrown failed_to_fetch], None, []) in
  let userMessage := txt "where is Dubai" in
  fst (extractCoordinates_body scripted userMessage [] None s) = Thrown failed_to_fetch
  /\ fst (extractCoordinates (IsochroneData := unit) scripted userMessage [] None s)
     = Ok Undefined
  /\ fst (extractCoordinates (IsochroneData := unit) scripted userMessage [] None s)
     <> Ok (FailureError (message failed_to_fetch)).
Proof. repeat split; try (vm_compute; reflexivity). vm_compute. discriminate. Qed.

Section Refinement.

Context {T W RouteData IsochroneData : Type}.
Context (env : @collaborators T W RouteData IsochroneData).

Local Abbreviation M := (@M T W).
Local Abbreviation event := (@event T).

Lemma yields_ret {A} (a : A) (R : result A -> list event -> Prop) :
  R (Ok a) [] -> yields (ret a : M A) R.
Proof. intros H w t. exists []. split; [symmetry; apply app_nil_r | exact H]. Qed.

Lemma yields_throw {A} msg (R : result A -> list event -> Prop) :
  R (Thrown (Error msg)) [] -> yields (throw msg : M A) R.
Proof. intros H w t. exists []. split; [symmetry; apply app_nil_r | exact H]. Qed.

Lemma yields_bind {A B} (m : M A) (f : A -> M B) (R : result B -> list event -> Prop) :
  yields m (fun r n1 =>
              match r with
              | Ok a => yields (f a) (fun r' n2 => R r' (n1 ++ n2))
              | Thrown e => R (Thrown e) n1
              end) ->
  yields (bind m f) R.
Proof.
  intros Hm w t. destruct (Hm w t) as (n1 & E1 & H1). unfold bind.
  destruct (m (w, t)) as [[a | e] [w1 t1]]; unfold trace_of in *; simpl in *; subst t1.
  - destruct (H1 w1 (t ++ n1)) as (n2 & E2 & H2). exists (n1 ++ n2).
    unfold trace_of in E2. rewrite E2, app_assoc. split; [reflexivity | exact H2].
  - exists n1. auto.
Qed.

Lemma yields_try_catch {A} (m : M A) (h : error -> M A)
    (R : result A -> list event -> Prop) :
  yields m (fun r n1 =>
              match r with
              | Ok a => R (Ok a) n1
              | Thrown e => yields (h e) (fun r' n2 => R r' (n1 ++ n2))
              end) ->
  yields (try_catch m h) R.
Proof.
  intros Hm w t. destruct (Hm w t) as (n1 & E1 & H1). unfold try_catch.
  destruct (m (w, t)) as [[a | e] [w1 t1]]; unfold trace_of in *; simpl in *; subst t1.
  - exists n1. auto.
  - destruct (H1 w1 (t ++ n1)) as (n2 & E2 & H2). exists (n1 ++ n2).
    unfold trace_of in E2. rewrite E2, app_assoc. split; [reflexivity | exact H2].
Qed.

Lemma yields_callPerplexity arg (R : result text -> list event -> Prop) :
  (forall answer,
     R answer [Completion (match arg with inl p => [user p] | inr l => l end) answer]) ->
  yields (callPerplexity env arg) R.
Proof.
  intros H w t. unfold callPerplexity, trace_of.
  destruct (completion env _ w) as [answer w'] eqn:E. simpl.
  eexists. split; [reflexivity | apply H].
Qed.

Lemma yields_on_map request (R : result unit -> list event -> Prop) :
  (forall r, R r [MapCall request]) -> yields (on_map env request) R.
Proof.
  intros H w t. unfold on_map, trace_of.
  destruct (map_call env request w) as [r w'] eqn:E. simpl.
  eexists. split; [reflexivity | apply H].
Qed.

Lemma yields_callMapboxDirections coordinates mode
    (R : result (option RouteData) -> list event -> Prop) :
  (forall r, R (Ok r) [DirectionsCall coordinates]) ->
  yields (callMapboxDirections env coordinates mode) R.
Proof.
  intros H w t. unfold callMapboxDirections, trace_of.
  destruct (directions env coordinates mode w) as [r w'] eqn:E. simpl.
  eexists. split; [reflexivity | apply H].
Qed.

Lemma yields_impl {A} (m : M A) (R R' : result A -> list event -> Prop) :
  (forall r new, R r new -> R' r new) -> yields m R -> yields m R'.
Proof.
  intros I H w t. destruct (H w t) as (new & E & Q). exists new. auto.
Qed.

Lemma checks_each (P : list event -> event -> list event -> Prop) new :
  checks P [] new -> each_event P new.
Proof.
  assert (G : forall new pre0,
             checks P pre0 new ->
             forall pre e post, new = pre ++ e :: post -> P (pre0 ++ pre) e post).
  { clear new. induction new as [ | x new IH]; intros pre0 C pre e post E.
    - destruct pre; discriminate.
    - destruct C as [Px C]. destruct pre as [ | y pre]; simpl in E.
      + injection E as -> ->. now rewrite app_nil_r.
      + injection E as -> E. specialize (IH _ C _ _ _ E).
        now rewrite <- app_assoc in IH. }
  intros C pre e post E. exact (G new [] C pre e post E).
Qed.

Lemma refinements_nil : refinements ([] : list event) = 0.
Proof. reflexivity. Qed.

Lemma refinements_cons (e : event) new :
  refinements (e :: new) = (if is_refinement e then 1 else 0) + refinements new.
Proof.
  unfold refinements. rewrite filter_cons.
  destruct (decide (is_refinement e = true)) as [D | D].
  - rewrite D. reflexivity.
  - destruct (is_refinement e); [congruence | reflexivity].
Qed.

Lemma is_refinement_last history p (answer : result text) :
  is_refinement (Completion (history ++ [user p]) answer : event) = is_refine p.
Proof. simpl. unfold is_refinement_request. rewrite last_snoc. reflexivity. Qed.

Lemma refinement_last history p :
  is_refinement_request (history ++ [user p]) = is_refine p.
Proof. unfold is_refinement_request. rewrite last_snoc. reflexivity. Qed.

Local Ltac run :=
  repeat first
    [ apply yields_bind
    | apply yields_try_catch
    | apply yields_ret
    | apply yields_throw
    | apply yields_callPerplexity; intros [? | ?]
    | apply yields_on_map; intros [[] | ?]
    | apply yields_callMapboxDirections; intros [? | ]
    | progress cbv beta iota zeta
    | match goal with
      | |- yields (if ?c then _ else _) _ => destruct c eqn:?
      | |- yields (match ?x with _ => _ end) _ => destruct x eqn:?
      end ].

Local Ltac count_refinements :=
  rewrite ?refinements_cons, ?refinements_nil, ?is_refinement_last;
  cbn [is_refinement is_refinement_request last user is_refine Nat.add]; lia.

Local Ltac use_tests :=
  repeat match goal with
  | H : negb _ = true |- _ => apply negb_true_iff in H
  | H : negb _ = false |- _ => apply negb_false_iff in H
  | H : bool_decide _ = true |- _ => apply bool_decide_eq_true_1 in H
  | H : bool_decide _ = false |- _ => apply bool_decide_eq_false_1 in H
  end.

(** A leaf of a run: the events are known one by one. *)
Local Ltac leaf shown :=
  cbn [app]; split;
  [ count_refinements
  | apply checks_each; cbn [checks app]; repeat split; intros ? ? Ev Rq;
    first [ discriminate Ev
          | injection Ev as <- <-;
            first [ rewrite refinement_last in Rq; cbn [is_refine] in Rq; discriminate Rq
                  | cbn in Rq; discriminate Rq
                  | shown ] ] ].

Lemma point_refines_then userMessage aiMessage queryType :
  yields (extractCoordinates (IsochroneData := IsochroneData) env
            userMessage aiMessage queryType)
         (fun _ new => refines_then (fun _ refined post => post = point_shows refined) new).
Proof.
  unfold extractCoordinates, extractCoordinates_body, point_steps, point_validate.
  run; leaf ltac:(first [reflexivity
                        | unfold point_shows; cbv zeta; use_tests;
                          match goal with H : is_none _ = _ |- _ => rewrite H end;
                          reflexivity ]).
Qed.

Local Ltac tests_in_goal :=
  repeat match goal with
  | H : negb _ = true |- _ => apply negb_true_iff in H
  | H : negb _ = false |- _ => apply negb_false_iff in H
  end;
  repeat match goal with
  | H : ?c = _ |- context [if ?c then _ else _] => rewrite H
  end.

Lemma line_refines_then userMessage aiMessage queryType :
  yields (extractLineCoordinates (IsochroneData := IsochroneData) env
            userMessage aiMessage queryType)
         (fun _ new =>
            refines_then (fun _ => line_shows (wants_route userMessage queryType)) new).
Proof.
  unfold extractLineCoordinates, extractLineCoordinates_body, line_steps, line_validate.
  run; leaf ltac:(first [reflexivity
                        | unfold line_shows, wants_route; cbv zeta; tests_in_goal;
                          first [reflexivity | left; reflexivity | right; reflexivity] ]).
Qed.

Lemma rings_of_named (g : nat -> text) (l : list text) :
  fst <$> omap (fun p => p) (imap (fun index polyStr =>
                                     (fun ring => (ring, g index)) <$> ring_of polyStr) l)
  = omap ring_of l.
Proof.
  revert g. induction l as [ | s l IH]; intros g; [reflexivity | ].
  simpl. destruct (ring_of s) as [ring | ]; simpl; [f_equal | ]; exact (IH (g ∘ S)).
Qed.

Lemma polygon_rings_spec isMultiplePolygons final :
  polygon_rings isMultiplePolygons final
  = fst <$> (if isMultiplePolygons && includes final (txt "||") then
               let polygonStrings := trim <$> split final (txt "||") in
               omap (fun p => p)
                 (imap (fun index polyStr =>
                          (fun ring => (ring, polygon_name index)) <$> ring_of polyStr)
                       polygonStrings)
             else
               match ring_of final with
               | Some ring => [(ring, txt "Polygon")]
               | None => []
               end).
Proof.
  unfold polygon_rings. destruct (_ && _).
  - cbv zeta. now rewrite rings_of_named.
  - destruct (ring_of final); reflexivity.
Qed.

Lemma polygon_refines_then userMessage aiMessage queryType :
  yields (extractPolygon (IsochroneData := IsochroneData) env
            userMessage aiMessage queryType)
         (fun _ new => refines_then polygon_shows new).
Proof.
  unfold extractPolygon, extractPolygon_body, polygon_steps, polygon_validate.
  run; leaf ltac:(first [reflexivity
                        | eexists _, _; split; [reflexivity | ];
                          rewrite polygon_rings_spec; cbv zeta;
                          match goal with
                          | H : (if _ && _ then _ else _) = _ |- _ => rewrite H
                          end; reflexivity ]).
Qed.

(** C4: in every run of the point, line or polygon agent there is one
    refinement request at most; once it has returned a text, whatever the
    text, the rest of the run is VALIDATE on this text and nothing else: the
    markers of the text for the point agent; its marker, its line or the
    request of a route through its places and then the route or the line
    for the line agent; its rings, as one polygon or several as the
    refinement request says, for the polygon agent; and nothing when the
    text holds no coordinates.  So no second refinement and no other request
    follows; when the refinement request throws, nothing follows. *)
Theorem refine_at_most_once (userMessage aiMessage : text)
    (queryType : option queryType) :
  yields (extractCoordinates (IsochroneData := IsochroneData) env
            userMessage aiMessage queryType)
         (fun _ new => refines_then (fun _ refined post => post = point_shows refined) new)
  /\ yields (extractLineCoordinates (IsochroneData := IsochroneData) env
               userMessage aiMessage queryType)
            (fun _ new =>
               refines_then (fun _ => line_shows (wants_route userMessage queryType)) new)
  /\ yields (extractPolygon (IsochroneData := IsochroneData) env
               userMessage aiMessage queryType)
            (fun _ new => refines_then polygon_shows new).
Proof.
  split; [apply point_refines_then | ].
  split; [apply line_refines_then | apply polygon_refines_then].
Qed.

End Refinement.


(** ** The buffer agent *)

Section Clustering.

(** The centers a cluster absorbs are added after those it already has. *)
Lemma absorb_head c x :
  forall others otherIndex cluster used,
    head (fst (absorb c otherIndex others (x :: cluster) used)) = Some x.
Proof.
  induction others as [ | other rest IH]; intros otherIndex cluster used; simpl;
    [reflexivity | ].
  destruct (bool_decide (otherIndex ∈ used)); [apply IH | ].
  destruct (nearby c other); [ | apply IH].
  change ((x :: cluster) ++ [other]) with (x :: (cluster ++ [other])). apply IH.
Qed.

(** A center near no unused center absorbs nothing. *)
Lemma absorb_nothing c :
  forall others otherIndex cluster used,
    (forall j cj, others !! j = Some cj -> otherIndex + j ∉ used -> nearby c cj = false) ->
    absorb c otherIndex others cluster used = (cluster, used).
Proof.
  induction others as [ | other rest IH]; intros otherIndex cluster used H; simpl;
    [reflexivity | ].
  assert (Hrest : forall j cj,
             rest !! j = Some cj -> S otherIndex + j ∉ used -> nearby c cj = false).
  { intros j cj L N. apply (H (S j) cj L). replace (otherIndex + S j) with (S otherIndex + j) by lia.
    exact N. }
  destruct (bool_decide_reflect (otherIndex ∈ used)) as [I | I]; [apply IH, Hrest | ].
  rewrite (H 0 other eq_refl) by (rewrite Nat.add_0_r; exact I).
  apply IH, Hrest.
Qed.

(** Every representative is one of the centers. *)
Lemma cluster_loop_subset centers :
  forall todo index clusters used x,
    x ∈ cluster_loop centers index todo clusters used -> x ∈ clusters \/ x ∈ todo.
Proof.
  induction todo as [ | c rest IH]; intros index clusters used x I; simpl in I;
    [auto | ].
  destruct (bool_decide (index ∈ used)).
  - apply IH in I as [I | I]; [auto | right; now constructor].
  - pose proof (absorb_head c c centers 0 [] ({[index]} ∪ used)) as Hd.
    destruct (absorb c 0 centers [c] ({[index]} ∪ used)) as [cluster used'].
    simpl in Hd. rewrite Hd in I. simpl in I.
    apply IH in I as [I | I]; [ | right; now constructor].
    apply elem_of_app in I as [I | I]; [auto | ].
    apply list_elem_of_singleton in I as ->. right. constructor.
Qed.

Lemma clusterNearbyCenters_subset centers x :
  x ∈ clusterNearbyCenters centers -> x ∈ centers.
Proof.
  intros I. apply cluster_loop_subset in I as [I | I]; [ | exact I].
  apply not_elem_of_nil in I. contradiction.
Qed.

Lemma cluster_loop_unchanged centers :
  apart centers ->
  forall todo done clusters used,
    centers = done ++ todo ->
    (forall k, k ∈ used <-> k < length done) ->
    cluster_loop centers (length done) todo clusters used = clusters ++ todo.
Proof.
  intros H. induction todo as [ | c rest IH]; intros done clusters used E U; simpl;
    [now rewrite app_nil_r | ].
  rewrite bool_decide_eq_false_2 by (rewrite U; lia).
  assert (Hc : centers !! length done = Some c).
  { rewrite E. rewrite list_lookup_middle; reflexivity. }
  rewrite absorb_nothing.
  - simpl. specialize (IH (done ++ [c]) (clusters ++ [c]) ({[length done]} ∪ used)).
    assert (L : length (done ++ [c]) = S (length done))
      by (rewrite length_app; simpl; lia).
    rewrite L in IH. rewrite IH.
    + now rewrite <- app_assoc.
    + now rewrite <- app_assoc.
    + intros k. rewrite elem_of_union, elem_of_singleton, U. lia.
  - intros j cj L N. simpl in N.
    apply (H (length done) j c cj); [ | exact Hc | exact L].
    rewrite elem_of_union, elem_of_singleton, U in N. lia.
Qed.

(** What a cluster absorbs is marked as used, and what is left unused is
    not near its first center. *)
Lemma absorb_used c :
  forall others otherIndex cluster used,
    let used' := snd (absorb c otherIndex others cluster used) in
    (forall k, k ∈ used -> k ∈ used') /\
    (forall j cj, others !! j = Some cj -> otherIndex + j ∉ used' -> nearby c cj = false).
Proof.
  induction others as [ | other rest IH]; intros otherIndex cluster used; simpl.
  - split; [auto | intros j cj L; discriminate].
  - assert (Shift : forall j, S otherIndex + j = otherIndex + S j) by (intros; lia).
    destruct (bool_decide_reflect (otherIndex ∈ used)) as [I | I];
      [ | destruct (nearby c other) eqn:Nb].
    + destruct (IH (S otherIndex) cluster used) as [M N]. split; [exact M | ].
      intros [ | j] cj L O.
      * exfalso. apply O. rewrite Nat.add_0_r. apply M, I.
      * apply (N j cj L). rewrite Shift. exact O.
    + destruct (IH (S otherIndex) (cluster ++ [other]) ({[otherIndex]} ∪ used)) as [M N].
      split.
      * intros k Hk. apply M, elem_of_union_r, Hk.
      * intros [ | j] cj L O.
        -- exfalso. apply O. rewrite Nat.add_0_r.
           apply M, elem_of_union_l, elem_of_singleton. reflexivity.
        -- apply (N j cj L). rewrite Shift. exact O.
    + destruct (IH (S otherIndex) cluster used) as [M N]. split; [exact M | ].
      intros [ | j] cj L O.
      * simpl in L. injection L as <-. exact Nb.
      * apply (N j cj L). rewrite Shift. exact O.
Qed.

Lemma apart_snoc clusters c :
  apart clusters -> (forall r, r ∈ clusters -> nearby r c = false) ->
  apart (clusters ++ [c]).
Proof.
  intros A F i j ci cj Lt Li Lj.
  destruct (decide (j < length clusters)) as [Hj | Hj].
  - rewrite lookup_app_l in Li by lia. rewrite lookup_app_l in Lj by lia.
    exact (A i j ci cj Lt Li Lj).
  - destruct (decide (j = length clusters)) as [-> | Hj'].
    + rewrite lookup_app_l in Li by lia.
      rewrite list_lookup_middle in Lj by reflexivity. injection Lj as <-.
      apply F. apply list_elem_of_lookup. eauto.
    + apply lookup_lt_Some in Lj. rewrite length_app in Lj. simpl in Lj. lia.
Qed.

(** The representatives the loop keeps are apart, whatever the centers. *)
Lemma cluster_loop_apart centers :
  forall todo done clusters used,
    centers = done ++ todo ->
    apart clusters ->
    (forall r k ck,
       r ∈ clusters -> centers !! k = Some ck -> k ∉ used -> nearby r ck = false) ->
    apart (cluster_loop centers (length done) todo clusters used).
Proof.
  induction todo as [ | c rest IH]; intros done clusters used E A F; simpl;
    [exact A | ].
  assert (L : length (done ++ [c]) = S (length done))
    by (rewrite length_app; simpl; lia).
  assert (E' : centers = (done ++ [c]) ++ rest) by (now rewrite <- app_assoc).
  destruct (bool_decide_reflect (length done ∈ used)) as [I | I].
  - specialize (IH (done ++ [c]) clusters used E' A F). rewrite L in IH. exact IH.
  - pose proof (absorb_head c c centers 0 [] ({[length done]} ∪ used)) as Hd.
    pose proof (absorb_used c centers 0 [c] ({[length done]} ∪ used)) as [M N].
    destruct (absorb c 0 centers [c] ({[length done]} ∪ used)) as [cluster used'].
    simpl in Hd, M, N. rewrite Hd. simpl.
    specialize (IH (done ++ [c]) (clusters ++ [c]) used' E'). rewrite L in IH.
    apply IH.
    + apply apart_snoc; [exact A | ]. intros r Hr.
      apply (F r (length done) c Hr); [ | exact I].
      rewrite E. apply list_lookup_middle. reflexivity.
    + intros r k ck Hr Lk Nk. apply elem_of_app in Hr as [Hr | Hr].
      * apply (F r k ck Hr Lk). intros Hk. apply Nk, M, elem_of_union_r, Hk.
      * apply list_elem_of_singleton in Hr as ->. exact (N k ck Lk Nk).
Qed.

Lemma clusterNearbyCenters_apart centers : apart (clusterNearbyCenters centers).
Proof.
  apply (cluster_loop_apart centers centers [] [] ∅); [reflexivity | | ].
  - intros i j ci cj _ L. discriminate.
  - intros r k ck Hr. apply not_elem_of_nil in Hr. contradiction.
Qed.

(** The loop over the radius pattern of the buffer agent ends. *)
Lemma radiusPattern_consumes : consumes radiusPattern = true.
Proof. vm_compute. reflexivity. Qed.


(** Clustering twice is clustering once: the representatives are apart. *)
Lemma clusterNearbyCenters_idempotent (centers : list (number * number)) :
  clusterNearbyCenters (clusterNearbyCenters centers) = clusterNearbyCenters centers.
Proof.
  set (reps := clusterNearbyCenters centers). unfold clusterNearbyCenters at 1.
  apply (cluster_loop_unchanged reps (clusterNearbyCenters_apart centers) reps [] [] ∅);
    [reflexivity | ].
  intros k. simpl. rewrite elem_of_empty. lia.
Qed.

End Clustering.


Section Clustered.


(** The other way round, the latitudes 0.3 and -0.19999999999999998 are
    less than half a degree apart as written, but the binary64 difference
    of their doubles is 0.5, and the code keeps both centers. *)
Example clusterNearbyCenters_keeps_closer :
  let centers := [(Num 3 1, Num 105 1); (Num (-19999999999999998) 17, Num 105 1)] in
  within_box (Num 3 1, Num 105 1) (Num (-19999999999999998) 17, Num 105 1) = true
  /\ clusterNearbyCenters centers = centers.
Proof. split; vm_compute; reflexivity. Qed.

(** Two centers of Delhi close to each other are merged into the first. *)
Example clusterNearbyCenters_merges :
  clusterNearbyCenters
    [(Num 286139 4, Num 77209 3); (Num 19076 3, Num 728777 4); (Num 2865 2, Num 7723 2)]
  = [(Num 286139 4, Num 77209 3); (Num 19076 3, Num 728777 4)].
Proof. vm_compute. reflexivity. Qed.

(** A center listed twice is near itself and is kept once. *)
Example clusterNearbyCenters_repeated :
  clusterNearbyCenters [(Num 286139 4, Num 77209 3); (Num 286139 4, Num 77209 3)]
  = [(Num 286139 4, Num 77209 3)].
Proof. vm_compute. reflexivity. Qed.

End Clustered.

Section CenterValidation.

Lemma valid_centers_valid centerPairs :
  Forall (fun c => isInvalid (fst c) (snd c) = false) (valid_centers centerPairs).
Proof.
  unfold valid_centers.
  assert (G : forall acc,
             Forall (fun c => isInvalid (fst c) (snd c) = false) acc ->
             Forall (fun c => isInvalid (fst c) (snd c) = false)
               (foldl (fun centers centerPair =>
                  let '(centerLat, centerLon) := lat_lon centerPair in
                  if negb (isNaN centerLat) && negb (isNaN centerLon) then
                    if negb (isInvalid centerLat centerLon)
                    then centers ++ [(centerLat, centerLon)]
                    else centers
                  else centers) acc centerPairs)).
  { induction centerPairs as [ | p ps IH]; intros acc F; [exact F | ].
    cbn [foldl]. apply IH. destruct (lat_lon p) as [lat lon].
    destruct (negb (isNaN lat) && negb (isNaN lon)); [ | exact F].
    destruct (isInvalid lat lon) eqn:V; simpl; [exact F | ].
    apply Forall_app. split; [exact F | ]. constructor; [exact V | constructor]. }
  apply G. constructor.
Qed.

(** C6, amended: a coordinate that is exactly (0,0), exactly (1,0), within
    0.1 degrees of zero in both latitude and longitude, or beyond 85 degrees
    of latitude, never becomes a buffer center. *)
Theorem buffer_centers_filtered (userMessage : text) (isMultiple : bool)
    (centerCoordinates : text) (lat lon : number) :
  (lat, lon) ∈ buffer_centers userMessage isMultiple centerCoordinates ->
  num_eqb lat (of_Z 0) && num_eqb lon (of_Z 0) = false
  /\ num_eqb lat (of_Z 1) && num_eqb lon (of_Z 0) = false
  /\ num_ltb (num_abs lat) (Num 1 1) && num_ltb (num_abs lon) (Num 1 1) = false
  /\ num_gtb (num_abs lat) (of_Z 85) = false.
Proof.
  intros I. unfold buffer_centers in I.
  assert (V : (lat, lon) ∈
              valid_centers (trim <$> split centerCoordinates (txt " | "))).
  { destruct (isMultiple && _); [apply clusterNearbyCenters_subset | ]; exact I. }
  pose proof (valid_centers_valid (trim <$> split centerCoordinates (txt " | "))) as F.
  rewrite Forall_forall in F. specialize (F _ V). simpl in F. unfold isInvalid in F.
  repeat (apply orb_false_iff in F as [F ?]). auto.
Qed.

End CenterValidation.

(** C6, witness: a center in Delhi passes the filter. *)
Lemma buffer_centers_filtered_witness :
  (Num 286139 4, Num 77209 3)
    ∈ buffer_centers (txt "add 5km buffer around Delhi") false (txt "28.6139,77.209")
  /\ num_gtb (num_abs (Num 286139 4)) (of_Z 85) = false.
Proof.
  assert (I : (Num 286139 4, Num 77209 3)
                ∈ buffer_centers (txt "add 5km buffer around Delhi") false
                    (txt "28.6139,77.209"))
    by (vm_compute; constructor).
  split; [exact I | ].
  apply (buffer_centers_filtered (txt "add 5km buffer around Delhi") false
           (txt "28.6139,77.209") (Num 286139 4) (Num 77209 3) I).
Defined.

(** C6, counterexample: latitude 0.05 is within 0.1 degrees of zero, yet
    (0.05, 50.5) is kept as a buffer center, the longitude being far from
    zero; so is (50.5, 0.05). *)
Lemma near_axis_center_kept :
  num_ltb (num_abs (Num 5 2)) (Num 1 1) = true
  /\ parseCoordinates (txt "0.05,50.5") = txt "0.05,50.5"
  /\ buffer_centers (txt "add 5km buffer here") false (txt "0.05,50.5")
     = [(Num 5 2, Num 505 1)]
  /\ buffer_centers (txt "add 5km buffer here") false (txt "50.5,0.05")
     = [(Num 505 1, Num 5 2)].
Proof. repeat split; vm_compute; reflexivity. Qed.


(** ** The circle generator and the rendered ring *)

Section Circle.

Context {T W RouteData IsochroneData : Type}.
Context (J : arithmetic T) (env : @collaborators T W RouteData IsochroneData).

Local Abbreviation M := (@M T W).
Local Abbreviation event := (@event T).

(** The loop appends the points sampled at [i], [i + 1], ... *)
Lemma circle_loop_spec lat lon latOffset lonOffset numPoints :
  forall todo i points,
    circle_loop J lat lon latOffset lonOffset numPoints todo i points
    = points ++ (circle_point J lat lon latOffset lonOffset numPoints <$> seq i todo).
Proof.
  induction todo as [ | todo IH]; intros i points; simpl.
  - now rewrite app_nil_r.
  - rewrite IH, <- app_assoc. reflexivity.
Qed.

Lemma generateCircle_spec lat lon radiusKm numPoints :
  generateCircle J (lat, lon) radiusKm numPoints
  = circle_point J (inj J lat) (inj J lon) (latOffset_of J radiusKm)
      (lonOffset_of J lat radiusKm) numPoints <$> seq 0 (S numPoints).
Proof. unfold generateCircle. now rewrite circle_loop_spec. Qed.

(** The generator returns [numPoints + 1] points: the first is sampled at
    step 0 and the last at step [numPoints]. *)
Lemma generateCircle_shape center radiusKm numPoints :
  let sample :=
    circle_point J (inj J (fst center)) (inj J (snd center)) (latOffset_of J radiusKm)
      (lonOffset_of J (fst center) radiusKm) numPoints in
  length (generateCircle J center radiusKm numPoints) = numPoints + 1
  /\ head (generateCircle J center radiusKm numPoints) = Some (sample 0)
  /\ last (generateCircle J center radiusKm numPoints) = Some (sample numPoints).
Proof.
  destruct center as [lat lon]. simpl fst. simpl snd. intros sample.
  rewrite generateCircle_spec. fold sample. split; [ | split].
  - rewrite length_fmap, length_seq. lia.
  - reflexivity.
  - replace (S numPoints) with (numPoints + 1) by lia.
    rewrite seq_app, fmap_app. simpl. apply last_snoc.
Qed.

Lemma closed_generated_shape center radiusKm n :
  rendered_shape n (generateCircle J center radiusKm n)
                 (closed_by_first (generateCircle J center radiusKm n)).
Proof.
  unfold rendered_shape, closed_by_first.
  destruct (generateCircle_shape center radiusKm n) as (L & _ & _).
  destruct (generateCircle J center radiusKm n) as [ | first rest]; [simpl in L; lia | ].
  change (take 1 (first :: rest)) with [first]. unfold point in *.
  split; [rewrite length_app, L; simpl; lia | ].
  split; [rewrite last_snoc; reflexivity | ].
  split; [rewrite take_app_length'; [reflexivity | symmetry; exact L] | ].
  rewrite lookup_app_l by (rewrite L; lia). rewrite last_lookup, L.
  f_equal. lia.
Qed.

Local Ltac no_ring := intros ? ? ? ?; discriminate.

Local Ltac trace_step :=
  match goal with
  | |- appends _ (bind _ _) => apply appends_bind; [ | intros ? ]
  | |- appends _ (ret _) => apply appends_ret
  | |- appends _ (throw _) => apply appends_throw
  | |- appends _ (callPerplexity _ _) => apply appends_callPerplexity; intros ?; no_ring
  | |- appends _ (on_map _ _) => apply appends_on_map; no_ring
  | |- appends _ (getSelectedFeature _) => apply appends_getSelectedFeature
  | |- appends _ (match ?x with _ => _ end) => destruct x
  end.

Lemma add_source_ok n index (b : @buffer T) first :
  generated J n b -> head (b_polygon b) = Some first ->
  ring_ok J n (MapCall (AddBufferSource index (b_polygon b ++ [first]) (b_radius b))).
Proof.
  intros (center & G) Hd index' ring radius E. injection E as _ <- <-.
  exists center. rewrite <- G. unfold closed_by_first.
  destruct (b_polygon b); [discriminate | ]. injection Hd as ->. reflexivity.
Qed.

Lemma displayBufferOnMap_rings n b :
  generated J n b -> appends (ring_ok J n) (displayBufferOnMap env b).
Proof.
  intros G. unfold displayBufferOnMap.
  apply appends_bind; [apply appends_on_map; no_ring | intros _].
  destruct (b_polygon b) as [ | first rest] eqn:E; [apply appends_ret | ].
  apply appends_bind; [ | intros _; repeat trace_step].
  apply appends_on_map. rewrite <- E. apply add_source_ok; [exact G | ].
  now rewrite E.
Qed.

Lemma add_buffers_rings n buffersArray :
  Forall (generated J n) buffersArray ->
  forall index, appends (ring_ok J n) (add_buffers env index buffersArray).
Proof.
  induction 1 as [ | b bs G _ IH]; intros index; simpl; [apply appends_ret | ].
  apply appends_bind; [ | intros _; apply IH].
  destruct (b_polygon b) as [ | first rest] eqn:E; [apply appends_ret | ].
  apply appends_bind; [ | intros _; apply appends_on_map; no_ring].
  apply appends_on_map. rewrite <- E. apply add_source_ok; [exact G | ].
  now rewrite E.
Qed.

Lemma displayMultipleBuffersOnMap_rings n buffersArray :
  Forall (generated J n) buffersArray ->
  appends (ring_ok J n) (displayMultipleBuffersOnMap env buffersArray).
Proof.
  intros G. unfold displayMultipleBuffersOnMap.
  apply appends_bind; [apply appends_on_map; no_ring | intros _].
  destruct buffersArray; [apply appends_ret | ].
  apply appends_bind; [apply add_buffers_rings; exact G | intros _].
  apply appends_on_map; no_ring.
Qed.

Lemma Forall_imap {A B} (P : B -> Prop) (l : list A) :
  forall (f : nat -> A -> B), (forall i x, P (f i x)) -> Forall P (imap f l).
Proof.
  induction l as [ | x l IH]; intros f H; simpl; constructor; [apply H | ].
  apply IH. intros i y. apply H.
Qed.

Lemma appends_impl (P Q : event -> Prop) {A} (m : M A) :
  (forall e, P e -> Q e) -> appends P m -> appends Q m.
Proof.
  intros I H w t. destruct (H w t) as (new & E & F). exists new. split; [exact E | ].
  eapply Forall_impl; eassumption.
Qed.

Lemma extractBuffer_rings userMessage aiMessage queryType :
  appends (ring_ok J default_numPoints)
          (extractBuffer (IsochroneData := IsochroneData) J env
             userMessage aiMessage queryType).
Proof.
  unfold extractBuffer. apply appends_try_catch; [ | intros e; apply appends_ret].
  unfold extractBuffer_body. cbv zeta.
  apply appends_bind; [unfold buffer_center_text; repeat trace_step | ].
  intros extractCenterResponse.
  destruct (is_none _); [apply appends_ret | ].
  destruct (buffer_centers _ _ _) as [ | c centers]; [apply appends_ret | ].
  apply appends_bind; [unfold buffer_radii; repeat trace_step | ].
  intros radiusMatches.
  apply appends_bind; [ | intros _; apply appends_ret].
  match goal with
  | |- context [imap ?f (c :: centers)] =>
      assert (G : Forall (generated J default_numPoints) (imap f (c :: centers)))
  end.
  { apply Forall_imap. intros i [lat lon]. eexists. reflexivity. }
  destruct (_ && _); [apply displayMultipleBuffersOnMap_rings; exact G | ].
  simpl imap in *. apply displayBufferOnMap_rings. now apply Forall_inv in G.
Qed.

Lemma ask_all_app l1 l2 s :
  ask_all env (l1 ++ l2) s = bind (ask_all env l1) (fun _ => ask_all env l2) s.
Proof.
  revert s. induction l1 as [ | r l1 IH]; intros s; [reflexivity | ].
  cbn [app ask_all]. unfold bind.
  destruct (on_map env r s) as [[[] | e] s1]; [ | reflexivity].
  rewrite IH. reflexivity.
Qed.

Lemma ask_one request s : ask_all env [request] s = on_map env request s.
Proof.
  cbn [ask_all]. unfold bind. destruct (on_map env request s) as [[[] | e] s1]; reflexivity.
Qed.

Lemma displayBufferOnMap_asks (b : @buffer T) :
  b_polygon b <> [] ->
  forall s, displayBufferOnMap env b s = ask_all env (single_display b) s.
Proof.
  intros N s. unfold displayBufferOnMap, single_display, closed_by_first.
  destruct (b_polygon b) as [ | first rest]; [contradiction | ].
  cbn [take app ask_all]. unfold bind.
  destruct (on_map env ClearOverlays s) as [[[] | e] s1]; [ | reflexivity].
  destruct (on_map env (AddBufferSource _ _ _) s1) as [[[] | e] s2]; [ | reflexivity].
  destruct (on_map env (DecorateBuffer _) s2) as [[[] | e] s3]; [ | reflexivity].
  destruct (on_map env FitBufferBounds s3) as [[[] | e] s4]; reflexivity.
Qed.

Lemma add_buffers_asks (buffersArray : list (@buffer T)) :
  Forall (fun b => b_polygon b <> []) buffersArray ->
  forall index s,
    add_buffers env index buffersArray s
    = ask_all env (buffer_sources index buffersArray) s.
Proof.
  induction 1 as [ | b bs N _ IH]; intros index s; [reflexivity | ].
  cbn [add_buffers buffer_sources ask_all]. unfold closed_by_first.
  destruct (b_polygon b) as [ | first rest]; [contradiction | ].
  cbn [take app]. unfold bind.
  destruct (on_map env (AddBufferSource _ _ _) s) as [[[] | e] s1]; [ | reflexivity].
  destruct (on_map env (DecorateBuffer _) s1) as [[[] | e] s2]; [ | reflexivity].
  apply IH.
Qed.

Lemma displayMultipleBuffersOnMap_asks (buffersArray : list (@buffer T)) :
  buffersArray <> [] ->
  Forall (fun b => b_polygon b <> []) buffersArray ->
  forall s,
    displayMultipleBuffersOnMap env buffersArray s
    = ask_all env (multiple_display buffersArray) s.
Proof.
  intros N F s. unfold displayMultipleBuffersOnMap, multiple_display.
  destruct buffersArray as [ | b bs]; [contradiction | ].
  cbn [ask_all]. unfold bind at 1 3.
  destruct (on_map env ClearOverlays s) as [[[] | e] s1]; [ | reflexivity].
  rewrite ask_all_app. unfold bind.
  rewrite (add_buffers_asks _ F 0 s1).
  destruct (ask_all _ _ s1) as [[[] | e] s2]; [ | reflexivity].
  symmetry. apply ask_one.
Qed.

(** C10: the generated circle of [numPoints] segments, closed by its first
    point, has [numPoints + 2] vertices, its last vertex is its first, and
    its vertex at position [numPoints] is the closing vertex that the
    generator made.  Both displays close every polygon that is not empty in
    this way and hand it to the map: a display is the list of its requests,
    made of the map one after the other up to the first that throws.  And
    every ring that a run of the buffer agent hands to the map, with a
    radius, is the circle of 64 segments generated with this radius around
    some center and closed in this way: it has this shape. *)
Theorem rendered_ring_has_two_closing_vertices (userMessage aiMessage : text)
    (queryType : option queryType) :
  (forall center radiusKm numPoints,
     rendered_shape numPoints (generateCircle J center radiusKm numPoints)
       (closed_by_first (generateCircle J center radiusKm numPoints)))
  /\ (forall bufferData,
        b_polygon bufferData <> [] ->
        forall s, displayBufferOnMap env bufferData s
                  = ask_all env (single_display bufferData) s)
  /\ (forall buffersArray,
        buffersArray <> [] ->
        Forall (fun bufferData => b_polygon bufferData <> []) buffersArray ->
        forall s, displayMultipleBuffersOnMap env buffersArray s
                  = ask_all env (multiple_display buffersArray) s)
  /\ appends (fun e => forall index ring radius,
                         e = MapCall (AddBufferSource index ring radius) ->
                         exists center,
                           ring = closed_by_first
                                    (generateCircle J center radius default_numPoints)
                           /\ rendered_shape default_numPoints
                                (generateCircle J center radius default_numPoints) ring)
             (extractBuffer (IsochroneData := IsochroneData) J env
                userMessage aiMessage queryType).
Proof.
  split; [apply closed_generated_shape | ].
  split; [apply displayBufferOnMap_asks | ].
  split; [apply displayMultipleBuffersOnMap_asks | ].
  eapply appends_impl; [ | apply extractBuffer_rings].
  intros e H index ring radius E. destruct (H index ring radius E) as [center ->].
  exists center. split; [reflexivity | apply closed_generated_shape].
Qed.

End Circle.

(** C10, witness: the display of a buffer of 50 km around a marker hands
    the map a ring of 66 vertices. *)
Lemma rendered_ring_has_two_closing_vertices_witness :
  let bufferData :=
    BufferData (of_Z (-74), of_Z 40) (of_Z 50)
               (generateCircle no_arithmetic (of_Z 40, of_Z (-74)) (of_Z 50) 64) in
  b_polygon bufferData <> []
  /\ displayBufferOnMap scripted bufferData ([], None, [])
     = (Ok tt,
        ([], None,
         [ MapCall ClearOverlays;
           MapCall (AddBufferSource None (replicate 66 (tt, tt)) (of_Z 50));
           MapCall (DecorateBuffer None);
           MapCall FitBufferBounds ])).
Proof.
  intros bufferData.
  assert (N : b_polygon bufferData <> []) by (vm_compute; discriminate).
  split; [exact N | ].
  destruct (rendered_ring_has_two_closing_vertices
              (IsochroneData := unit) no_arithmetic scripted [] [] None)
    as (_ & D & _).
  rewrite (D bufferData N). vm_compute. reflexivity.
Defined.


Section CircleClosure.

Context {T : Type} (J : arithmetic T).



End CircleClosure.

Section CircleInReals.

Import Rdefinitions Raxioms RIneq Rtrigo_def Rtrigo1.



End CircleInReals.

Section CircleInDoubles.

(** In double arithmetic the last angle of a circle of 64 segments is the
    double nearest to twice pi. *)
Example last_angle_double :
  mul doubles (mul doubles (div doubles (of_nat doubles 64) (of_nat doubles 64))
                           (of_nat doubles 2)) (Math_PI doubles)
  = Some two_pi_double.
Proof. vm_compute. reflexivity. Qed.


End CircleInDoubles.


(** ** Scenarios *)

Section Scenarios.

(** The extraction returns one pair where a route needs two: one refinement
    request follows, and VALIDATE goes on with its answer, although it still
    holds a single pair (shown as a point). *)
Example refine_once_scenario :
  extractLineCoordinates (IsochroneData := unit) scripted route_query []
    (Some (QueryType Line RouteSingle))
    ([Ok (txt "40.7,-74.0"); Ok (txt "40.7,-74.0")], None, [])
  = (Ok Undefined,
     ([], None,
      [ Completion [user (LineExtract true route_query [])] (Ok (txt "40.7,-74.0"));
        Completion [user (LineExtract true route_query []);
                    assistant (txt "40.7,-74.0");
                    user (LineRefine true (txt "40.7,-74.0"))]
                   (Ok (txt "40.7,-74.0"));
        MapCall (ShowPoints (txt "40.7,-74")) ])).
Proof. vm_compute. reflexivity. Qed.

(** Two pairs in the first answer: no request at all, and the route is
    asked of the routing collaborator. *)
Example route_scenario :
  extractLineCoordinates (IsochroneData := unit) scripted
    (txt "show me route from San Francisco to Los Angeles")
    (txt "San Francisco is at 37.7749,-122.4194 and Los Angeles at 34.0522,-118.2437")
    (Some (QueryType Line RouteSingle)) ([], None, [])
  = (Ok Undefined,
     ([], None,
      [ DirectionsCall [(Num (-1224194) 4, Num 377749 4); (Num (-1182437) 4, Num 340522 4)];
        MapCall (ShowRoute
                   [(Num (-1224194) 4, Num 377749 4); (Num (-1182437) 4, Num 340522 4)]) ])).
Proof. vm_compute. reflexivity. Qed.

(** A buffer around the selected marker: no request to the text-completion
    collaborator, a radius of 50 km, and a ring of 66 vertices. *)
Example buffer_scenario :
  let run :=
    extractBuffer (IsochroneData := unit) no_arithmetic scripted
      (txt "add 50km buffer around this point") []
      (Some (QueryType Buffer Single)) ([], Some marker_at_40_minus_74, []) in
  fst run = Ok Undefined
  /\ snd (snd run)
     = [ MapCall ClearOverlays;
         MapCall (AddBufferSource None (replicate 66 (tt, tt)) (of_Z 50));
         MapCall (DecorateBuffer None);
         MapCall FitBufferBounds ].
Proof. split; vm_compute; reflexivity. Qed.

(** The isochrone agent on the comma list: only 45 minutes is asked of the
    isochrone collaborator. *)
Example isochrone_scenario :
  trace_of
    (extractIsochrone scripted (txt "15, 30, 45 min drive zone from Delhi") []
       (Some (QueryType Isochrone Multiple)) ([Ok (txt "28.6139,77.209")], None, []))
  = [ Completion
        [user (IsochroneLocation (txt "15, 30, 45 min drive zone from Delhi") [])]
        (Ok (txt "28.6139,77.209"));
      IsochroneCall (T := unit) (Some [of_Z 45]) None ].
Proof. vm_compute. reflexivity. Qed.

End Scenarios.

Section TimeFirst.

Context {T W RouteData IsochroneData : Type}.
Context (env : @collaborators T W RouteData IsochroneData).

(** Whatever the isochrone agent asks of the isochrone collaborator, it asks
    by time when the time values are not empty, and then without distances. *)
Lemma isochrone_prefers_time userMessage aiMessage queryType :
  appends (fun e => forall minutes meters,
             e = IsochroneCall minutes meters ->
             let timeValues :=
               extractTimeValues (toLowerCase (userMessage ++ txt " " ++ aiMessage)) in
             timeValues <> [] -> minutes = Some timeValues /\ meters = None)
          (extractIsochrone env userMessage aiMessage queryType).
Proof.
  unfold extractIsochrone. apply appends_try_catch; [ | intros e; apply appends_ret].
  unfold extractIsochrone_body. cbv zeta.
  apply appends_bind.
  { destruct queryType; [apply appends_ret | ].
    apply appends_bind; [ | intros ?; apply appends_ret].
    apply appends_callPerplexity. intros ? ? ?. discriminate. }
  intros _. apply appends_bind.
  { apply appends_callPerplexity. intros ? ? ?. discriminate. }
  intros locationResponse. apply appends_bind.
  { unfold isochrone_center.
    repeat match goal with
           | |- appends _ (ret _) => apply appends_ret
           | |- appends _ (throw _) => apply appends_throw
           | |- appends _ (here _) => apply appends_here
           | |- appends _ (match ?x with _ => _ end) => destruct x
           end. }
  intros coordinates.
  destruct (isNaN _ || isNaN _); [apply appends_throw | ].
  destruct (extractTimeValues _) as [ | v vs] eqn:E; simpl.
  - destruct (_ && _); [ | apply appends_throw].
    apply appends_bind; [ | intros [d | ]; [apply appends_ret | apply appends_throw]].
    apply appends_callMapboxIsochrone. intros minutes meters _ N. congruence.
  - apply appends_bind; [ | intros [d | ]; [apply appends_ret | apply appends_throw]].
    apply appends_callMapboxIsochrone. intros minutes meters Q _.
    injection Q as <- <-. split; [reflexivity | ].
    now rewrite andb_false_r.
Qed.

End TimeFirst.


(** * Further properties *)


(** ** Order of the numbers *)

Section NumberOrder.

Lemma pow10_pos n : (0 < pow10 n)%Z.
Proof. unfold pow10. apply Z.pow_pos_nonneg; lia. Qed.

Lemma num_eqb_sym a b : num_eqb a b = num_eqb b a.
Proof.
  destruct a as [ | m1 s1], b as [ | m2 s2]; simpl; try reflexivity.
  unfold cmp. rewrite (Z.compare_antisym (m1 * pow10 s2) (m2 * pow10 s1)).
  destruct (m1 * pow10 s2 ?= m2 * pow10 s1)%Z; reflexivity.
Qed.

Lemma num_ltb_spec m1 s1 m2 s2 :
  num_ltb (Num m1 s1) (Num m2 s2) = true <-> (m1 * pow10 s2 < m2 * pow10 s1)%Z.
Proof.
  unfold num_ltb, cmp.
  destruct (Z.compare_spec (m1 * pow10 s2) (m2 * pow10 s1)); split;
    first [discriminate | reflexivity | lia].
Qed.

Lemma num_leb_spec m1 s1 m2 s2 :
  num_leb (Num m1 s1) (Num m2 s2) = true <-> (m1 * pow10 s2 <= m2 * pow10 s1)%Z.
Proof.
  unfold num_leb, cmp.
  destruct (Z.compare_spec (m1 * pow10 s2) (m2 * pow10 s1)); split;
    first [discriminate | reflexivity | lia].
Qed.

Lemma num_eqb_spec m1 s1 m2 s2 :
  num_eqb (Num m1 s1) (Num m2 s2) = true <-> (m1 * pow10 s2 = m2 * pow10 s1)%Z.
Proof.
  unfold num_eqb, cmp.
  destruct (Z.compare_spec (m1 * pow10 s2) (m2 * pow10 s1)); split;
    first [discriminate | reflexivity | lia].
Qed.

Lemma num_ltb_trans a b c :
  num_ltb a b = true -> num_ltb b c = true -> num_ltb a c = true.
Proof.
  destruct a as [ | m1 s1], b as [ | m2 s2], c as [ | m3 s3]; try discriminate.
  rewrite !num_ltb_spec. intros H1 H2.
  pose proof (pow10_pos s1). pose proof (pow10_pos s2). pose proof (pow10_pos s3).
  apply (Z.mul_lt_mono_pos_r (pow10 s2)); [assumption | ].
  apply (Z.lt_trans _ (m2 * pow10 s1 * pow10 s3)).
  - replace (m1 * pow10 s3 * pow10 s2)%Z with (m1 * pow10 s2 * pow10 s3)%Z by ring.
    apply Z.mul_lt_mono_pos_r; assumption.
  - replace (m2 * pow10 s1 * pow10 s3)%Z with (m2 * pow10 s3 * pow10 s1)%Z by ring.
    replace (m3 * pow10 s1 * pow10 s2)%Z with (m3 * pow10 s2 * pow10 s1)%Z by ring.
    apply Z.mul_lt_mono_pos_r; assumption.
Qed.

(** Two numbers that are not equal are ordered one way or the other. *)
Lemma num_order a b :
  isNaN a = false -> isNaN b = false -> num_eqb a b = false ->
  if num_leb a b then num_ltb a b = true else num_ltb b a = true.
Proof.
  destruct a as [ | m1 s1], b as [ | m2 s2]; try discriminate. intros _ _ E.
  destruct (num_leb (Num m1 s1) (Num m2 s2)) eqn:L.
  - apply num_leb_spec in L. apply num_ltb_spec.
    destruct (Z.eq_dec (m1 * pow10 s2)%Z (m2 * pow10 s1)%Z) as [Q | Q]; [ | lia].
    apply num_eqb_spec in Q. congruence.
  - apply num_ltb_spec.
    destruct (Z_lt_le_dec (m2 * pow10 s1)%Z (m1 * pow10 s2)%Z) as [Q | Q]; [exact Q | ].
    apply num_leb_spec in Q. congruence.
Qed.

Lemma num_gtb_not_NaN v z : num_gtb v z = true -> isNaN v = false.
Proof. destruct v, z; simpl; try discriminate; reflexivity. Qed.

End NumberOrder.

(** ** Contour values *)

Section Contours.

(** What holds at the start of a loop over the matches of a pattern and is
    kept by its body holds when the loop is over. *)
Lemma each_match_invariant {S : Type} (P : S -> Prop) r s
    (body : rmatch_result -> S -> S) a :
  P a -> (forall m a, P a -> P (body m a)) -> P (each_match r s body a).
Proof.
  intros Ha Hb. unfold each_match.
  assert (G : forall fuel c a, P a ->
                forall a', while_exec fuel r c body a = Some a' -> P a').
  { induction fuel as [ | fuel IH]; intros c a0 H0 a' E; [discriminate | ].
    simpl in E. destruct (search r c) as [m | ].
    - apply (IH (m_end m) (body m a0)); [apply Hb, H0 | exact E].
    - injection E as <-. exact H0. }
  destruct (while_exec _ r _ body a) as [a' | ] eqn:E; simpl; [ | exact Ha].
  apply (G _ _ _ Ha _ E).
Qed.

Lemma set_of_spec l :
  forall seen,
    Forall (fun y => y ∈ l /\ Forall (fun s => num_eqb y s = false) seen)
           (set_of seen l)
    /\ StronglySorted (fun a b => num_eqb a b = false) (set_of seen l).
Proof.
  induction l as [ | x l IH]; intros seen; simpl; [split; constructor | ].
  destruct (existsb (num_eqb x) seen) eqn:E.
  - destruct (IH seen) as [F S]. split; [ | exact S].
    eapply Forall_impl; [exact F | ]. simpl. intros y [I N]. split; [now constructor | exact N].
  - destruct (IH (x :: seen)) as [F S]. split.
    + constructor.
      * split; [constructor | ]. apply Forall_forall. intros s Hs.
        destruct (num_eqb x s) eqn:Q; [ | reflexivity].
        assert (X : existsb (num_eqb x) seen = true).
        { apply existsb_exists. exists s. split; [now apply list_elem_of_In | exact Q]. }
        congruence.
      * eapply Forall_impl; [exact F | ]. simpl. intros y [I N].
        split; [now constructor | ]. now apply Forall_inv_tail in N.
    + constructor; [exact S | ].
      eapply Forall_impl; [exact F | ]. simpl. intros y [_ N].
      apply Forall_inv in N. now rewrite num_eqb_sym.
Qed.

Lemma insert_sorted_elem x l y : y ∈ insert_sorted x l -> y = x \/ y ∈ l.
Proof.
  induction l as [ | z l IH]; simpl.
  - intros I. apply list_elem_of_singleton in I. auto.
  - destruct (num_leb x z).
    + intros I. apply elem_of_cons in I. tauto.
    + intros I. apply elem_of_cons in I as [-> | I]; [right; constructor | ].
      apply IH in I as [-> | I]; [auto | right; now constructor].
Qed.

Lemma sort_elem l y : y ∈ sort l -> y ∈ l.
Proof.
  induction l as [ | x l IH]; simpl; [auto | ].
  intros I. apply insert_sorted_elem in I as [-> | I]; [constructor | ].
  constructor. apply IH, I.
Qed.

Lemma sort_length l : length (sort l) = length l.
Proof.
  assert (G : forall x l, length (insert_sorted x l) = S (length l)).
  { intros x. induction l0 as [ | z l0 IH]; simpl; [reflexivity | ].
    destruct (num_leb x z); simpl; [reflexivity | now rewrite IH]. }
  induction l as [ | x l IH]; simpl; [reflexivity | ]. now rewrite G, IH.
Qed.

Lemma insert_sorted_strict x l :
  isNaN x = false -> Forall (fun y => isNaN y = false) l ->
  Forall (fun y => num_eqb x y = false) l ->
  StronglySorted (fun a b => num_ltb a b = true) l ->
  StronglySorted (fun a b => num_ltb a b = true) (insert_sorted x l).
Proof.
  intros Nx. induction l as [ | z l IH]; intros Nl D S; simpl.
  - repeat constructor.
  - apply Forall_cons in Nl as [Nz Nl]. apply Forall_cons in D as [Dz D].
    apply StronglySorted_inv in S as [S Fz].
    pose proof (num_order x z Nx Nz Dz) as O. destruct (num_leb x z).
    + constructor; [constructor; assumption | ]. constructor; [exact O | ].
      eapply Forall_impl; [exact Fz | ]. simpl. intros y. apply num_ltb_trans, O.
    + constructor; [apply IH; assumption | ]. apply Forall_forall. intros y I.
      apply insert_sorted_elem in I as [-> | I]; [exact O | ].
      rewrite Forall_forall in Fz. apply Fz, I.
Qed.

Lemma sort_strict l :
  Forall (fun y => isNaN y = false) l ->
  StronglySorted (fun a b => num_eqb a b = false) l ->
  StronglySorted (fun a b => num_ltb a b = true) (sort l).
Proof.
  induction l as [ | x l IH]; intros N S; simpl; [constructor | ].
  apply Forall_cons in N as [Nx N]. apply StronglySorted_inv in S as [S D].
  apply insert_sorted_strict; [exact Nx | | | apply IH; assumption].
  - apply Forall_forall. intros y I. rewrite Forall_forall in N. apply N, sort_elem, I.
  - apply Forall_forall. intros y I. rewrite Forall_forall in D. apply D, sort_elem, I.
Qed.

Lemma StronglySorted_take {A} (R : A -> A -> Prop) n l :
  StronglySorted R l -> StronglySorted R (take n l).
Proof.
  intros S. revert n. induction S as [ | x l S IH F]; intros [ | n]; simpl;
    try constructor; [apply IH | ].
  apply Forall_take, F.
Qed.

(** The values kept, without repetition, sorted and capped, are contours. *)
Lemma contours_of limit (values : list number) :
  Forall (fun v => num_gtb v (of_Z 0) = true /\ num_leb v (of_Z limit) = true) values ->
  contours limit (take 4 (sort (set_of [] values))).
Proof.
  intros F. destruct (set_of_spec values []) as [I S].
  assert (R : Forall (fun v => num_gtb v (of_Z 0) = true
                               /\ num_leb v (of_Z limit) = true) (set_of [] values)).
  { apply Forall_forall. intros y Hy. rewrite Forall_forall in I, F.
    apply F, (I y Hy). }
  split; [rewrite length_take; lia | ]. split.
  - apply Forall_take. apply Forall_forall. intros y Hy. rewrite Forall_forall in R.
    apply R, sort_elem, Hy.
  - apply StronglySorted_take, sort_strict; [ | exact S].
    eapply Forall_impl; [exact R | ]. intros v [G _].
    exact (num_gtb_not_NaN _ _ G).
Qed.

Lemma times_in_range query :
  Forall (fun v => num_gtb v (of_Z 0) = true /\ num_leb v (of_Z 60) = true)
    (foldl (fun times pattern => each_match pattern query visit_time times)
           [] time_patterns).
Proof.
  assert (G : forall patterns times,
             Forall (fun v => num_gtb v (of_Z 0) = true /\ num_leb v (of_Z 60) = true)
                    times ->
             Forall (fun v => num_gtb v (of_Z 0) = true /\ num_leb v (of_Z 60) = true)
               (foldl (fun times pattern => each_match pattern query visit_time times)
                      times patterns)).
  { induction patterns as [ | r rs IH]; intros times F; simpl; [exact F | ].
    apply IH. apply each_match_invariant; [exact F | ].
    intros m a Fa. unfold visit_time.
    match goal with
    | |- context [if ?c then _ else _] => destruct c eqn:C
    end; [ | exact Fa].
    apply andb_true_iff in C. apply Forall_app. split; [exact Fa | ].
    constructor; [exact C | constructor]. }
  apply G. constructor.
Qed.

Lemma distances_in_range query :
  Forall (fun v => num_gtb v (of_Z 0) = true /\ num_leb v (of_Z 100000) = true)
    (each_match distance_pattern query visit_distance []).
Proof.
  apply each_match_invariant; [constructor | ].
  intros m a Fa. unfold visit_distance.
  match goal with
  | |- context [if ?c then _ else _] => destruct c eqn:C
  end; [ | exact Fa].
  apply andb_true_iff in C. apply Forall_app. split; [exact Fa | ].
  constructor; [exact C | constructor].
Qed.

Lemma extractTimeValues_contours_aux query : contours 60 (extractTimeValues query).
Proof. apply contours_of, times_in_range. Qed.

Lemma extractDistanceValues_contours_aux query :
  contours 100000 (extractDistanceValues query).
Proof. apply contours_of, distances_in_range. Qed.

(** X1: whatever the query, the minutes extracted from it are at most four
    values, each above 0 and at most 60, in strictly increasing order (so
    without repetition). *)
Theorem extractTimeValues_contours (query : text) :
  contours 60 (extractTimeValues query).
Proof. apply contours_of, times_in_range. Qed.

(** X2: whatever the query, the meters extracted from it are at most four
    values, each above 0 and at most 100000, in strictly increasing order. *)
Theorem extractDistanceValues_contours (query : text) :
  contours 100000 (extractDistanceValues query).
Proof. apply contours_of, distances_in_range. Qed.

End Contours.

(** ** The pairs the parser returns *)

Section ParserPairs.

Lemma dedup_spec l :
  forall old, NoDup (dedup l old) /\ forall k, k ∈ dedup l old -> k ∈ l /\ k ∉ old.
Proof.
  induction l as [ | x l IH]; intros old; simpl.
  - split; [constructor | ]. intros k I. apply not_elem_of_nil in I. contradiction.
  - destruct (bool_decide_reflect (x ∈ old)) as [I | I].
    + destruct (IH old) as [N E]. split; [exact N | ].
      intros k Hk. destruct (E k Hk). split; [now constructor | assumption].
    + destruct (IH (x :: old)) as [N E]. split.
      * constructor; [ | exact N]. intros Hx. destruct (E x Hx) as [_ X].
        apply X. constructor.
      * intros k Hk. apply elem_of_cons in Hk as [-> | Hk]; [split; [constructor | exact I] | ].
        destruct (E k Hk) as [H1 H2]. split; [now constructor | ].
        intros Ho. apply H2. now constructor.
Qed.

Lemma pass_keys_in_range r s k : k ∈ pass_keys r s -> pair_in_range k.
Proof.
  unfold pass_keys. intros I. apply list_elem_of_fmap in I as (m & -> & I).
  apply list_elem_of_filter in I as [V _]. exists (lat_of m), (lon_of m).
  split; [reflexivity | exact V].
Qed.

Lemma parseCoordinates_answer (s : text) :
  parseCoordinates s = none \/ parsed_pairs (parseCoordinates s).
Proof.
  rewrite parseCoordinates_pairs. destruct s as [ | c s]; [now left | ].
  destruct (includes _ none); [now left | ].
  destruct (returned_pairs (c :: s)) as [ | k ks] eqn:E; [now left | ].
  right. exists (k :: ks). split; [reflexivity | ]. split; [discriminate | ].
  rewrite <- E, returned_pairs_spec.
  destruct (dedup_spec (pass_keys pattern1 (c :: s) ++ pass_keys pattern2 (c :: s)
                        ++ pass_keys pattern3 (c :: s)) []) as [N I].
  split; [exact N | ]. apply Forall_forall. intros x Hx. destruct (I x Hx) as [Hk _].
  apply elem_of_app in Hk as [Hk | Hk]; [exact (pass_keys_in_range _ _ _ Hk) | ].
  apply elem_of_app in Hk as [Hk | Hk]; exact (pass_keys_in_range _ _ _ Hk).
Qed.

(** X3: the coordinate parser answers [none], or the pairs it found joined
    by [ | ]: at least one pair, no pair twice, and every pair with a
    latitude from -90 to 90 and a longitude from -180 to 180. *)
Theorem parseCoordinates_distinct_in_range (s : text) :
  parseCoordinates s = none \/ parsed_pairs (parseCoordinates s).
Proof. apply parseCoordinates_answer. Qed.

End ParserPairs.

(** ** What clustering keeps *)

Section ClusterCover.

Lemma absorb_marks c :
  forall others otherIndex cluster used k,
    k ∈ snd (absorb c otherIndex others cluster used) ->
    k ∈ used
    \/ exists j cj, k = otherIndex + j /\ others !! j = Some cj /\ nearby c cj = true.
Proof.
  induction others as [ | other rest IH]; intros otherIndex cluster used k; simpl;
    [auto | ].
  assert (Shift : forall j, S otherIndex + j = otherIndex + S j) by (intros; lia).
  destruct (bool_decide (otherIndex ∈ used)); [ | destruct (nearby c other) eqn:Nb].
  - intros I. apply IH in I as [I | (j & cj & -> & L & N)]; [auto | ].
    right. exists (S j), cj. rewrite Shift. auto.
  - intros I. apply IH in I as [I | (j & cj & -> & L & N)].
    + apply elem_of_union in I as [I | I]; [ | auto].
      apply elem_of_singleton in I as ->. right. exists 0, other.
      rewrite Nat.add_0_r. auto.
    + right. exists (S j), cj. rewrite Shift. auto.
  - intros I. apply IH in I as [I | (j & cj & -> & L & N)]; [auto | ].
    right. exists (S j), cj. rewrite Shift. auto.
Qed.

Lemma cluster_loop_cover centers :
  forall todo done clusters used,
    centers = done ++ todo ->
    (forall k, k < length done -> k ∈ used) ->
    (forall k ck, k ∈ used -> centers !! k = Some ck ->
                  exists r, r ∈ clusters /\ (r = ck \/ nearby r ck = true)) ->
    exists kept,
      cluster_loop centers (length done) todo clusters used = clusters ++ kept
      /\ sublist kept todo
      /\ forall ck, ck ∈ centers ->
                    exists r, r ∈ clusters ++ kept /\ (r = ck \/ nearby r ck = true).
Proof.
  induction todo as [ | c rest IH]; intros done clusters used E U I; simpl.
  - exists []. rewrite app_nil_r. split; [reflexivity | ]. split; [constructor | ].
    intros ck Hck. apply list_elem_of_lookup in Hck as [k Hk].
    apply (I k ck); [ | exact Hk]. apply U. apply lookup_lt_Some in Hk.
    rewrite E, app_nil_r in Hk. exact Hk.
  - assert (L : length (done ++ [c]) = S (length done))
      by (rewrite length_app; simpl; lia).
    assert (E' : centers = (done ++ [c]) ++ rest) by (now rewrite <- app_assoc).
    destruct (bool_decide_reflect (length done ∈ used)) as [Hu | Hu].
    + destruct (IH (done ++ [c]) clusters used E') as (kept & Q & S & C).
      * intros k Hk. rewrite L in Hk.
        destruct (decide (k = length done)) as [-> | N]; [exact Hu | apply U; lia].
      * exact I.
      * rewrite L in Q. exists kept. split; [exact Q | ]. split; [ | exact C].
        now apply sublist_cons.
    + pose proof (absorb_head c c centers 0 [] ({[length done]} ∪ used)) as Hd.
      pose proof (absorb_used c centers 0 [c] ({[length done]} ∪ used)) as [M _].
      pose proof (absorb_marks c centers 0 [c] ({[length done]} ∪ used)) as A.
      destruct (absorb c 0 centers [c] ({[length done]} ∪ used)) as [cluster used'].
      simpl in Hd, M, A. rewrite Hd. simpl.
      destruct (IH (done ++ [c]) (clusters ++ [c]) used' E') as (kept & Q & S & C).
      * intros k Hk. rewrite L in Hk. apply M.
        destruct (decide (k = length done)) as [-> | N].
        -- apply elem_of_union_l, elem_of_singleton. reflexivity.
        -- apply elem_of_union_r, U. lia.
      * intros k ck Hk Lk. apply A in Hk as [Hk | (j & cj & -> & Lj & Nj)].
        -- apply elem_of_union in Hk as [Hk | Hk].
           ++ apply elem_of_singleton in Hk as ->. exists c.
              split; [apply elem_of_app; right; constructor | ]. left.
              rewrite E, list_lookup_middle in Lk by reflexivity. congruence.
           ++ destruct (I k ck Hk Lk) as (r & Hr & R). exists r.
              split; [apply elem_of_app; now left | exact R].
        -- simpl in Lk. rewrite Lj in Lk. injection Lk as <-. exists c.
           split; [apply elem_of_app; right; constructor | now right].
      * rewrite L in Q. exists (c :: kept). rewrite Q, <- app_assoc.
        split; [reflexivity | ]. split; [now apply sublist_skip | ].
        intros ck Hck. destruct (C ck Hck) as (r & Hr & R). exists r.
        rewrite <- app_assoc in Hr. auto.
Qed.

(** X4: clustering keeps some of the centers, in the order they came in, and
    drops a center only when it is in the tolerance box of one it keeps:
    every center is kept or in the box of a kept one.  The box is measured
    on the doubles: the binary64 differences of the latitudes and of the
    longitudes are both below 0.5 in absolute value. *)
Theorem clusterNearbyCenters_covers (centers : list (number * number)) :
  sublist (clusterNearbyCenters centers) centers
  /\ forall c, c ∈ centers ->
               exists r, r ∈ clusterNearbyCenters centers
                         /\ (r = c \/ within_tolerance 0.5 r c = true).
Proof.
  destruct (cluster_loop_cover centers centers [] [] ∅) as (kept & Q & S & C).
  - reflexivity.
  - simpl. intros k Hk. lia.
  - intros k ck Hk. apply not_elem_of_empty in Hk. contradiction.
  - unfold clusterNearbyCenters. simpl in Q. rewrite Q. auto.
Qed.

(** X5: the centers that clustering keeps are apart: no kept center has a
    center kept after it in its tolerance box, measured on the doubles
    (binary64 differences below 0.5 in absolute value).  So clustering again
    changes nothing.  Two kept centers may still be less than half a degree
    apart as written ([clusterNearbyCenters_keeps_closer]). *)
Theorem clusterNearbyCenters_representatives (centers : list (number * number)) :
  apart (clusterNearbyCenters centers)
  /\ clusterNearbyCenters (clusterNearbyCenters centers) = clusterNearbyCenters centers.
Proof.
  split; [apply clusterNearbyCenters_apart | apply clusterNearbyCenters_idempotent].
Qed.

End ClusterCover.

(** ** The text of a number read back *)

Section NumberTexts.

Local Abbreviation digit_step := (fun (acc : Z) (d : N) => (acc * 10 + (Z.of_N d - 48))%Z).

Lemma digits_value_app ds ds' :
  digits_value (ds ++ ds') = foldl digit_step (digits_value ds) ds'.
Proof. unfold digits_value. apply foldl_app. Qed.

Lemma uint_acc_value u :
  forall acc, Z.pos (Pos.of_uint_acc u acc) = foldl digit_step (Z.pos acc) (uint_digits u).
Proof.
  induction u; intros acc; simpl; [reflexivity | rewrite IHu; f_equal; lia ..].
Qed.

Lemma uint_value u : Z.of_N (Pos.of_uint u) = digits_value (uint_digits u).
Proof.
  unfold digits_value.
  induction u; simpl; [reflexivity | exact IHu | rewrite uint_acc_value; reflexivity ..].
Qed.

Lemma digits_of_value n : digits_value (digits_of n) = Z.of_N n.
Proof.
  destruct n as [ | p]; [reflexivity | ]. simpl.
  rewrite <- uint_value, DecimalPos.Unsigned.of_to. reflexivity.
Qed.

Lemma uint_digits_digit u : Forall (fun c => is_digit c = true) (uint_digits u).
Proof. induction u; simpl; constructor; auto. Qed.

Lemma digits_of_digit n : Forall (fun c => is_digit c = true) (digits_of n).
Proof. destruct n; simpl; [repeat constructor | apply uint_digits_digit]. Qed.

Lemma digits_of_cons n : exists d ds, digits_of n = d :: ds.
Proof.
  destruct (digits_of n) as [ | d ds] eqn:E; [ | eauto].
  pose proof (digits_of_value n) as V. rewrite E in V.
  destruct n; [discriminate | discriminate].
Qed.

Lemma zeros_value a z : foldl digit_step a (replicate z 48%N) = (a * 10 ^ Z.of_nat z)%Z.
Proof.
  revert a. induction z as [ | z IH]; intros a.
  - simpl. lia.
  - cbn [replicate foldl]. rewrite IH, Nat2Z.inj_succ, Z.pow_succ_r by lia.
    change (Z.of_N 48 - 48)%Z with 0%Z. lia.
Qed.

Lemma drop_while_zeros l :
  exists z, l = replicate z 48%N ++ drop_while (fun c => (c =? 48)%N) l.
Proof.
  induction l as [ | c l IH]; [exists 0; reflexivity | ]. simpl.
  destruct (N.eqb_spec c 48) as [-> | N]; [ | exists 0; reflexivity].
  destruct IH as (z & E). exists (S z). simpl. now rewrite <- E.
Qed.

Lemma strip_zeros_spec all : exists z, all = strip_zeros all ++ replicate z 48%N.
Proof.
  unfold strip_zeros. destruct (drop_while_zeros (rev all)) as (z & E). exists z.
  rewrite <- (rev_involutive all) at 1. rewrite E at 1.
  rewrite rev_app_distr. f_equal. clear E.
  induction z as [ | z IH]; [reflexivity | ]. simpl. rewrite IH.
  clear IH. induction z as [ | z IH]; [reflexivity | ]. simpl. now rewrite IH.
Qed.

Lemma take_digits_app ds r :
  Forall (fun c => is_digit c = true) ds ->
  match r with [] => True | c :: _ => is_digit c = false end ->
  take_digits (ds ++ r) = (ds, r).
Proof.
  intros D R. induction D as [ | d ds Hd D IH]; simpl.
  - destruct r as [ | c r]; [reflexivity | ]. simpl. now rewrite R.
  - now rewrite Hd, IH.
Qed.

(** Digits alone. *)
Lemma scan_unsigned_integer ip :
  Forall (fun c => is_digit c = true) ip -> ip <> [] ->
  scan_unsigned ip = Some (Num (digits_value ip) 0, []).
Proof.
  intros D N. unfold scan_unsigned.
  rewrite <- (app_nil_r ip) at 1. rewrite take_digits_app by auto.
  rewrite app_nil_r. destruct ip as [ | d ip]; [contradiction | ].
  cbn [scan_exponent length]. simpl Z.of_nat. cbn [Z.sub Z.opp Z.leb Z.compare].
  f_equal. f_equal. f_equal. change (10 ^ 0)%Z with 1%Z. lia.
Qed.

(** Digits, a dot, digits. *)
Lemma scan_unsigned_fraction ip fp :
  Forall (fun c => is_digit c = true) ip -> ip <> [] ->
  Forall (fun c => is_digit c = true) fp -> fp <> [] ->
  scan_unsigned (ip ++ [46%N] ++ fp)
  = Some (normalize (digits_value (ip ++ fp)) (length fp), []).
Proof.
  intros Di Ni Df Nf. unfold scan_unsigned.
  rewrite take_digits_app by (auto; reflexivity). cbn [app].
  rewrite <- (app_nil_r fp) at 1. rewrite take_digits_app by auto.
  destruct ip as [ | d ip]; [contradiction | ].
  destruct fp as [ | f fp]; [contradiction | ].
  cbn [app scan_exponent].
  destruct (0 <=? 0 - Z.of_nat (length (f :: fp)))%Z eqn:C;
    [apply Z.leb_le in C; simpl length in C; lia | ].
  do 3 f_equal. lia.
Qed.

(** The exponent part. *)
Lemma scan_exponent_part (e : Z) :
  scan_exponent ([101%N; if (e <? 0)%Z then 45%N else 43%N]
                 ++ digits_of (Z.to_N (Z.abs e)))
  = (e, []).
Proof.
  pose proof (digits_of_digit (Z.to_N (Z.abs e))) as D.
  pose proof (digits_of_value (Z.to_N (Z.abs e))) as V.
  destruct (digits_of_cons (Z.to_N (Z.abs e))) as (d & ds & E).
  rewrite E in *. cbn [app scan_exponent N.eqb Pos.eqb orb].
  assert (T : take_digits (d :: ds) = (d :: ds, [])).
  { rewrite <- (app_nil_r (d :: ds)) at 1. now apply take_digits_app. }
  destruct (e <? 0)%Z eqn:S; rewrite T, V; f_equal; lia.
Qed.

(** A digit, more digits after a dot if any, and an exponent. *)
Lemma scan_unsigned_exponent d ds (e : Z) :
  Forall (fun c => is_digit c = true) (d :: ds) ->
  let e' := (e - Z.of_nat (length ds))%Z in
  scan_unsigned (match ds with [] => [d] | _ :: _ => d :: 46%N :: ds end
                 ++ [101%N; if (e <? 0)%Z then 45%N else 43%N]
                 ++ digits_of (Z.to_N (Z.abs e)))
  = Some (if (0 <=? e')%Z then Num (digits_value (d :: ds) * 10 ^ e')%Z 0
          else normalize (digits_value (d :: ds)) (Z.to_nat (- e')), []).
Proof.
  intros D e'. subst e'. apply Forall_cons in D as [Hd D]. unfold scan_unsigned.
  pose proof (scan_exponent_part e) as X.
  destruct ds as [ | f fp].
  - change ([d] ++ ?r) with ([d] ++ r).
    rewrite (take_digits_app [d]) by (repeat constructor; auto).
    cbn [app] in X |- *. rewrite X. reflexivity.
  - change (d :: 46%N :: (f :: fp)) with ([d] ++ 46%N :: (f :: fp)).
    rewrite <- app_assoc.
    rewrite (take_digits_app [d]) by (repeat constructor; auto).
    cbn [app]. rewrite app_comm_cons.
    rewrite (take_digits_app (f :: fp)) by (auto; reflexivity).
    cbn [app] in X |- *. rewrite X. reflexivity.
Qed.

End NumberTexts.

Section NumberRoundTrip.

Lemma normalize_canonical m s : canonical (Num m s) -> normalize m s = Num m s.
Proof.
  destruct s as [ | s]; simpl; [reflexivity | ]. intros [H | H]; [discriminate | ].
  destruct (Z.eqb_spec (m mod 10) 0); [contradiction | reflexivity].
Qed.

Lemma normalize_is_canonical s : forall m, canonical (normalize m s).
Proof.
  induction s as [ | s IH]; intros m; simpl; [now left | ].
  destruct (Z.eqb_spec (m mod 10) 0); [apply IH | now right].
Qed.

(** The text of a positive number is read back as the number. *)
Lemma scan_render m s :
  (0 < m)%Z -> canonical (Num m s) ->
  scan_unsigned (render_positive m s) = Some (Num m s, []).
Proof.
  intros P C. unfold render_positive.
  pose proof (digits_of_value (Z.to_N m)) as V. rewrite Z2N.id in V by lia.
  pose proof (digits_of_digit (Z.to_N m)) as D.
  destruct (strip_zeros_spec (digits_of (Z.to_N m))) as (z & E).
  set (all := digits_of (Z.to_N m)) in *. set (ds := strip_zeros all) in *.
  assert (L : length all = length ds + z) by (rewrite E, length_app, length_replicate; lia).
  assert (Dd : Forall (fun c => is_digit c = true) ds).
  { rewrite E in D. now apply Forall_app in D as [D _]. }
  assert (Vd : (m = digits_value ds * 10 ^ Z.of_nat z)%Z).
  { rewrite <- V, E, digits_value_app, zeros_value. reflexivity. }
  assert (Nd : ds <> []).
  { intros Q. rewrite Q in Vd. change (digits_value []) with 0%Z in Vd. lia. }
  assert (Z0 : s = 0 \/ (z = 0 /\ ds = all)).
  { destruct C as [C | C]; [now left | right].
    destruct z as [ | z]; [split; [reflexivity | ] | ].
    - symmetry. etransitivity; [exact E | ]. simpl. apply app_nil_r.
    - exfalso. apply C. rewrite Vd, Nat2Z.inj_succ, Z.pow_succ_r by lia.
      replace (digits_value ds * (10 * 10 ^ Z.of_nat z))%Z
        with ((digits_value ds * 10 ^ Z.of_nat z) * 10)%Z by lia.
      apply Z.mod_mul. lia. }
  assert (Na : all <> []).
  { intros Q. rewrite Q in L. destruct ds; [contradiction | discriminate]. }
  clearbody all ds.
  destruct ((Z.of_nat (length ds) <=? Z.of_nat (length all) - Z.of_nat s)
            && (Z.of_nat (length all) - Z.of_nat s <=? 21))%Z eqn:C1.
  { apply andb_true_iff in C1 as [C1 _]. apply Z.leb_le in C1.
    assert (s = 0) as -> by lia.
    replace (Z.to_nat _) with z by lia. rewrite <- E.
    rewrite scan_unsigned_integer by assumption. now rewrite V. }
  destruct ((0 <? Z.of_nat (length all) - Z.of_nat s)
            && (Z.of_nat (length all) - Z.of_nat s <=? 21))%Z eqn:C2.
  { apply andb_true_iff in C2 as [C2 C2']. apply Z.ltb_lt in C2. rewrite C2' in C1.
    rewrite andb_true_r in C1. apply Z.leb_gt in C1.
    destruct Z0 as [-> | [-> ->]]; [lia | ].
    set (n := Z.to_nat (Z.of_nat (length all) - Z.of_nat s)).
    rewrite scan_unsigned_fraction.
    - rewrite take_drop, V, length_drop.
      replace (length all - n) with s by lia. now rewrite normalize_canonical.
    - now apply Forall_take.
    - intros Q. apply (f_equal length) in Q. rewrite length_take in Q. simpl in Q. lia.
    - now apply Forall_drop.
    - intros Q. apply (f_equal length) in Q. rewrite length_drop in Q. simpl in Q. lia. }
  destruct ((-6 <? Z.of_nat (length all) - Z.of_nat s)
            && (Z.of_nat (length all) - Z.of_nat s <=? 0))%Z eqn:C3.
  { apply andb_true_iff in C3 as [_ C3]. apply Z.leb_le in C3.
    assert (length ds <> 0) by (destruct ds; [contradiction | discriminate]).
    destruct Z0 as [-> | [-> ->]]; [lia | ].
    set (n := Z.to_nat (- (Z.of_nat (length all) - Z.of_nat s))).
    change ([48%N; 46%N] ++ replicate n 48%N ++ all)
      with ([48%N] ++ [46%N] ++ (replicate n 48%N ++ all)).
    rewrite scan_unsigned_fraction.
    - rewrite length_app, length_replicate. replace (n + length all) with s by lia.
      change ([48%N] ++ replicate n 48%N ++ all) with (replicate (S n) 48%N ++ all).
      rewrite digits_value_app.
      replace (digits_value (replicate (S n) 48%N)) with 0%Z
        by (unfold digits_value; rewrite zeros_value; reflexivity).
      fold (digits_value all). rewrite V. now rewrite normalize_canonical.
    - repeat constructor.
    - discriminate.
    - apply Forall_app. split; [ | exact D]. apply Forall_replicate. reflexivity.
    - intros Q. apply (f_equal length) in Q. rewrite length_app in Q. simpl in Q. lia. }
  destruct ds as [ | d ds']; [contradiction | ].
  etransitivity; [apply (scan_unsigned_exponent d ds' _ Dd) | ].
  cbv zeta. simpl length in L.
  destruct (Z.leb_spec 0 (Z.of_nat (length all) - Z.of_nat s - 1 - Z.of_nat (length ds')))
    as [Q | Q].
  - destruct Z0 as [-> | [-> _]].
    + do 3 f_equal. rewrite Vd. do 2 f_equal. lia.
    + assert (s = 0) as -> by lia. do 3 f_equal. rewrite Vd. do 2 f_equal. lia.
  - destruct Z0 as [-> | [-> ->]]; [lia | ].
    replace (Z.to_nat _) with s by lia. rewrite V. now rewrite normalize_canonical.
Qed.

Lemma scan_signed_unsigned s x : scan_unsigned s = Some x -> scan_signed s = Some x.
Proof.
  destruct s as [ | c s]; [discriminate | ].
  destruct (N.eq_dec c 45%N) as [-> | N1]; [discriminate | ].
  destruct (N.eq_dec c 43%N) as [-> | N2]; [discriminate | ].
  intros <-. unfold scan_signed.
  destruct c as [ | p]; [reflexivity | ].
  do 6 (try destruct p as [p | p | ]); try reflexivity; contradiction.
Qed.

Lemma opposite_canonical m s : canonical (Num m s) -> canonical (Num (- m) s).
Proof.
  intros [C | C]; [now left | right]. intros Q. apply C. clear C.
  Z.div_mod_to_equations. lia.
Qed.

Lemma scan_to_string m s :
  canonical (Num m s) -> scan_signed (to_string (Num m s)) = Some (Num m s, []).
Proof.
  intros C. unfold to_string.
  destruct (Z.eqb_spec m 0) as [-> | N].
  { destruct C as [-> | C]; [reflexivity | ]. exfalso. apply C. reflexivity. }
  destruct (Z.ltb_spec m 0) as [Neg | Pos].
  - unfold scan_signed. rewrite scan_render by (try apply opposite_canonical; auto; lia).
    now rewrite Z.opp_involutive.
  - apply scan_signed_unsigned, scan_render; [lia | exact C].
Qed.

End NumberRoundTrip.

Section PairTexts.

Lemma number_char_cases c :
  number_char c = true ->
  In c [43; 45; 46; 48; 49; 50; 51; 52; 53; 54; 55; 56; 57; 78; 97; 101]%N.
Proof.
  unfold number_char, is_digit, between.
  rewrite !orb_true_iff, andb_true_iff, !N.eqb_eq, !N.leb_le. simpl. lia.
Qed.

Lemma number_char_plain c :
  number_char c = true -> is_space c = false /\ c <> 32%N /\ c <> 44%N.
Proof.
  intros H. apply number_char_cases in H. simpl in H.
  repeat (destruct H as [<- | H]; [repeat split; discriminate | ]). contradiction.
Qed.

Lemma digit_number_char ds :
  Forall (fun c => is_digit c = true) ds -> Forall (fun c => number_char c = true) ds.
Proof.
  intros F. eapply Forall_impl; [exact F | ]. intros c H. unfold number_char. now rewrite H.
Qed.

Lemma render_positive_chars m s :
  Forall (fun c => number_char c = true) (render_positive m s).
Proof.
  unfold render_positive.
  pose proof (digits_of_digit (Z.to_N m)) as D.
  destruct (strip_zeros_spec (digits_of (Z.to_N m))) as (z & E).
  set (all := digits_of (Z.to_N m)) in *. set (ds := strip_zeros all) in *.
  assert (Dd : Forall (fun c => number_char c = true) ds).
  { rewrite E in D. apply Forall_app in D as [D _]. now apply digit_number_char. }
  clearbody all ds.
  assert (Z : forall n, Forall (fun c => number_char c = true) (replicate n 48%N)).
  { intros n. apply Forall_replicate. reflexivity. }
  repeat match goal with
         | |- Forall _ (if ?c then _ else _) => destruct c
         | |- Forall _ (_ ++ _) => apply Forall_app; split
         | |- Forall _ (_ :: _) => constructor; [reflexivity | ]
         | |- Forall _ [] => constructor
         | |- Forall _ (take _ _) => apply Forall_take
         | |- Forall _ (drop _ _) => apply Forall_drop
         | |- Forall _ (digits_of _) => apply digit_number_char, digits_of_digit
         | |- Forall _ (match ?l with _ => _ end) => destruct l as [ | ? [ | ? ?]]
         end; auto.
  - apply Forall_cons in Dd as [H Dd]. constructor; [exact H | ].
    constructor; [reflexivity | exact Dd].
  - destruct (_ <? 0)%Z; repeat constructor.
Qed.

Lemma to_string_chars a : Forall (fun c => number_char c = true) (to_string a).
Proof.
  destruct a as [ | m s]; [repeat constructor | ]. unfold to_string.
  destruct (m =? 0)%Z; [repeat constructor | ].
  destruct (m <? 0)%Z; [constructor; [reflexivity | ] | ]; apply render_positive_chars.
Qed.

Lemma drop_while_head (p : N -> bool) l :
  match l with [] => True | c :: _ => p c = false end -> drop_while p l = l.
Proof. destruct l as [ | c l]; [reflexivity | ]. simpl. now intros ->. Qed.

Lemma trim_plain l : Forall (fun c => is_space c = false) l -> trim l = l.
Proof.
  intros F. unfold trim, trim_start.
  rewrite (drop_while_head is_space l) by (destruct F; auto).
  rewrite drop_while_head; [apply rev_involutive | ].
  apply Forall_rev in F. destruct F; auto.
Qed.

(** A text of a number is read back by [Number] as the number. *)
Lemma Number_to_string a : canonical a -> Number (to_string a) = a.
Proof.
  intros C. unfold Number. rewrite trim_plain.
  - destruct a as [ | m s]; [reflexivity | ].
    pose proof (scan_to_string m s C) as Q.
    destruct (to_string (Num m s)) eqn:E; [discriminate | ]. now rewrite Q.
  - eapply Forall_impl; [apply to_string_chars | ]. intros c H.
    now apply number_char_plain in H.
Qed.

Lemma scan_unsigned_canonical s a r : scan_unsigned s = Some (a, r) -> canonical a.
Proof.
  unfold scan_unsigned. destruct (take_digits s) as [ip r1].
  destruct (match r1 with
            | 46%N :: r0 =>
                let '(fp, r2) := take_digits r0 in
                match ip, fp with [], [] => ([], r1) | _, _ => (fp, r2) end
            | _ => ([], r1)
            end) as [fp r2].
  destruct (ip ++ fp); [discriminate | ]. destruct (scan_exponent r2) as [e r3].
  intros [= <- _]. destruct (0 <=? _)%Z; [now left | apply normalize_is_canonical].
Qed.

Lemma parseFloat_canonical s : canonical (parseFloat s).
Proof.
  unfold parseFloat. destruct (scan_signed (trim_start s)) as [[a r] | ] eqn:E;
    [ | exact I].
  unfold scan_signed in E.
  assert (U : forall t a r, scan_unsigned t = Some (a, r) -> canonical a)
    by apply scan_unsigned_canonical.
  destruct (trim_start s) as [ | c t]; [now apply U in E | ].
  assert (O : forall t,
             match scan_unsigned t with
             | Some (Num m sc, rest) => Some (Num (- m) sc, rest)
             | o => o
             end = Some (a, r) -> canonical a).
  { intros t' Q. destruct (scan_unsigned t') as [[[ | m sc] rest] | ] eqn:S;
      try discriminate; injection Q as <- _; [exact I | ].
    apply opposite_canonical. now apply U in S. }
  destruct c as [ | p]; [now apply U in E | ].
  do 6 (try destruct p as [p | p | ]); first [now apply U in E | now apply O in E].
Qed.

Lemma starts_with_app p s : starts_with p (p ++ s) = true.
Proof. induction p as [ | c p IH]; [reflexivity | ]. simpl. now rewrite N.eqb_refl. Qed.

Lemma split_go_skip sep cur pre s :
  split_go sep cur (length pre) (pre ++ s) = split_go sep cur 0 s.
Proof.
  induction pre as [ | c pre IH]; [reflexivity | ]. simpl. exact IH.
Qed.

Lemma split_go_piece c0 sep' k : forall cur rest,
  Forall (fun c => c <> c0) k ->
  split_go (c0 :: sep') cur 0 (k ++ rest) = split_go (c0 :: sep') (rev k ++ cur) 0 rest.
Proof.
  induction k as [ | c k IH]; intros cur rest F; [reflexivity | ].
  apply Forall_cons in F as [N F]. cbn [app split_go starts_with].
  destruct (N.eqb_spec c0 c) as [-> | _]; [contradiction | ]. cbn [andb].
  rewrite IH by exact F. simpl. now rewrite <- app_assoc.
Qed.

Lemma split_go_separator c0 sep' cur rest :
  split_go (c0 :: sep') cur 0 ((c0 :: sep') ++ rest)
  = rev cur :: split_go (c0 :: sep') [] 0 rest.
Proof.
  pose proof (starts_with_app (c0 :: sep') rest) as S.
  change ((c0 :: sep') ++ rest) with (c0 :: (sep' ++ rest)) in S |- *.
  cbn [split_go]. rewrite S. f_equal.
  replace (length (c0 :: sep') - 1) with (length sep') by (simpl; lia).
  apply split_go_skip.
Qed.

(** [split] undoes [join] when no piece holds the first character of the
    separator. *)
Lemma split_join c0 sep' pieces :
  pieces <> [] ->
  Forall (Forall (fun c => c <> c0)) pieces ->
  split (join (c0 :: sep') pieces) (c0 :: sep') = pieces.
Proof.
  unfold split. intros N F. induction F as [ | x l Hx F IH]; [contradiction | ].
  destruct l as [ | y l].
  - simpl join. rewrite <- (app_nil_r x) at 1. rewrite split_go_piece by exact Hx.
    simpl. now rewrite app_nil_r, rev_involutive.
  - change (join (c0 :: sep') (x :: y :: l))
      with (x ++ (c0 :: sep') ++ join (c0 :: sep') (y :: l)).
    rewrite split_go_piece by exact Hx. rewrite split_go_separator.
    rewrite app_nil_r, rev_involutive. f_equal. apply IH. discriminate.
Qed.

Lemma pair_text_chars p :
  Forall (fun c => is_space c = false /\ c <> 32%N) (pair_text p).
Proof.
  unfold pair_text. repeat (apply Forall_app; split).
  - eapply Forall_impl; [apply to_string_chars | ].
    intros c H. apply number_char_plain in H. tauto.
  - repeat constructor; discriminate.
  - eapply Forall_impl; [apply to_string_chars | ].
    intros c H. apply number_char_plain in H. tauto.
Qed.

(** A pair written by the parser is read back by the agents as it was. *)
Lemma lat_lon_pair_text p :
  canonical (fst p) -> canonical (snd p) -> lat_lon (pair_text p) = p.
Proof.
  intros C1 C2. unfold lat_lon, pair_text.
  change (to_string (fst p) ++ txt "," ++ to_string (snd p))
    with (join [44%N] [to_string (fst p); to_string (snd p)]).
  change (txt ",") with [44%N].
  rewrite split_join.
  - simpl. rewrite !Number_to_string by assumption. now destruct p.
  - discriminate.
  - repeat constructor;
      (eapply Forall_impl; [apply to_string_chars | ]);
      intros c H; apply number_char_plain in H; tauto.
Qed.

Lemma in_range_numbers lat lon :
  in_range lat lon = true -> isNaN lat = false /\ isNaN lon = false.
Proof.
  unfold in_range. rewrite !andb_true_iff. intros [[[A _] C] _].
  destruct lat; [discriminate | ]. destruct lon; [discriminate | ]. now split.
Qed.

Lemma convert_fold ps : forall done,
  Forall (fun p => canonical (fst p) /\ canonical (snd p)
                   /\ in_range (fst p) (snd p) = true) ps ->
  foldl (fun coordinates coordPair =>
           let '(lat, lon) := lat_lon coordPair in
           if negb (isNaN lat) && negb (isNaN lon)
           then coordinates ++ [(lon, lat)] else coordinates)
        done (trim <$> (pair_text <$> ps))
  = done ++ ((fun p => (snd p, fst p)) <$> ps).
Proof.
  induction ps as [ | p ps IH]; intros done F; [simpl; now rewrite app_nil_r | ].
  apply Forall_cons in F as [(C1 & C2 & R) F]. cbn [fmap list_fmap foldl].
  rewrite trim_plain
    by (eapply Forall_impl; [apply pair_text_chars | ]; intros c [H _]; exact H).
  rewrite lat_lon_pair_text by assumption. destruct p as [lat lon].
  cbn [fst snd] in *. apply in_range_numbers in R as [-> ->]. cbn [negb andb].
  rewrite (IH _ F). simpl. now rewrite <- app_assoc.
Qed.

(** The converter of the directions service reads the pairs of a text in
    the format of the parser, and turns each around. *)
Lemma convertCoordinatesForDirections_pairs ps :
  ps <> [] ->
  Forall (fun p => canonical (fst p) /\ canonical (snd p)
                   /\ in_range (fst p) (snd p) = true) ps ->
  convertCoordinatesForDirections (join (txt " | ") (pair_text <$> ps))
  = (fun p => (snd p, fst p)) <$> ps.
Proof.
  intros N F. unfold convertCoordinatesForDirections. cbv zeta.
  change (txt " | ") with (32%N :: [124%N; 32%N]).
  rewrite split_join.
  - apply (convert_fold ps [] F).
  - destruct ps; [contradiction | discriminate].
  - apply Forall_fmap, Forall_forall. intros p _.
    eapply Forall_impl; [apply pair_text_chars | ]. intros c [_ H]. exact H.
Qed.

Lemma pass_keys_pairs r s k :
  k ∈ pass_keys r s ->
  exists p, k = pair_text p /\ canonical (fst p) /\ canonical (snd p)
            /\ in_range (fst p) (snd p) = true.
Proof.
  unfold pass_keys. intros H. apply list_elem_of_fmap in H as (m & -> & H).
  apply list_elem_of_filter in H as [V _].
  exists (lat_of m, lon_of m). split; [reflexivity | ].
  split; [apply parseFloat_canonical | ]. split; [apply parseFloat_canonical | ].
  unfold valid in V. exact V.
Qed.

Lemma texts_of_pairs keys :
  Forall (fun k => exists p, k = pair_text p /\ canonical (fst p) /\ canonical (snd p)
                             /\ in_range (fst p) (snd p) = true) keys ->
  exists ps, keys = pair_text <$> ps
             /\ Forall (fun p => canonical (fst p) /\ canonical (snd p)
                                 /\ in_range (fst p) (snd p) = true) ps.
Proof.
  induction 1 as [ | k keys (p & -> & H) F (ps & -> & Fp)].
  - exists []. split; [reflexivity | constructor].
  - exists (p :: ps). split; [reflexivity | now constructor].
Qed.

(** An answer of the parser other than [none] is the text of pairs that
    [split] gives back. *)
Lemma parseCoordinates_texts (s : text) :
  parseCoordinates s = none
  \/ exists ps,
       ps <> []
       /\ Forall (fun p => canonical (fst p) /\ canonical (snd p)
                           /\ in_range (fst p) (snd p) = true) ps
       /\ parseCoordinates s = join (txt " | ") (pair_text <$> ps)
       /\ split (parseCoordinates s) (txt " | ") = pair_text <$> ps.
Proof.
  rewrite parseCoordinates_pairs. destruct s as [ | c s]; [now left | ].
  destruct (includes _ none); [now left | ].
  destruct (returned_pairs (c :: s)) as [ | k ks] eqn:E; [now left | ].
  right. rewrite <- E.
  destruct (texts_of_pairs (returned_pairs (c :: s))) as (ps & Q & F).
  { rewrite returned_pairs_spec.
    destruct (dedup_spec (pass_keys pattern1 (c :: s) ++ pass_keys pattern2 (c :: s)
                          ++ pass_keys pattern3 (c :: s)) []) as [_ I].
    apply Forall_forall. intros x Hx. destruct (I x Hx) as [Hk _].
    apply elem_of_app in Hk as [Hk | Hk]; [exact (pass_keys_pairs _ _ _ Hk) | ].
    apply elem_of_app in Hk as [Hk | Hk]; exact (pass_keys_pairs _ _ _ Hk). }
  assert (N : ps <> []) by (intros ->; rewrite E in Q; discriminate).
  exists ps. split; [exact N | ]. split; [exact F | ].
  rewrite Q. split; [reflexivity | ].
  change (txt " | ") with (32%N :: [124%N; 32%N]). apply split_join.
  - destruct ps; [contradiction | discriminate].
  - apply Forall_fmap, Forall_forall. intros p _.
    eapply Forall_impl; [apply pair_text_chars | ]. intros ch [_ H]. exact H.
Qed.

Lemma convertCoordinatesForDirections_answer (s : text) :
  parseCoordinates s = none
  \/ exists pairs,
       pairs <> []
       /\ Forall (fun p => in_range (fst p) (snd p) = true) pairs
       /\ parseCoordinates s = join (txt " | ") (pair_text <$> pairs)
       /\ convertCoordinatesForDirections (parseCoordinates s)
          = (fun p => (snd p, fst p)) <$> pairs.
Proof.
  destruct (parseCoordinates_texts s) as [N | (ps & N & F & Q & _)]; [now left | right].
  exists ps. split; [exact N | ]. split.
  { eapply Forall_impl; [exact F | ]. intros p (_ & _ & H). exact H. }
  split; [exact Q | ]. rewrite Q. now apply convertCoordinatesForDirections_pairs.
Qed.

(** The vertices the polygon agent reads from an answer of the parser. *)
Lemma polygon_vertices (s : text) :
  is_none (parseCoordinates s) = false ->
  exists ps,
    Forall (fun p => in_range (fst p) (snd p) = true) ps
    /\ (fun coord => let '(lat, lon) := lat_lon (trim coord) in (lon, lat))
          <$> split (parseCoordinates s) (txt " | ")
        = (fun p => (snd p, fst p)) <$> ps.
Proof.
  intros N. destruct (parseCoordinates_texts s) as [Q | (ps & _ & F & _ & ->)].
  { unfold is_none in N. rewrite Q, bool_decide_eq_true_2 in N by reflexivity.
    discriminate. }
  exists ps. split.
  { eapply Forall_impl; [exact F | ]. intros p (_ & _ & H). exact H. }
  rewrite <- list_fmap_compose. apply Forall_fmap_ext_1.
  eapply Forall_impl; [exact F | ]. intros p (C1 & C2 & _). unfold compose.
  rewrite trim_plain
    by (eapply Forall_impl; [apply pair_text_chars | ]; intros c [H _]; exact H).
  rewrite lat_lon_pair_text by assumption. now destruct p.
Qed.

(** X6: the converter of the directions service undoes the coordinate
    parser: an answer of the parser other than [none] is the text of one
    pair or more, each in range, and the converter returns these very
    pairs, in the same order and turned around ([lon, lat]); none is lost
    and none is changed. *)
Theorem convertCoordinatesForDirections_parsed (s : text) :
  parseCoordinates s = none
  \/ exists pairs,
       pairs <> []
       /\ Forall (fun p => in_range (fst p) (snd p) = true) pairs
       /\ parseCoordinates s = join (txt " | ") (pair_text <$> pairs)
       /\ convertCoordinatesForDirections (parseCoordinates s)
          = (fun p => (snd p, fst p)) <$> pairs.
Proof. apply convertCoordinatesForDirections_answer. Qed.

End PairTexts.

Section RoutedPlaces.

Context {T W RouteData IsochroneData : Type}.
Context (env : @collaborators T W RouteData IsochroneData).

Local Ltac run :=
  repeat first
    [ apply yields_bind
    | apply yields_try_catch
    | apply yields_ret
    | apply yields_throw
    | apply yields_callPerplexity; intros [? | ?]
    | apply yields_on_map; intros [[] | ?]
    | apply yields_callMapboxDirections; intros [? | ]
    | progress cbv beta iota zeta
    | match goal with
      | |- yields (if ?c then _ else _) _ => destruct c eqn:?
      | |- yields (match ?x with _ => _ end) _ => destruct x eqn:?
      end ].

Local Ltac routed :=
  match goal with
  | L : bool_decide (2 <= length (convertCoordinatesForDirections (parseCoordinates ?x))) = true,
    N : negb (is_none (parseCoordinates ?x)) = true |- _ =>
      apply bool_decide_eq_true_1 in L; apply negb_true_iff in N;
      destruct (convertCoordinatesForDirections_answer x) as [Q | (ps & _ & F & Q & C)];
      [ unfold is_none in N; rewrite Q, bool_decide_eq_true_2 in N by reflexivity;
        discriminate N
      | exists x, ps; rewrite C in L |- *; rewrite length_fmap in L;
        split; [reflexivity | ]; split; [exact Q | ]; split; [exact L | ];
        split; [exact F | reflexivity] ]
  end.

(** X7: the line agent asks the routing collaborator for a route only
    through the places of the text it has in hand at that time (the answer
    of its latest extraction or refinement request, or the coordinates of
    the first answer when it made none): the parser reads this text as two
    pairs or more, each in range, and the route is asked through these
    pairs, in this order, longitude first. *)
Theorem extractLineCoordinates_routes (userMessage aiMessage : text)
    (queryType : option queryType) :
  yields (extractLineCoordinates (IsochroneData := IsochroneData) env
            userMessage aiMessage queryType)
    (fun _ new =>
       each_event (fun pre e _ =>
         forall coordinates,
           e = DirectionsCall coordinates ->
           exists final pairs,
             in_hand aiMessage pre = Some final
             /\ parseCoordinates final = join (txt " | ") (pair_text <$> pairs)
             /\ 2 <= length pairs
             /\ Forall (fun p => in_range (fst p) (snd p) = true) pairs
             /\ coordinates = (fun p => (snd p, fst p)) <$> pairs) new).
Proof.
  unfold extractLineCoordinates, extractLineCoordinates_body, line_steps, line_validate.
  run; cbn [app]; apply checks_each; cbn [checks app]; repeat split;
    intros coordinates Ev; first [discriminate Ev | injection Ev as <-; routed].
Qed.

End RoutedPlaces.

(** ** What the agents ask of their collaborators *)

Section Requests.

Context {T W RouteData IsochroneData : Type}.
Context (J : arithmetic T) (env : @collaborators T W RouteData IsochroneData).

Local Ltac trace_auto leaf :=
  repeat match goal with
  | |- appends _ (bind _ _) => apply appends_bind; [ | intros ? ]
  | |- appends _ (ret _) => apply appends_ret
  | |- appends _ (throw _) => apply appends_throw
  | |- appends _ (callPerplexity _ _) => apply appends_callPerplexity; intros ?; leaf
  | |- appends _ (on_map _ _) => apply appends_on_map; leaf
  | |- appends _ (getSelectedFeature _) => apply appends_getSelectedFeature
  | |- appends _ (here _) => apply appends_here
  | |- appends _ (match ?x with _ => _ end) => destruct x eqn:?
  end.

(** X8: the isochrone agent asks the isochrone service with minutes or with
    meters, never both, and the values it sends are contours the service
    accepts: one to four values, above 0 and at most 60 minutes or 100000
    meters, in increasing order. *)
Theorem extractIsochrone_contours (userMessage aiMessage : text)
    (queryType : option queryType) :
  appends (fun e => forall minutes meters,
             e = IsochroneCall minutes meters -> one_contour_list minutes meters)
          (extractIsochrone env userMessage aiMessage queryType).
Proof.
  unfold extractIsochrone. apply appends_try_catch; [ | intros e; apply appends_ret].
  unfold extractIsochrone_body, isochrone_center. cbv zeta.
  apply appends_bind; [trace_auto ltac:(intros ? ? ?; discriminate) | intros _].
  apply appends_bind; [trace_auto ltac:(intros ? ? ?; discriminate) | intros r].
  apply appends_bind; [trace_auto ltac:(intros ? ? ?; discriminate) | intros c].
  destruct (isNaN _ || isNaN _); [apply appends_throw | ].
  set (q := toLowerCase (userMessage ++ txt " " ++ aiMessage)).
  pose proof (extractTimeValues_contours_aux q) as Ct.
  pose proof (extractDistanceValues_contours_aux q) as Cd.
  destruct (extractTimeValues q) as [ | v vs] eqn:E; simpl.
  - destruct (extractDistanceValues q) as [ | d ds] eqn:D; simpl;
      [apply appends_throw | ].
    apply appends_bind; [ | intros [x | ]; [apply appends_ret | apply appends_throw]].
    apply appends_callMapboxIsochrone. intros minutes meters Q.
    injection Q as <- <-. split; [discriminate | exact Cd].
  - apply appends_bind; [ | intros [x | ]; [apply appends_ret | apply appends_throw]].
    rewrite andb_false_r.
    apply appends_callMapboxIsochrone. intros minutes meters Q.
    injection Q as <- <-. split; [discriminate | exact Ct].
Qed.

End Requests.

(** ** The cost of an agent run *)

Section Costs.

Context {T W RouteData IsochroneData : Type}.
Context (J : arithmetic T) (env : @collaborators T W RouteData IsochroneData).

Local Abbreviation M := (@M T W).
Local Abbreviation event := (@event T).

Lemma requests_app (n1 n2 : list event) :
  requests (n1 ++ n2) = requests n1 + requests n2.
Proof. unfold requests. rewrite filter_app, length_app. reflexivity. Qed.

Lemma requests_quiet (new : list event) :
  Forall (fun e => is_completion e = false) new -> requests new = 0.
Proof.
  unfold requests. induction 1 as [ | e new He _ IH]; [reflexivity | ].
  rewrite filter_cons. destruct (decide (is_completion e = true)); [congruence | exact IH].
Qed.

Lemma costs_silent {A} n (m : M A) :
  appends (fun e => is_completion e = false) m -> costs n m.
Proof.
  intros H w t. destruct (H w t) as (new & E & F). exists new. split; [exact E | ].
  rewrite (requests_quiet _ F). lia.
Qed.

Lemma costs_ret {A} n (a : A) : costs n (ret a : M A).
Proof. apply costs_silent, appends_ret. Qed.

Lemma costs_throw {A} n msg : costs n (throw msg : M A).
Proof. apply costs_silent, appends_throw. Qed.

Lemma costs_callPerplexity n arg : 1 <= n -> costs n (callPerplexity env arg).
Proof.
  intros L w t. unfold callPerplexity, trace_of.
  destruct (completion env _ w) as [answer w']. simpl.
  eexists. split; [reflexivity | ]. unfold requests. rewrite filter_cons.
  destruct (decide _); simpl; lia.
Qed.

Lemma costs_bind {A B} a b n (m : M A) (f : A -> M B) :
  costs a m -> (forall x, costs b (f x)) -> a + b <= n -> costs n (bind m f).
Proof.
  intros Hm Hf L w t. destruct (Hm w t) as (n1 & E1 & C1). unfold bind.
  destruct (m (w, t)) as [[x | e] [w1 t1]]; unfold trace_of in *; simpl in *; subst t1.
  - destruct (Hf x w1 (t ++ n1)) as (n2 & E2 & C2). exists (n1 ++ n2).
    unfold trace_of in E2. rewrite E2, app_assoc. split; [reflexivity | ].
    rewrite requests_app. lia.
  - exists n1. split; [reflexivity | lia].
Qed.

Lemma costs_try_catch {A} n (m : M A) (h : error -> M A) :
  costs n m -> (forall e, costs 0 (h e)) -> costs n (try_catch m h).
Proof.
  intros Hm Hh w t. destruct (Hm w t) as (n1 & E1 & C1). unfold try_catch.
  destruct (m (w, t)) as [[x | e] [w1 t1]]; unfold trace_of in *; simpl in *; subst t1.
  - exists n1. auto.
  - destruct (Hh e w1 (t ++ n1)) as (n2 & E2 & C2). exists (n1 ++ n2).
    unfold trace_of in E2. rewrite E2, app_assoc. split; [reflexivity | ].
    rewrite requests_app. lia.
Qed.

Lemma appends_load_parser (P : event -> Prop) :
  appends P (fun '(w, t) => let '(r, w') := load_parser env w in (r, (w', t)) : result unit * (W * list event)).
Proof.
  intros w t. unfold trace_of. destruct (load_parser env w). simpl.
  exists []. split; [symmetry; apply app_nil_r | constructor].
Qed.

Lemma appends_add_buffers (P : event -> Prop) buffersArray :
  (forall request, P (MapCall request)) ->
  forall index, appends P (add_buffers env index buffersArray).
Proof.
  intros H. induction buffersArray as [ | b bs IH]; intros index; simpl;
    [apply appends_ret | ].
  apply appends_bind; [ | intros _; apply IH].
  destruct (b_polygon b); [apply appends_ret | ].
  apply appends_bind; [ | intros _]; apply appends_on_map, H.
Qed.

Local Ltac silent :=
  repeat match goal with
  | |- appends _ (bind _ _) => apply appends_bind; [ | intros ? ]
  | |- appends _ (ret _) => apply appends_ret
  | |- appends _ (throw _) => apply appends_throw
  | |- appends _ (on_map _ _) => apply appends_on_map; reflexivity
  | |- appends _ (getSelectedFeature _) => apply appends_getSelectedFeature
  | |- appends _ (here _) => apply appends_here
  | |- appends _ (callMapboxDirections _ _ _) =>
      apply appends_callMapboxDirections; reflexivity
  | |- appends _ (callMapboxIsochrone _ _ _ _ _) =>
      apply appends_callMapboxIsochrone; reflexivity
  | |- appends _ (add_buffers _ _ _) => apply appends_add_buffers; reflexivity
  | |- appends _ (fun _ => _) => apply appends_load_parser
  | |- appends _ (match ?x with _ => _ end) => destruct x
  end.

Local Ltac cost :=
  lazymatch goal with
  | |- costs _ (ret _) => apply costs_ret
  | |- costs _ (throw _) => apply costs_throw
  | |- costs _ (callPerplexity _ _) => apply costs_callPerplexity; lia
  | |- costs _ (try_catch _ _) =>
      apply costs_try_catch; [cost | intros ?; cost]
  | |- costs ?n (bind _ _) =>
      first
        [ apply (costs_bind 0 n); [solve [cost] | intros ?; cost | lia]
        | apply (costs_bind n 0); [cost | intros ?; solve [cost] | lia]
        | match n with
          | S ?k => apply (costs_bind 1 k); [solve [cost] | intros ?; cost | lia]
          end ]
  | |- costs _ (match ?x with _ => _ end) => destruct x; cost
  | |- costs _ _ => apply costs_silent; solve [silent]
  end.

Lemma point_costs userMessage aiMessage queryType :
  costs (budget Point (planned queryType))
        (extractCoordinates (IsochroneData := IsochroneData) env
           userMessage aiMessage queryType).
Proof.
  unfold extractCoordinates, extractCoordinates_body, point_steps, point_validate.
  cbv zeta. destruct queryType; simpl budget; cost.
Qed.

Lemma line_costs userMessage aiMessage queryType :
  costs (budget Line (planned queryType))
        (extractLineCoordinates (IsochroneData := IsochroneData) env
           userMessage aiMessage queryType).
Proof.
  unfold extractLineCoordinates, extractLineCoordinates_body, line_steps, line_validate.
  cbv zeta. destruct queryType; simpl budget; cost.
Qed.

Lemma polygon_costs userMessage aiMessage queryType :
  costs (budget Polygon (planned queryType))
        (extractPolygon (IsochroneData := IsochroneData) env
           userMessage aiMessage queryType).
Proof.
  unfold extractPolygon, extractPolygon_body, polygon_steps, polygon_validate.
  cbv zeta. destruct queryType; simpl budget; cost.
Qed.

Lemma buffer_costs userMessage aiMessage queryType :
  costs (budget Buffer (planned queryType))
        (extractBuffer (IsochroneData := IsochroneData) J env
           userMessage aiMessage queryType).
Proof.
  unfold extractBuffer, extractBuffer_body, buffer_center_text, buffer_radii,
    displayBufferOnMap, displayMultipleBuffersOnMap.
  cbv zeta. simpl budget. cost.
Qed.

Lemma isochrone_costs userMessage aiMessage queryType :
  costs (budget Isochrone (planned queryType))
        (extractIsochrone env userMessage aiMessage queryType).
Proof.
  unfold extractIsochrone, extractIsochrone_body, isochrone_center.
  cbv zeta. destruct queryType; simpl budget; cost.
Qed.

Lemma elevation_costs userMessage aiMessage queryType :
  costs (budget Elevation (planned queryType))
        (extractElevationProfile (IsochroneData := IsochroneData) env
           userMessage aiMessage queryType).
Proof.
  unfold extractElevationProfile, extractElevationProfile_body,
    extractLineCoordinatesForElevation.
  cbv zeta. simpl budget. cost.
Qed.

(** X9: an agent run makes at most four requests to the text-completion
    collaborator: four for the point, line and polygon agents (three when
    the caller passes the classification), two for the buffer agent, two for
    the isochrone agent (one with the classification) and none for the
    elevation agent. *)
Theorem agent_costs (i : intent) (userMessage aiMessage : text)
    (queryType : option queryType) :
  costs (budget i (planned queryType))
        (agent J env i userMessage aiMessage queryType).
Proof.
  destruct i; simpl agent.
  - apply point_costs.
  - apply line_costs.
  - apply buffer_costs.
  - apply polygon_costs.
  - apply isochrone_costs.
  - apply elevation_costs.
Qed.

End Costs.

(** ** The polygons the polygon agent shows *)

Section Polygons.

Lemma ring_of_ring polyStr ring :
  ring_of polyStr = Some ring ->
  3 <= length ring /\ closed_ring ring /\ Forall in_place ring.
Proof.
  unfold ring_of. destruct (is_none _) eqn:N; [discriminate | ].
  destruct (polygon_vertices polyStr N) as (ps & F & ->).
  assert (P : Forall in_place ((fun p => (snd p, fst p)) <$> ps)).
  { apply Forall_fmap. eapply Forall_impl; [exact F | ]. intros p H. exact H. }
  set (coords := _ <$> ps) in *.
  destruct (bool_decide_reflect (3 <= length coords)) as [L | L]; [ | discriminate].
  destruct coords as [ | first rest] eqn:E; [simpl in L; lia | ].
  change (head (first :: rest)) with (Some first).
  destruct (last (first :: rest)) as [final | ] eqn:La.
  - destruct (negb (num_eqb (fst first) (fst final))
              || negb (num_eqb (snd first) (snd final))) eqn:C;
      intros Q; injection Q as <-.
    + split; [simpl in *; rewrite length_app; lia | ]. split.
      * unfold closed_ring.
        change (first :: rest ++ [first]) with ((first :: rest) ++ [first]).
        rewrite last_snoc. now left.
      * change (first :: rest ++ [first]) with ((first :: rest) ++ [first]).
        apply Forall_app. split; [exact P | ]. apply Forall_cons in P as [P _].
        repeat constructor. exact P.
    + split; [exact L | ]. split; [ | exact P]. unfold closed_ring. simpl head.
      rewrite La. apply orb_false_iff in C as [C1 C2]. apply negb_false_iff in C1, C2.
      right. auto.
  - apply last_None in La. discriminate.
Qed.

Context {T W RouteData IsochroneData : Type}.
Context (env : @collaborators T W RouteData IsochroneData).

(** X10: when the polygon agent reports success, it has at least one polygon,
    every polygon has three vertices or more, ends where it starts and has
    each vertex at a place in range (longitude first), and the last thing
    the agent did was to hand these rings to the map. *)
Theorem extractPolygon_success (userMessage aiMessage : text)
    (queryType : option queryType) (s s' : W * list (@event T))
    (polygons : list (list (number * number) * text)) :
  extractPolygon (IsochroneData := IsochroneData) env userMessage aiMessage queryType s
    = (Ok (PolygonSuccess polygons), s') ->
  polygons <> []
  /\ Forall (fun p => 3 <= length (fst p) /\ closed_ring (fst p)
                      /\ Forall in_place (fst p)) polygons
  /\ last (snd s') = Some (MapCall (ShowPolygons (fst <$> polygons))).
Proof.
  unfold extractPolygon, try_catch, extractPolygon_body, bind.
  destruct (polygon_steps env userMessage aiMessage queryType s)
    as [[[isMultiplePolygons finalCoordinates] | e] [w1 t1]];
    [ | discriminate].
  unfold polygon_validate. cbv zeta.
  match goal with
  | |- context [match ?l with [] => throw _ | _ :: _ => _ end] =>
      set (found := l); assert (F : Forall (fun p => 3 <= length (fst p)
                                                      /\ closed_ring (fst p)
                                                      /\ Forall in_place (fst p)) found)
  end.
  { subst found. destruct (isMultiplePolygons && _).
    - apply Forall_forall. intros [ring name] I.
      apply list_elem_of_omap in I as (o & Io & Eo). simpl in Eo. subst o.
      apply elem_of_lookup_imap in Io as (i & polyStr & Ei & _).
      destruct (ring_of polyStr) as [ring' | ] eqn:R; [ | discriminate].
      simpl in Ei. injection Ei as -> _. simpl. exact (ring_of_ring _ _ R).
    - destruct (ring_of finalCoordinates) as [ring | ] eqn:R; [ | constructor].
      constructor; [ | constructor]. exact (ring_of_ring _ _ R). }
  destruct found as [ | p ps] eqn:E; [discriminate | ].
  unfold throw, bind, on_map, ret. destruct (map_call env _ w1) as [[[] | e] w2];
    [ | discriminate].
  intros Q. injection Q as <- <-. split; [discriminate | ]. split; [exact F | ].
  simpl. apply last_snoc.
Qed.

End Polygons.

(** Witness: three cities in the first answer make a triangle, closed by
    repeating Delhi. *)
Lemma extractPolygon_success_witness :
  let delhi := (Num 77209 3, Num 286139 4) in
  let mumbai := (Num 728777 4, Num 19076 3) in
  let bengaluru := (Num 775946 4, Num 129716 4) in
  let ring := [delhi; mumbai; bengaluru; delhi] in
  let userMessage := txt "draw polygon connecting Delhi, Mumbai, Bangalore" in
  let aiMessage := txt "28.6139,77.209 | 19.076,72.8777 | 12.9716,77.5946" in
  let s' := ([], None, [MapCall (T := unit) (ShowPolygons [ring])]) in
  extractPolygon (IsochroneData := unit) scripted userMessage aiMessage
    (Some (QueryType Polygon Single)) ([], None, [])
    = (Ok (PolygonSuccess [(ring, txt "Polygon")]), s')
  /\ last (snd s') = Some (MapCall (ShowPolygons [ring])).
Proof.
  intros delhi mumbai bengaluru ring userMessage aiMessage s'.
  assert (H : extractPolygon (IsochroneData := unit) scripted userMessage aiMessage
                (Some (QueryType Polygon Single)) ([], None, [])
              = (Ok (PolygonSuccess [(ring, txt "Polygon")]), s'))
    by (vm_compute; reflexivity).
  split; [exact H | ].
  exact (proj2 (proj2 (extractPolygon_success scripted userMessage aiMessage
                         (Some (QueryType Polygon Single)) ([], None, []) s'
                         [(ring, txt "Polygon")] H))).
Defined.

(** ** The buffer agent with a selected feature *)

Section SelectedFeature.

Context {T W RouteData IsochroneData : Type}.
Context (J : arithmetic T) (env : @collaborators T W RouteData IsochroneData).

Local Abbreviation event := (@event T).

Local Ltac silent :=
  repeat match goal with
  | |- appends _ (bind _ _) => apply appends_bind; [ | intros ? ]
  | |- appends _ (ret _) => apply appends_ret
  | |- appends _ (throw _) => apply appends_throw
  | |- appends _ (on_map _ _) => apply appends_on_map; reflexivity
  | |- appends _ (add_buffers _ _ _) => apply appends_add_buffers; reflexivity
  | |- appends _ (match ?x with _ => _ end) => destruct x
  end.

Lemma try_catch_bind_ok {A B} (m : @M T W A) (f : A -> @M T W B) h s a :
  m s = (Ok a, s) -> try_catch (bind m f) h s = try_catch (f a) h s.
Proof. intros E. unfold try_catch, bind. rewrite E. reflexivity. Qed.

(** X11: with a feature selected whose center can be read, and a radius with
    its unit in the user message, the buffer agent makes no request to the
    text-completion collaborator: center and radius are found locally. *)
Theorem extractBuffer_without_requests (userMessage aiMessage : text)
    (queryType : option queryType) (w : W) (t : list event)
    (selectedFeature : feature) (centerCoord : text) :
  selected_feature env w = Some selectedFeature ->
  center_of_feature selectedFeature = Some centerCoord ->
  test simpleRadiusPattern userMessage = true ->
  exists new,
    trace_of (extractBuffer (IsochroneData := IsochroneData) J env
                userMessage aiMessage queryType (w, t)) = t ++ new
    /\ requests new = 0.
Proof.
  intros Hs Hc Hr.
  assert (C : forall isMultiple,
             buffer_center_text env userMessage aiMessage isMultiple (w, t)
             = (Ok centerCoord, (w, t))).
  { intros isMultiple. unfold buffer_center_text, bind, getSelectedFeature.
    rewrite Hs. simpl. rewrite Hc. reflexivity. }
  unfold extractBuffer, extractBuffer_body. cbv zeta.
  erewrite try_catch_bind_ok by apply C.
  match goal with
  | |- context [try_catch ?m ?h] =>
      assert (S : appends (fun e : event => is_completion e = false) (try_catch m h))
  end.
  { apply appends_try_catch; [ | intros e; apply appends_ret].
    destruct (is_none _); [apply appends_ret | ].
    destruct (buffer_centers _ _ _) as [ | c centers]; [apply appends_ret | ].
    apply appends_bind.
    - unfold buffer_radii.
      destruct (each_match radiusPattern userMessage visit_radius []);
        [ | apply appends_ret].
      unfold test in Hr. destruct (match_first simpleRadiusPattern userMessage);
        [apply appends_ret | discriminate].
    - intros radiusMatches. unfold displayMultipleBuffersOnMap, displayBufferOnMap.
      silent. }
  destruct (S w t) as (new & E & F). exists new. split; [exact E | ].
  apply requests_quiet, F.
Qed.

End SelectedFeature.

(** Witness: a marker is selected and the message asks for 50 km. *)
Lemma extractBuffer_without_requests_witness :
  selected_feature scripted ([], Some marker_at_40_minus_74) = Some marker_at_40_minus_74
  /\ center_of_feature marker_at_40_minus_74 = Some (txt "40,-74")
  /\ test simpleRadiusPattern (txt "add 50km buffer around this point") = true
  /\ exists new,
       trace_of (extractBuffer (IsochroneData := unit) no_arithmetic scripted
                   (txt "add 50km buffer around this point") []
                   (Some (QueryType Buffer Single))
                   (([], Some marker_at_40_minus_74), [])) = [] ++ new
       /\ requests new = 0.
Proof.
  split; [reflexivity | ]. split; [vm_compute; reflexivity | ].
  split; [vm_compute; reflexivity | ].
  apply (extractBuffer_without_requests no_arithmetic scripted
           (txt "add 50km buffer around this point") []
           (Some (QueryType Buffer Single)) ([], Some marker_at_40_minus_74) []
           marker_at_40_minus_74 (txt "40,-74"));
    [reflexivity | vm_compute; reflexivity | vm_compute; reflexivity].
Defined.

(** ** The classifier and the travel profiles *)

Section Classification.

(** The tests the classifier makes become boolean unknowns, then its rules
    are followed one test at a time. *)
Local Ltac abstract_tests :=
  repeat match goal with
  | |- context [some_test ?l ?s] => generalize (some_test l s); intros ?
  | |- context [test ?r ?s] => generalize (test r s); intros ?
  | |- context [more_than_one ?l] => generalize (more_than_one l); intros ?
  | |- context [includes ?s ?p] => generalize (includes s p); intros ?
  | |- context [bool_decide ?P] => generalize (bool_decide P); intros ?
  end.

Local Ltac head_test q :=
  lazymatch q with
  | if ?c then _ else _ => c
  | QueryType _ ?s => head_test s
  end.

Local Ltac first_unknown c :=
  lazymatch c with
  | orb ?a _ => first_unknown a
  | andb ?a _ => first_unknown a
  | negb ?a => first_unknown a
  | ?v => v
  end.

Local Ltac follow_rules leaf :=
  unfold single_or_multiple, line_subtype;
  repeat (cbn [orb andb negb];
          lazymatch goal with
          | |- subtype_fits ?q = true =>
              let c := head_test q in let v := first_unknown c in destruct v
          | |- ?q = _ \/ _ =>
              let c := head_test q in let v := first_unknown c in destruct v
          end);
  cbn [orb andb negb]; leaf.

(** X12: the classifier always returns a subtype that goes with the intent:
    a line subtype for a line, [single] for an elevation profile, [single]
    or [multiple] for the others. *)
Theorem detectQueryType_subtype_fits (userMessage aiMessage : text) :
  subtype_fits (detectQueryType userMessage aiMessage) = true.
Proof.
  unfold detectQueryType. cbv zeta. abstract_tests.
  follow_rules ltac:(reflexivity).
Qed.

Lemma no_shape_in_empty_answer :
  test (rei "\b(polygon|triangle|shape|boundary|outline|area|region)\s+(from|using|connecting|joining)") (toLowerCase []) = false
  /\ test (rei "\b(polygon|triangle|shape|boundary)\b") (toLowerCase []) = false
  /\ test (rei "coordinates?|points?|locations?") (toLowerCase []) = false.
Proof. repeat split; vm_compute; reflexivity. Qed.

(** X13: the answer of the assistant can change the classification in one
    way only, into a polygon: with any answer, the classifier returns what
    it returns with an empty answer, or a polygon. *)
Theorem detectQueryType_answer_only_adds_polygons (userMessage aiMessage : text) :
  detectQueryType userMessage aiMessage = detectQueryType userMessage []
  \/ type (detectQueryType userMessage aiMessage) = Polygon.
Proof.
  destruct no_shape_in_empty_answer as (E1 & E2 & E3).
  unfold detectQueryType. cbv zeta. rewrite E1, E2, E3. abstract_tests.
  follow_rules ltac:(first [left; reflexivity | right; reflexivity]).
Qed.

(** X14: the isochrone service and the directions service read the same
    travel profile from a message. *)
Theorem travel_profiles_agree (userMessage : text) :
  profile_text (detectTravelMode userMessage)
  = transport_text (detectTransportMode userMessage).
Proof.
  unfold detectTravelMode, detectTransportMode. cbv zeta.
  repeat match goal with
  | |- context [has ?q ?w] => generalize (has q w); intros ?
  end.
  repeat (cbn [orb andb negb];
          lazymatch goal with
          | |- profile_text (if ?c then _ else _) = _ =>
              let v := first_unknown c in destruct v
          | |- _ = transport_text (if ?c then _ else _) =>
              let v := first_unknown c in destruct v
          end);
  cbn [orb andb negb profile_text transport_text]; reflexivity.
Qed.

End Classification.

(** ** The commands *)

Section CommandParsing.

Import Commands.

Lemma text_eqb_eq a : forall b, text_eqb a b = true <-> a = b.
Proof.
  induction a as [ | x a IH]; intros [ | y b]; simpl; split; try discriminate;
    try reflexivity.
  - intros H. apply andb_true_iff in H as [H1 H2]. apply N.eqb_eq in H1.
    apply IH in H2. congruence.
  - intros H. injection H as -> ->. rewrite N.eqb_refl. simpl. now apply IH.
Qed.

Lemma starts_with_refl a : starts_with a a = true.
Proof. induction a as [ | x a IH]; simpl; [reflexivity | ]. now rewrite N.eqb_refl. Qed.

Lemma parseCommand_text message : parseCommand message = parse_text (command_text message).
Proof. reflexivity. Qed.

Lemma find_none {A} (f : A -> bool) l :
  find f l = None <-> Forall (fun x => f x = false) l.
Proof.
  induction l as [ | x l IH]; simpl; [split; [constructor | reflexivity] | ].
  destruct (f x) eqn:E.
  - split; [discriminate | ]. intros F. apply Forall_inv in F. congruence.
  - rewrite IH. split; [now constructor | apply Forall_inv_tail].
Qed.

Lemma match_entries_none cmd entries :
  match_entries cmd entries = None <-> Forall (passed_by cmd) entries.
Proof.
  induction entries as [ | cmdData rest IH]; simpl; [split; [constructor | reflexivity] | ].
  destruct (existsb (text_eqb cmd) (aliases cmdData)) eqn:Ex.
  - split; [discriminate | ]. intros F. apply Forall_inv in F as [_ F].
    apply existsb_exists in Ex as (alias & I & Q). apply text_eqb_eq in Q. subst alias.
    rewrite Forall_forall in F. apply list_elem_of_In in I. specialize (F cmd I).
    rewrite starts_with_refl in F. discriminate.
  - destruct (starts_with (name cmdData) cmd) eqn:Sn.
    + split; [discriminate | ]. intros F. apply Forall_inv in F as [F _]. congruence.
    + destruct (find (fun alias => starts_with alias cmd) (aliases cmdData)) eqn:Fi.
      * split; [discriminate | ]. intros F. apply Forall_inv in F as [_ F].
        apply find_none in F. congruence.
      * apply find_none in Fi. rewrite IH. split.
        -- intros F. constructor; [split; assumption | exact F].
        -- apply Forall_inv_tail.
Qed.

(** The loop returns the name of one of the entries it went through. *)
Lemma match_entries_name cmd entries command args :
  match_entries cmd entries = Some (command, args) ->
  exists cmdData, cmdData ∈ entries /\ name cmdData = command.
Proof.
  induction entries as [ | cmdData rest IH]; simpl; [discriminate | ].
  destruct (existsb _ _).
  { intros Q. injection Q as <- _. exists cmdData. split; [constructor | reflexivity]. }
  destruct (starts_with (name cmdData) cmd).
  { intros Q. injection Q as <- _. exists cmdData. split; [constructor | reflexivity]. }
  destruct (find _ _).
  { intros Q. injection Q as <- _. exists cmdData. split; [constructor | reflexivity]. }
  intros Q. destruct (IH Q) as (c & I & E). exists c. split; [now constructor | exact E].
Qed.

(** The loop stops at the first entry it does not pass by. *)
Lemma match_entries_first cmd pre cmdData post :
  ~ passed_by cmd cmdData ->
  exists command args,
    match_entries cmd (pre ++ cmdData :: post) = Some (command, args)
    /\ command ∈ name <$> (pre ++ [cmdData]).
Proof.
  intros N. destruct (match_entries cmd (pre ++ cmdData :: post)) as [[command args] | ] eqn:E.
  - exists command, args. split; [reflexivity | ].
    revert E. induction pre as [ | c pre IH]; simpl.
    + destruct (existsb _ _); [intros Q; injection Q as <- _; constructor | ].
      destruct (starts_with (name cmdData) cmd) eqn:Sn;
        [intros Q; injection Q as <- _; constructor | ].
      destruct (find _ _) eqn:Fi; [intros Q; injection Q as <- _; constructor | ].
      exfalso. apply N. split; [exact Sn | now apply find_none].
    + destruct (existsb _ _); [intros Q; injection Q as <- _; constructor | ].
      destruct (starts_with (name c) cmd); [intros Q; injection Q as <- _; constructor | ].
      destruct (find _ _); [intros Q; injection Q as <- _; constructor | ].
      intros Q. constructor. apply IH, Q.
  - exfalso. apply match_entries_none in E. apply Forall_app in E as [_ E].
    apply Forall_inv in E. contradiction.
Qed.

Lemma parseCommand_none (message : text) :
  parseCommand message = None
  <-> get (command_text message) = Missing
      /\ Forall (passed_by (command_text message)) commands.
Proof.
  rewrite parseCommand_text. unfold parse_text.
  destruct (get (command_text message)).
  - split; [discriminate | intros [Q _]; discriminate].
  - split; [discriminate | intros [Q _]; discriminate].
  - rewrite match_entries_none. tauto.
Qed.

(** X15: a message is reported as an unknown command exactly when its text
    (without the [@], trimmed, in lower case) is no property of the registry
    and begins with no name and no alias of a command.  Any other text runs
    a command, whatever follows the name or alias it begins with. *)
Theorem parseCommand_unknown (message : text) :
  parseCommand message = None
  <-> get (command_text message) = Missing
      /\ Forall (passed_by (command_text message)) commands.
Proof. apply parseCommand_none. Qed.

Lemma one_letter_alias letter :
  existsb (N.eqb letter) one_letter_aliases = true ->
  existsb (fun cmdData => existsb (text_eqb [letter]) (aliases cmdData)) commands = true.
Proof.
  unfold one_letter_aliases. intros H. apply existsb_exists in H as (l & I & E).
  apply N.eqb_eq in E. subst l.
  vm_compute in I. repeat (destruct I as [<- | I]; [vm_compute; reflexivity | ]).
  contradiction.
Qed.

(** X16: a text that begins with one of the letters c, d, f, h, i, l, o, s, t, z
    is never an unknown command: each of these letters is an alias, and an
    alias needs only to be a prefix of the text. *)
Theorem parseCommand_one_letter (message : text) (letter : N) (rest : text) :
  command_text message = letter :: rest ->
  existsb (N.eqb letter) one_letter_aliases = true ->
  parseCommand message <> None.
Proof.
  intros E L Q. apply parseCommand_none in Q as [_ F]. rewrite E in F.
  apply one_letter_alias, existsb_exists in L as (cmdData & I & A).
  apply existsb_exists in A as (alias & Ia & Ea). apply text_eqb_eq in Ea. subst alias.
  rewrite Forall_forall in F. apply list_elem_of_In in I. destruct (F cmdData I) as [_ Fa].
  rewrite Forall_forall in Fa. apply list_elem_of_In in Ia. specialize (Fa _ Ia).
  simpl in Fa. rewrite N.eqb_refl in Fa. discriminate.
Qed.

(** X17: the command [zoom] receives arguments only from a text that does not
    begin with [zo]: a text such as [zoom 10] is taken by the alias [zo] of
    [zoom out], which comes first in the registry. *)
Theorem parseCommand_zoom_arguments (message : text) (args : list text) :
  parseCommand message = Some (txt "zoom", args) ->
  args = [] \/ starts_with (txt "zo") (command_text message) = false.
Proof.
  rewrite parseCommand_text. unfold parse_text. set (cmd := command_text message).
  destruct (get cmd); try (intros Q; injection Q as _ <-; now left).
  intros Q. right. destruct (starts_with (txt "zo") cmd) eqn:Z; [ | reflexivity].
  exfalso.
  destruct (match_entries_first cmd (take 19 commands)
              (entry "zoom out" ["zo"; "zoom-"]%string "ZOOM OUT BY 2 LEVELS" (ZoomMap "out"))
              (drop 20 commands)) as (command & args' & E & I).
  { intros [_ F]. apply Forall_inv in F. change (starts_with (txt "zo") cmd = false) in F.
    congruence. }
  change (take 19 commands ++ _ :: drop 20 commands) with commands in E.
  rewrite Q in E. injection E as <- _. apply list_elem_of_In in I. vm_compute in I.
  repeat (destruct I as [I | I]; [discriminate | ]). exact I.
Qed.

Lemma aliases_table :
  forallb (fun cmdData =>
             forallb (fun alias =>
                        match parse_text alias with
                        | Some (command, _) => text_eqb command (runs cmdData alias)
                        | None => false
                        end) (aliases cmdData)) commands = true.
Proof. vm_compute. reflexivity. Qed.

(** X18: what an alias runs.  Of the aliases of the registry, typed in any
    letter case and with any space around, 21 do not run their command,
    because a shorter alias of an earlier command is a prefix of them: the
    aliases of the five partial [clean] commands run [clean], [fit bounds],
    [fb], [fs] and [full] run [fresh], [copy coords] and [cc] run [center],
    [here] runs [help], [location] and [loc] run [light].  Every other
    alias runs its own command. *)
Theorem parseCommand_alias (message : text) (cmdData : command) (alias : text) :
  cmdData ∈ commands ->
  alias ∈ aliases cmdData ->
  command_text message = alias ->
  fst <$> parseCommand message = Some (runs cmdData alias).
Proof.
  intros Ic Ia E. rewrite parseCommand_text, E.
  pose proof aliases_table as T. rewrite forallb_forall in T.
  apply list_elem_of_In in Ic. specialize (T _ Ic). rewrite forallb_forall in T.
  apply list_elem_of_In in Ia. specialize (T _ Ia).
  destruct (parse_text alias) as [[command args] | ]; [ | discriminate].
  apply text_eqb_eq in T. simpl. congruence.
Qed.

Lemma get_name cmdData : cmdData ∈ commands -> get (name cmdData) <> Missing.
Proof.
  intros I. unfold get.
  destruct (find (fun c => text_eqb (name c) (name cmdData)) commands) eqn:F;
    [discriminate | ].
  apply find_none in F. rewrite Forall_forall in F. specialize (F _ I). simpl in F.
  assert (X : text_eqb (name cmdData) (name cmdData) = true) by now apply text_eqb_eq.
  congruence.
Qed.

(** X19: the command [parseCommand] returns is always a property of the
    registry, so the answer [Command not found] of [handleCommand] is never
    given. *)
Theorem parseCommand_found (message command : text) (args : list text) :
  parseCommand message = Some (command, args) -> get command <> Missing.
Proof.
  rewrite parseCommand_text. unfold parse_text.
  destruct (get (command_text message)) eqn:G.
  - intros Q. injection Q as <- _. rewrite G. discriminate.
  - intros Q. injection Q as <- _. rewrite G. discriminate.
  - intros Q. apply match_entries_name in Q as (cmdData & I & <-). now apply get_name.
Qed.

End CommandParsing.

(** Witnesses and examples. *)

Lemma parseCommand_one_letter_witness :
  Commands.command_text (txt "@delete everything") = 100%N :: txt "elete everything"
  /\ existsb (N.eqb 100) one_letter_aliases = true
  /\ Commands.parseCommand (txt "@delete everything") <> None.
Proof.
  split; [vm_compute; reflexivity | ]. split; [vm_compute; reflexivity | ].
  apply (parseCommand_one_letter (txt "@delete everything") 100 (txt "elete everything"));
    vm_compute; reflexivity.
Defined.

Lemma parseCommand_zoom_arguments_witness :
  Commands.parseCommand (txt "@z 10") = Some (txt "zoom", [txt "10"])
  /\ ([txt "10"] = []
      \/ starts_with (txt "zo") (Commands.command_text (txt "@z 10")) = false).
Proof.
  assert (H : Commands.parseCommand (txt "@z 10") = Some (txt "zoom", [txt "10"]))
    by (vm_compute; reflexivity).
  split; [exact H | ].
  exact (parseCommand_zoom_arguments (txt "@z 10") [txt "10"] H).
Defined.

Lemma parseCommand_alias_witness :
  Commands.command_text (txt "@FB ") = txt "fb"
  /\ fst <$> Commands.parseCommand (txt "@FB ") = Some (txt "fresh").
Proof.
  split; [vm_compute; reflexivity | ].
  apply (parseCommand_alias (txt "@FB ")
           (Commands.entry "fit" ["fit bounds"; "fb"]%string
              "FIT MAP TO SHOW ALL FEATURES" Commands.FitToFeatures) (txt "fb")).
  - apply list_elem_of_In. vm_compute. tauto.
  - apply list_elem_of_In. vm_compute. tauto.
  - vm_compute. reflexivity.
Defined.

Lemma parseCommand_found_witness :
  Commands.parseCommand (txt "@zoom 10") = Some (txt "zoom out", [txt "om"; txt "10"])
  /\ Commands.get (txt "zoom out") <> Commands.Missing.
Proof.
  assert (H : Commands.parseCommand (txt "@zoom 10")
              = Some (txt "zoom out", [txt "om"; txt "10"])) by (vm_compute; reflexivity).
  split; [exact H | ].
  exact (parseCommand_found (txt "@zoom 10") (txt "zoom out") [txt "om"; txt "10"] H).
Defined.

Section CommandTargets.

Import Commands.

Context {W : Type} (map : @map_api W).













End CommandTargets.

Example zoom_by_alias :
  let map := Commands.MapApi (fun _ _ _ w => (Ok tt, w)) (fun _ w => (Ok None, w)) [] in
  Commands.handleCommand map (txt "@z 10") (tt, [])
  = (Commands.Outcome true (txt "Zoom set to 10"),
     (tt, [Commands.FlyTo None (Some 10%float) 1000])).
Proof. vm_compute. reflexivity. Qed.

(** The example of the description of [zoom] zooms out instead. *)
Example zoom_by_name :
  let map := Commands.MapApi (fun _ _ _ w => (Ok tt, w)) (fun _ w => (Ok None, w)) [] in
  Commands.handleCommand map (txt "@ZOOM 10") (tt, [])
  = (Commands.Outcome true (txt "Command executed: zoom out"),
     (tt, [Commands.Run (Commands.ZoomMap "out")])).
Proof. vm_compute. reflexivity. Qed.

(** A zoom written with more digits than a double holds is the double
    nearest to it. *)
Example zoom_rounded :
  let map := Commands.MapApi (fun _ _ _ w => (Ok tt, w)) (fun _ w => (Ok None, w)) [] in
  Commands.handleCommand map (txt "@z 22.000000000000000001") (tt, [])
  = (Commands.Outcome true (txt "Zoom set to 22"),
     (tt, [Commands.FlyTo None (Some 22%float) 1000])).
Proof. vm_compute. reflexivity. Qed.

Example zoom_too_far :
  let map := Commands.MapApi (fun _ _ _ w => (Ok tt, w)) (fun _ w => (Ok None, w)) [] in
  Commands.handleCommand map (txt "@z 22.5") (tt, [])
  = (Commands.Outcome false (txt "Invalid zoom level (0-22)"), (tt, [])).
Proof. vm_compute. reflexivity. Qed.

Example center_by_name :
  let map := Commands.MapApi (fun _ _ _ w => (Ok tt, w)) (fun _ w => (Ok None, w)) [] in
  Commands.handleCommand map (txt "@center 40.7128,-74.006") (tt, [])
  = (Commands.Outcome true (txt "Map centered on 40.7128, -74.006"),
     (tt, [Commands.FlyTo (Some ((-0x1.280624dd2f1aap+6)%float, 0x1.45b3d07c84b5ep+5%float))
                          None 1500])).
Proof. vm_compute. reflexivity. Qed.

Example inherited_property :
  let map := Commands.MapApi (fun _ _ _ w => (Ok tt, w)) (fun _ w => (Ok None, w))
               (txt "cmdData.execute is not a function") in
  Commands.handleCommand map (txt "@constructor") (tt, [])
  = (Commands.Outcome false (txt "Error: cmdData.execute is not a function"), (tt, [])).
Proof. vm_compute. reflexivity. Qed.

(** ** What the point and line agents show *)

Section Shown.

Context {T W RouteData IsochroneData : Type}.
Context (env : @collaborators T W RouteData IsochroneData).

Local Abbreviation event := (@event T).

(** What an event shows of a text of coordinates, if anything. *)
Lemma shown_parsed finalCoordinates :
  is_none (parseCoordinates finalCoordinates) = false ->
  parsed_pairs (parseCoordinates finalCoordinates).
Proof.
  intros N. destruct (parseCoordinates_answer finalCoordinates) as [Q | Q]; [ | exact Q].
  unfold is_none in N. rewrite Q in N. now rewrite bool_decide_eq_true_2 in N.
Qed.

Local Ltac shown :=
  repeat match goal with
  | |- appends _ (bind _ _) => apply appends_bind; [ | intros ? ]
  | |- appends _ (ret _) => apply appends_ret
  | |- appends _ (throw _) => apply appends_throw
  | |- appends _ (callPerplexity _ _) =>
      apply appends_callPerplexity; intros ? ? ?; discriminate
  | |- appends _ (callMapboxDirections _ _ _) =>
      apply appends_callMapboxDirections; intros ? ?; discriminate
  | |- appends _ (on_map _ (ShowRoute _)) =>
      apply appends_on_map; intros ? ?; discriminate
  | |- appends _ (on_map _ _) =>
      apply appends_on_map; intros ? Q; injection Q as <-; apply shown_parsed;
      apply negb_true_iff; assumption
  | |- appends _ (match ?x with _ => _ end) => destruct x eqn:?
  end.

(** X21: every text of coordinates that the point agent and the line agent
    hand to the map, as markers or as a line, is an answer of the parser
    other than [none]: one pair or more, no pair twice, each in range. *)
Theorem agents_show_parsed_pairs (userMessage aiMessage : text)
    (queryType : option queryType) :
  let shows (e : event) :=
    forall coordinates,
      shown_text e = Some coordinates -> parsed_pairs coordinates in
  appends shows (extractCoordinates (IsochroneData := IsochroneData) env
                   userMessage aiMessage queryType)
  /\ appends shows (extractLineCoordinates (IsochroneData := IsochroneData) env
                      userMessage aiMessage queryType).
Proof.
  intros shows. subst shows. split.
  - unfold extractCoordinates, extractCoordinates_body, point_steps, point_validate.
    cbv zeta. apply appends_try_catch; [ | intros e; apply appends_ret]. shown.
  - unfold extractLineCoordinates, extractLineCoordinates_body, line_steps, line_validate.
    cbv zeta. apply appends_try_catch; [ | intros e; apply appends_ret]. shown.
Qed.

End Shown.

(** The budgets are met: the point agent, left to plan by itself, can make
    four requests. *)
Example point_agent_four_requests :
  requests
    (trace_of
       (extractCoordinates (IsochroneData := unit) scripted (txt "where is Dubai") [] None
          ([Ok (txt "single"); Ok (txt "25.2048,55.2708"); Ok (txt "refine");
            Ok (txt "25.2048,55.2708")], None, [])))
  = 4.
Proof. vm_compute. reflexivity. Qed.

Example buffer_agent_two_requests :
  requests
    (trace_of
       (extractBuffer (IsochroneData := unit) no_arithmetic scripted
          (txt "add a buffer around Delhi") [] (Some (QueryType Buffer Single))
          ([Ok (txt "28.6139,77.209"); Ok (txt "10")], None, [])))
  = 2.
Proof. vm_compute. reflexivity. Qed.


